(** * Call routing framework

    A shallow embedding of the routing core of the framework:

    - [DCD]: dynamic call distribution (route weights and ranking),
    - [LCR]: least-cost routing (total cost and cheapest route),
    - [ADS]: the anomaly detection system (deviation reports, risk score),
    - [CRF]: the call routing framework that owns the live calls,
    - [LCRRoutes]: the route store of least-cost routing,
    - [STIR]: STIR/SHAKEN verification of an incoming call,
    - [MFA]: multi-factor authentication (one-time codes, lockout, risk),
    - [MU]: the metrics utility (classification metrics, satisfaction).

    Conventions of the embedding.

    - A finite JavaScript number is an exact rational ([Q]); rounding and
      the sign of zero are not represented.  Where the program divides by
      a value that can be zero the numbers are [jsnum], which adds
      [Infinity], [-Infinity] and [NaN].
    - A [Map] is an association list in insertion order.
    - [Math.random()] is a stream of draws read through a counter;
      [Date.now()] is one reading per operation.
    - An [async] method that can reject returns a [result]: the value it
      resolves with or the exception it rejects with.  State changes made
      before a throw persist, as they do in the program.  An operation
      runs to its end before the next one starts.
    - A property read on an object literal with a computed name sees
      the own properties and the standard members of [Object.prototype].
    - The functions of [crypto], [jsonwebtoken] and [Math.sqrt] are
      parameters of the definitions that call them. *)

From Stdlib Require Import QArith Qminmax Qabs ZArith List String Bool.
From Stdlib Require Import Lia Lqa Permutation Sorted.
From Stdlib Require Import Ascii DecimalString.
From Stdlib Require DecimalFacts DecimalPos.
Import ListNotations.

Open Scope string_scope.
Open Scope Q_scope.

(** ** Runtime: exceptions, results, maps, sorting, random draws *)

Module JS.

(** A thrown [Error] object: its [name] and its [message]. *)
Record exn := mkExn { name : string; message : string }.

Definition Error (msg : string) : exn := mkExn "Error" msg.
Definition TypeError (msg : string) : exn := mkExn "TypeError" msg.
Definition ReferenceError (msg : string) : exn := mkExn "ReferenceError" msg.

Inductive result (A : Type) : Type :=
| Returns (a : A)
| Throws (e : exn).
Arguments Returns {A} a.
Arguments Throws {A} e.

(** [fails_with n r]: [r] is a failure whose error is named [n]. *)
Definition fails_with {A} (n : string) (r : result A) : Prop :=
  match r with
  | Returns _ => False
  | Throws e => name e = n
  end.

(** *** Map: association list in insertion order *)

Definition Map (V : Type) := list (string * V).

Fixpoint get {V} (k : string) (m : Map V) : option V :=
  match m with
  | [] => None
  | (k', v) :: m' => if String.eqb k k' then Some v else get k m'
  end.

(** [set] replaces the value of a present key in place and appends a
    new key at the end. *)
Fixpoint set {V} (k : string) (v : V) (m : Map V) : Map V :=
  match m with
  | [] => [(k, v)]
  | (k', v') :: m' =>
      if String.eqb k k' then (k, v) :: m' else (k', v') :: set k v m'
  end.

Fixpoint delete {V} (k : string) (m : Map V) : Map V :=
  match m with
  | [] => []
  | (k', v') :: m' =>
      if String.eqb k k' then m' else (k', v') :: delete k m'
  end.

Definition keys {V} (m : Map V) : list string := map fst m.
Definition values {V} (m : Map V) : list V := map snd m.
Definition size {V} (m : Map V) : nat := List.length m.

(** The keys of a map filled by one [set] per element of [l], in
    turn: each key stands where it first occurred. *)
Definition addKey (ks : list string) (k : string) : list string :=
  if in_dec string_dec k ks then ks else (ks ++ [k])%list.

Definition insertionOrder (l : list string) : list string :=
  fold_left addKey l [].

(** *** Array.prototype.sort with a numeric comparator

    The sort is stable: [x] moves behind [y] only when the comparator
    is positive on [(x, y)]. *)

Section Sort.
Context {A : Type} (cmp : A -> A -> Q).

Fixpoint insert (x : A) (l : list A) : list A :=
  match l with
  | [] => [x]
  | y :: l' =>
      if Qle_bool (cmp x y) 0 then x :: y :: l' else y :: insert x l'
  end.

Fixpoint sort (l : list A) : list A :=
  match l with
  | [] => []
  | x :: l' => insert x (sort l')
  end.
End Sort.

(** A list in ascending order of [key], and the test for the
    elements whose key is [q]. *)
Definition ascending {A} (key : A -> Q) : list A -> Prop :=
  StronglySorted (fun x y => key x <= key y).

Definition keyed {A} (key : A -> Q) (q : Q) (x : A) : bool :=
  Qeq_bool (key x) q.

(** *** Environment of one operation *)

Record Env := mkEnv {
  Math_random : nat -> Q;   (* the successive draws of Math.random() *)
  Date_now : Z              (* the reading of Date.now(), in ms *)
}.

(** Computations that draw random numbers thread the draw counter. *)
Definition Sim (A : Type) : Type := nat -> A * nat.

Definition ret {A} (a : A) : Sim A := fun n => (a, n).
Definition bind {A B} (c : Sim A) (k : A -> Sim B) : Sim B :=
  fun n => let (a, n') := c n in k a n'.
Definition random (env : Env) : Sim Q := fun n => (Math_random env n, S n).



End JS.

Import JS.

Notation "x <- c ;; k" := (bind c (fun x => k))
  (at level 61, c at next level, right associativity).

(** ** Dynamic call distribution (DCD)

    Class [DynamicCallDistribution] of src/config/system.js. *)

Module DCD.

Record DynamicCallDistribution := mkDCD {
  LATENCY_WEIGHT : Q;
  LOAD_WEIGHT : Q;
  RELIABILITY_WEIGHT : Q
}.

Definition constructor : DynamicCallDistribution :=
  {| LATENCY_WEIGHT := 0.4; LOAD_WEIGHT := 0.3; RELIABILITY_WEIGHT := 0.3 |}.

Record RouteMetrics := mkMetrics {
  latency : Q;
  load : Q;
  reliability : Q
}.

Record WeightedRoute := mkWeighted {
  weight : Q;
  metrics : RouteMetrics
}.

Record OptimalRoute := mkOptimal {
  selectedRoute : string;
  selectedMetrics : RouteMetrics;
  selectedWeight : Q
}.

Definition measureLatency (env : Env) (route : string) : Sim Q :=
  jitter <- random env ;;
  ret (50 + jitter * 20).

Definition getCurrentLoad (env : Env) (route : string) : Sim Q :=
  random env.

Definition calculateReliability (env : Env) (route : string) : Sim Q :=
  r <- random env ;;
  ret (Qmin 1 (0.95 + r * 0.1)).

Definition calculateRouteWeight
    (this : DynamicCallDistribution) (m : RouteMetrics) : Q :=
  let normalizedLatency := 1 - (Qmin (latency m) 200 / 200) in
  LATENCY_WEIGHT this * normalizedLatency +
  LOAD_WEIGHT this * (1 - load m) +
  RELIABILITY_WEIGHT this * reliability m.

Definition getAvailableRoutes : list string :=
  ["route1"; "route2"; "route3"; "route4"]%string.

(** The [for ... of] loop of [getOptimalRoute]. *)
Fixpoint weighRoutes (this : DynamicCallDistribution) (env : Env)
    (availableRoutes : list string) (weightedRoutes : Map WeightedRoute)
    : Sim (Map WeightedRoute) :=
  match availableRoutes with
  | [] => ret weightedRoutes
  | route :: rest =>
      latency <- measureLatency env route ;;
      load <- getCurrentLoad env route ;;
      reliability <- calculateReliability env route ;;
      let m := mkMetrics latency load reliability in
      let weight := calculateRouteWeight this m in
      weighRoutes this env rest (set route (mkWeighted weight m) weightedRoutes)
  end.

(** [(a, b) => b[1].weight - a[1].weight] *)
Definition byWeightDesc (a b : string * WeightedRoute) : Q :=
  weight (snd b) - weight (snd a).

Definition sortedRoutes (weightedRoutes : Map WeightedRoute)
    : list (string * WeightedRoute) :=
  sort byWeightDesc weightedRoutes.

(** Reading [sortedRoutes[0][0]]: indexing [undefined] throws. *)
Definition selectFirst (sorted : list (string * WeightedRoute))
    : result OptimalRoute :=
  match sorted with
  | [] => Throws (TypeError "Cannot read properties of undefined (reading '0')")
  | (route, w) :: _ => Returns (mkOptimal route (metrics w) (weight w))
  end.

(** The body of [getOptimalRoute] once the candidates are known. *)
Definition selectAmong (this : DynamicCallDistribution) (env : Env)
    (availableRoutes : list string) : Sim (result OptimalRoute) :=
  weightedRoutes <- weighRoutes this env availableRoutes [] ;;
  ret (selectFirst (sortedRoutes weightedRoutes)).

(** [getOptimalRoute(networkState, callRequest)]: neither argument is
    read, the candidates are those of [getAvailableRoutes]. *)
Definition getOptimalRoute (this : DynamicCallDistribution) (env : Env)
    : Sim (result OptimalRoute) :=
  selectAmong this env getAvailableRoutes.

(** A ranking with the highest weight first, and the test for the
    entries of weight [w]. *)
Definition highestFirst : list (string * WeightedRoute) -> Prop :=
  StronglySorted (fun a b => weight (snd b) <= weight (snd a)).

Definition weighs (w : Q) (e : string * WeightedRoute) : bool :=
  Qeq_bool (weight (snd e)) w.

(** The score as the specification words it. *)
Definition spec_normLatency (latency ceiling : Q) : Q :=
  1 - Qmin latency ceiling / ceiling.

Definition spec_score (m : RouteMetrics) : Q :=
  0.4 * spec_normLatency (latency m) 200
  + 0.3 * (1 - load m) + 0.3 * reliability m.

Definition in_range (m : RouteMetrics) : Prop :=
  0 <= latency m /\ (0 <= load m <= 1) /\ (0 <= reliability m <= 1).

(** The metrics with one field replaced. *)
Definition with_latency (m : RouteMetrics) (x : Q) : RouteMetrics :=
  mkMetrics x (load m) (reliability m).
Definition with_load (m : RouteMetrics) (x : Q) : RouteMetrics :=
  mkMetrics (latency m) x (reliability m).
Definition with_reliability (m : RouteMetrics) (x : Q) : RouteMetrics :=
  mkMetrics (latency m) (load m) x.




End DCD.

(** ** Least-cost routing (LCR)

    Class [LeastCostRouting] of src/src/core/lcr.js. *)

Module LCR.

Record LeastCostRouting := mkLCR {
  DELAY_PENALTY_FACTOR : Q
}.

Definition constructor : LeastCostRouting :=
  {| DELAY_PENALTY_FACTOR := 0.2 |}.

(** Route information: both arrays are optional, and an entry of
    [weights] may be missing ([None] is [undefined]). *)
Record RouteInfo := mkRoute {
  costs : option (list Q);
  weights : option (list (option Q))
}.

(** [x || d] on a possibly undefined number: zero is falsy. *)
Definition or_default (x : option Q) (d : Q) : Q :=
  match x with
  | Some w => if Qeq_bool w 0 then d else w
  | None => d
  end.

(** [a[i]] on an array that may hold [undefined]. *)
Definition index (a : list (option Q)) (i : nat) : option Q :=
  match nth_error a i with
  | Some x => x
  | None => None
  end.

Definition calculateTotalCost
    (this : LeastCostRouting) (route : RouteInfo) (delay : Q) : Q :=
  let routeCosts := match costs route with Some c => c | None => [] end in
  let weights := match weights route with Some w => w | None => [] end in
  let weightedCost :=
    fold_left
      (fun weightedCost i =>
         weightedCost + or_default (index weights i) 1 * nth i routeCosts 0)
      (seq 0 (List.length routeCosts)) 0 in
  let delayPenalty := DELAY_PENALTY_FACTOR this * delay in
  weightedCost + delayPenalty.

Definition getRouteCosts (env : Env) (routeId : string) : Sim RouteInfo :=
  network <- random env ;;
  processing <- random env ;;
  maintenance <- random env ;;
  ret {| costs := Some [network * 10; processing * 5; maintenance * 3];
         weights := Some [Some 0.5; Some 0.3; Some 0.2] |}.

Definition measureDelay (env : Env) (routeId : string) : Sim Q :=
  variation <- random env ;;
  ret (30 + variation * 15).

Record RouteCost := mkRouteCost {
  totalCost : Q;
  delay : Q;
  info : RouteInfo
}.

Record OptimalRoute := mkOptimal {
  selectedRoute : string;
  metrics : RouteCost
}.

(** The [for ... of] loop of [findOptimalRoute]. *)
Fixpoint costRoutes (this : LeastCostRouting) (env : Env)
    (availableRoutes : list string) (routeCosts : Map RouteCost)
    : Sim (Map RouteCost) :=
  match availableRoutes with
  | [] => ret routeCosts
  | routeId :: rest =>
      routeCostInfo <- getRouteCosts env routeId ;;
      delay <- measureDelay env routeId ;;
      let totalCost := calculateTotalCost this routeCostInfo delay in
      costRoutes this env rest
        (set routeId (mkRouteCost totalCost delay routeCostInfo) routeCosts)
  end.

(** [(a, b) => a[1].totalCost - b[1].totalCost] *)
Definition byCostAsc (a b : string * RouteCost) : Q :=
  totalCost (snd a) - totalCost (snd b).

Definition sortedRoutes (routeCosts : Map RouteCost)
    : list (string * RouteCost) :=
  sort byCostAsc routeCosts.

Definition selectFirst (sorted : list (string * RouteCost))
    : result OptimalRoute :=
  match sorted with
  | [] => Throws (TypeError "Cannot read properties of undefined (reading '0')")
  | (routeId, c) :: _ => Returns (mkOptimal routeId c)
  end.

Definition findOptimalRoute (this : LeastCostRouting) (env : Env)
    (availableRoutes : list string) : Sim (result OptimalRoute) :=
  routeCosts <- costRoutes this env availableRoutes [] ;;
  ret (selectFirst (sortedRoutes routeCosts)).

(** A ranking with the lowest cost first, and the test for the entries
    of cost [c]. *)
Definition cheapestFirst : list (string * RouteCost) -> Prop :=
  StronglySorted (fun a b => totalCost (snd a) <= totalCost (snd b)).

Definition costing (c : Q) (e : string * RouteCost) : bool :=
  Qeq_bool (totalCost (snd e)) c.

(** The total cost as the specification words it: the weighted sum
    over the components, an omitted weight counting as 1. *)
Definition spec_weight (w : option Q) : Q :=
  match w with Some x => x | None => 1 end.

Fixpoint spec_weightedCost (costs : list Q) (weights : list (option Q)) : Q :=
  match costs with
  | [] => 0
  | c :: cs =>
      spec_weight (hd None weights) * c + spec_weightedCost cs (tl weights)
  end.

Definition spec_totalCost (costs : list Q) (weights : list (option Q))
    (delay : Q) : Q :=
  spec_weightedCost costs weights + 0.2 * delay.


(** An entry of [routeCosts] as the loop writes it: three costs drawn
    below 10, 5 and 3 with the fixed weights, a delay in [30, 45), and
    the total cost computed from them. *)
Definition costed (this : LeastCostRouting)
    (e : string * RouteCost) : Prop :=
  (exists network processing maintenance,
      info (snd e)
      = {| costs := Some [network; processing; maintenance];
           weights := Some [Some 0.5; Some 0.3; Some 0.2] |}
      /\ (0 <= network /\ network < 10)
      /\ (0 <= processing /\ processing < 5)
      /\ (0 <= maintenance /\ maintenance < 3))
  /\ (30 <= delay (snd e) /\ delay (snd e) < 45)
  /\ totalCost (snd e) = calculateTotalCost this (info (snd e)) (delay (snd e)).

End LCR.

(** ** Numbers that may be infinite or NaN *)

Module Num.

Inductive jsnum : Type :=
| Fin (q : Q)
| PInf
| NInf
| NaN.

Definition neg (a : jsnum) : jsnum :=
  match a with
  | Fin q => Fin (- q)
  | PInf => NInf
  | NInf => PInf
  | NaN => NaN
  end.

Definition add (a b : jsnum) : jsnum :=
  match a, b with
  | NaN, _ | _, NaN => NaN
  | Fin x, Fin y => Fin (x + y)
  | PInf, NInf | NInf, PInf => NaN
  | PInf, _ | _, PInf => PInf
  | NInf, _ | _, NInf => NInf
  end.

Definition sub (a b : jsnum) : jsnum := add a (neg b).

(** An infinity scaled by a finite factor. *)
Definition scaleInf (positive : bool) (q : Q) : jsnum :=
  match q ?= 0 with
  | Eq => NaN
  | Gt => if positive then PInf else NInf
  | Lt => if positive then NInf else PInf
  end.

Definition mul (a b : jsnum) : jsnum :=
  match a, b with
  | NaN, _ | _, NaN => NaN
  | Fin x, Fin y => Fin (x * y)
  | Fin x, PInf | PInf, Fin x => scaleInf true x
  | Fin x, NInf | NInf, Fin x => scaleInf false x
  | PInf, PInf | NInf, NInf => PInf
  | PInf, NInf | NInf, PInf => NInf
  end.

Definition div (a b : jsnum) : jsnum :=
  match a, b with
  | NaN, _ | _, NaN => NaN
  | Fin x, Fin y =>
      if Qeq_bool y 0 then
        match x ?= 0 with
        | Eq => NaN
        | Gt => PInf
        | Lt => NInf
        end
      else Fin (x / y)
  | Fin _, (PInf | NInf) => Fin 0
  | PInf, Fin y => match y ?= 0 with Lt => NInf | _ => PInf end
  | NInf, Fin y => match y ?= 0 with Lt => PInf | _ => NInf end
  | (PInf | NInf), (PInf | NInf) => NaN
  end.

Definition abs (a : jsnum) : jsnum :=
  match a with
  | Fin q => Fin (Qabs q)
  | PInf | NInf => PInf
  | NaN => NaN
  end.

(** [Math.min] *)
Definition min (a b : jsnum) : jsnum :=
  match a, b with
  | NaN, _ | _, NaN => NaN
  | Fin x, Fin y => Fin (Qmin x y)
  | NInf, _ | _, NInf => NInf
  | PInf, y => y
  | x, PInf => x
  end.

(** [a < b] *)
Definition ltb (a b : jsnum) : bool :=
  match a, b with
  | NaN, _ | _, NaN => false
  | Fin x, Fin y => negb (Qle_bool y x)
  | NInf, (Fin _ | PInf) => true
  | Fin _, PInf => true
  | _, _ => false
  end.

(** [a > b] *)
Definition gtb (a b : jsnum) : bool := ltb b a.

(** Truthiness of a number: [0] and [NaN] are falsy. *)
Definition truthy (a : jsnum) : bool :=
  match a with
  | Fin q => negb (Qeq_bool q 0)
  | PInf | NInf => true
  | NaN => false
  end.

(** *** Reads of an object literal of numbers

    [o[k]] on an object literal sees the own properties of [o] and,
    under any other name, what every object inherits from
    [Object.prototype]: its methods, and the prototype itself under
    [__proto__].  Such a member is truthy, and [NaN] as a number. *)

Definition inheritedNames : list string :=
  ["constructor"; "__defineGetter__"; "__defineSetter__"; "hasOwnProperty";
   "__lookupGetter__"; "__lookupSetter__"; "isPrototypeOf";
   "propertyIsEnumerable"; "toString"; "valueOf"; "__proto__";
   "toLocaleString"].

Definition inherited (k : string) : bool :=
  existsb (String.eqb k) inheritedNames.

Inductive value : Type :=
| Number (a : jsnum)
| Member.                 (* a member of [Object.prototype] *)

(** [o[k]]; [None] is [undefined]. *)
Definition read (k : string) (o : Map jsnum) : option value :=
  match get k o with
  | Some a => Some (Number a)
  | None => if inherited k then Some Member else None
  end.

(** [x || d] where [x] was read from an object literal. *)
Definition or_default (x : option value) (d : jsnum) : value :=
  match x with
  | Some (Number a) => if truthy a then Number a else Number d
  | Some Member => Member
  | None => Number d
  end.

(** A value where a number is expected ([ToNumber]). *)
Definition toNumber (v : value) : jsnum :=
  match v with
  | Number a => a
  | Member => NaN
  end.

(** Equality of numbers up to the representation of rationals. *)
Definition eq (a b : jsnum) : Prop :=
  match a, b with
  | Fin x, Fin y => x == y
  | PInf, PInf | NInf, NInf | NaN, NaN => True
  | _, _ => False
  end.

Definition finite (a : jsnum) : Prop :=
  match a with Fin _ => True | _ => False end.

End Num.

(** ** Anomaly detection system (ADS)

    Class [AnomalyDetectionSystem] of
    src/src/monitoring/anomaly_detection.js. *)

Module ADS.
Import Num.

Record Baseline := mkBaseline {
  mean : jsnum;
  stdDev : jsnum;
  lastUpdated : Z
}.

(** Baselines are stored by [updateBaseline] (below, with the square
    root of its standard deviation as a parameter); [detectAnomaly]
    takes a stored baseline as it is found. *)
Record AnomalyDetectionSystem := mkADS {
  baselineMetrics : Map Baseline;
  anomalyThresholds : Map jsnum
}.

Definition constructor : AnomalyDetectionSystem :=
  {| baselineMetrics := [];
     anomalyThresholds :=
       [("callVolume", Fin 0.3); ("duration", Fin 0.25);
        ("failureRate", Fin 0.2); ("latency", Fin 0.15)] |}.

Record DeviationReport := mkReport {
  isAnomaly : bool;
  deviation : jsnum;
  threshold : value;
  baselineMean : jsnum;
  currentValue : jsnum;
  timestamp : Z
}.

(** What [detectAnomaly] returns: the two object shapes of the source. *)
Inductive Detection : Type :=
| NoBaseline (reason : string)        (* { isAnomaly: false, reason } *)
| Deviation (r : DeviationReport).

Definition detectAnomaly (this : AnomalyDetectionSystem) (env : Env)
    (metricName : string) (value : jsnum) : Detection :=
  match get metricName (baselineMetrics this) with
  | None => NoBaseline "No baseline established"
  | Some baseline =>
      let threshold :=
        or_default (read metricName (anomalyThresholds this)) (Fin 0.2) in
      let deviation := div (abs (sub value (mean baseline))) (mean baseline) in
      Deviation
        {| isAnomaly := gtb deviation (toNumber threshold);
           deviation := deviation;
           threshold := threshold;
           baselineMean := mean baseline;
           currentValue := value;
           timestamp := Date_now env |}
  end.

(** [{ type, ...report }] *)
Record Anomaly := mkAnomaly {
  type : string;
  report : DeviationReport
}.

Record CallMetrics := mkCallMetrics {
  callVolume : option jsnum;
  avgDuration : option jsnum;
  failureRate : option jsnum
}.

(** One of the three blocks of [processCallMetrics]: the field is
    examined only when it is truthy. *)
Definition checkMetric (this : AnomalyDetectionSystem) (env : Env)
    (type metricName : string) (field : option jsnum)
    (anomalies : list Anomaly) : list Anomaly :=
  match field with
  | None => anomalies
  | Some value =>
      if truthy value then
        match detectAnomaly this env metricName value with
        | Deviation r =>
            if isAnomaly r then anomalies ++ [mkAnomaly type r] else anomalies
        | NoBaseline _ => anomalies
        end
      else anomalies
  end.

Definition processCallMetrics (this : AnomalyDetectionSystem) (env : Env)
    (metrics : CallMetrics) : list Anomaly :=
  let anomalies := [] in
  let anomalies :=
    checkMetric this env "callVolume" "callVolume" (callVolume metrics) anomalies in
  let anomalies :=
    checkMetric this env "duration" "duration" (avgDuration metrics) anomalies in
  let anomalies :=
    checkMetric this env "failureRate" "failureRate" (failureRate metrics) anomalies in
  anomalies.

(** The metrics with one field absent. *)
Definition without_callVolume (m : CallMetrics) : CallMetrics :=
  mkCallMetrics None (avgDuration m) (failureRate m).
Definition without_avgDuration (m : CallMetrics) : CallMetrics :=
  mkCallMetrics (callVolume m) None (failureRate m).
Definition without_failureRate (m : CallMetrics) : CallMetrics :=
  mkCallMetrics (callVolume m) (avgDuration m) None.

(** No anomaly of type [t] in a list. *)
Definition no_entry (t : string) (anomalies : list Anomaly) : Prop :=
  Forall (fun a => type a <> t) anomalies.

Inductive RiskLevel : Type := low | medium | high.

Record RiskAssessment := mkRisk {
  score : jsnum;
  level : RiskLevel;
  anomalyCount : option nat;
  riskTimestamp : option Z
}.

(** The [weights] literal of [calculateRiskScore]. *)
Definition weights : Map jsnum :=
  [("callVolume", Fin 0.3); ("duration", Fin 0.2); ("failureRate", Fin 0.5)].

Definition calculateRiskScore (env : Env) (anomalies : list Anomaly)
    : RiskAssessment :=
  match anomalies with
  | [] => {| score := Fin 0; level := low;
             anomalyCount := None; riskTimestamp := None |}
  | _ =>
      let totalScore :=
        fold_left
          (fun totalScore anomaly =>
             let weight := or_default (read (type anomaly) weights) (Fin 0.2) in
             add totalScore
                 (mul (deviation (report anomaly)) (toNumber weight)))
          anomalies (Fin 0) in
      let normalizedScore := min (Fin 1) totalScore in
      let level :=
        if ltb normalizedScore (Fin 0.3) then low
        else if ltb normalizedScore (Fin 0.7) then medium
        else high in
      {| score := normalizedScore; level := level;
         anomalyCount := Some (List.length anomalies);
         riskTimestamp := Some (Date_now env) |}
  end.

(** The risk score as the specification words it, over finite
    deviations: the weight table, the clamped sum, the level bands. *)
Definition spec_weight (type : string) : Q :=
  if String.eqb type "callVolume" then 0.3
  else if String.eqb type "duration" then 0.2
  else if String.eqb type "failureRate" then 0.5
  else 0.2.

Fixpoint spec_sum (l : list (string * Q)) : Q :=
  match l with
  | [] => 0
  | (t, d) :: l' => d * spec_weight t + spec_sum l'
  end.

(** The anomalies as the specification sees them: a type and a
    (finite) deviation each. *)
Definition finite_part (a : jsnum) : Q :=
  match a with Fin q => q | _ => 0 end.

Definition typed_deviations (anomalies : list Anomaly) : list (string * Q) :=
  map (fun a => (type a, finite_part (deviation (report a)))) anomalies.

Definition finite_deviation (a : Anomaly) : Prop :=
  finite (deviation (report a)).

(** An anomaly whose type is not the name of a member of
    [Object.prototype]. *)
Definition plain_type (a : Anomaly) : Prop :=
  inherited (type a) = false.

(** The threshold table as the specification words it. *)
Definition spec_threshold (metricName : string) : Q :=
  if String.eqb metricName "callVolume" then 0.3
  else if String.eqb metricName "duration" then 0.25
  else if String.eqb metricName "failureRate" then 0.2
  else if String.eqb metricName "latency" then 0.15
  else 0.2.

(** *** [updateBaseline]

    [Math.sqrt] has no rational model: it is the parameter [sqrt]. *)

(** The mean of the window. *)
Definition meanOf (values : list jsnum) : jsnum :=
  div (fold_left (fun a b => add a b) values (Fin 0))
      (Fin (inject_Z (Z.of_nat (List.length values)))).

(** [Math.pow(x, 2)] *)
Definition square (x : jsnum) : jsnum := mul x x.

Definition varianceOf (values : list jsnum) (mean : jsnum) : jsnum :=
  div (fold_left (fun a b => add a (square (sub b mean))) values (Fin 0))
      (Fin (inject_Z (Z.of_nat (List.length values)))).

Definition updateBaseline (sqrt : jsnum -> jsnum)
    (this : AnomalyDetectionSystem) (env : Env)
    (metricName : string) (values : list jsnum) : AnomalyDetectionSystem :=
  let mean := meanOf values in
  let variance := varianceOf values mean in
  let stdDev := sqrt variance in
  {| baselineMetrics :=
       set metricName
         {| mean := mean; stdDev := stdDev; lastUpdated := Date_now env |}
         (baselineMetrics this);
     anomalyThresholds := anomalyThresholds this |}.

(** The flag of a detection: [isAnomaly] of either shape. *)
Definition flagged (d : Detection) : bool :=
  match d with
  | NoBaseline _ => false
  | Deviation r => isAnomaly r
  end.

(** The sum of a list of rationals. *)
Definition total (qs : list Q) : Q := fold_right Qplus 0 qs.


(** The levels in increasing order of risk. *)
Definition rank (l : RiskLevel) : nat :=
  match l with low => 0 | medium => 1 | high => 2 end.

(** The mean of a window of rationals, as a rational. *)
Definition average (qs : list Q) : Q :=
  total qs / inject_Z (Z.of_nat (List.length qs)).

(** An anomaly as [processCallMetrics] pushes it: flagged, beyond its
    threshold, stamped with the time of the call. *)
Definition pushed (env : Env) (a : Anomaly) : Prop :=
  isAnomaly (report a) = true
  /\ gtb (deviation (report a)) (toNumber (threshold (report a))) = true
  /\ timestamp (report a) = Date_now env.

(** The field of the metrics an anomaly type is read from. *)
Definition fieldOf (metrics : CallMetrics) (type : string) : option jsnum :=
  if String.eqb type "callVolume" then callVolume metrics
  else if String.eqb type "duration" then avgDuration metrics
  else if String.eqb type "failureRate" then failureRate metrics
  else None.

End ADS.

(** ** The call routing framework (CRF)

    Class [CallRoutingFramework] of src/src/core/lcr.js; its
    collaborators are [STIRSHAKENAuth], [EncryptionUtility] and
    [AnalyticsSystem]. *)

Module CRF.
Import Num.

Record CallRequest := mkRequest {
  id : string;
  passport : option string
}.

(** What [stirShaken.processIncomingCall] resolves with. *)
Record VerificationResult := mkVerification {
  verified : bool;
  attestationLevel : option string;
  errorCode : option string
}.

(** The record handed to [analytics.logCall]. *)
Inductive CallData : Type :=
| StartedCall (callId route : string) (verificationStatus : option string)
    (riskScore : jsnum)
| CompletedCall (callId : string) (duration : Q) (route : string)
    (metrics : DCD.RouteMetrics).

(** The collaborators of the framework, as they behave during one
    operation: caller verification, channel encryption and the
    analytics store. *)
Record Collaborators := mkCollaborators {
  processIncomingCall : CallRequest -> VerificationResult;
  encryptWithSession : string -> string -> Z -> string;
  logCall : CallData -> result unit
}.

Record CallMonitoring := mkMonitoring {
  monitoredId : string;
  startTime : Z;
  route : string;
  metrics : DCD.RouteMetrics;
  anomalies : list ADS.Anomaly
}.

Record SystemMetrics := mkSystemMetrics {
  systemStartTime : Z;
  totalCalls : Z;
  successfulCalls : Z;
  failedCalls : Z
}.

Record CallRoutingFramework := mkCRF {
  dcd : DCD.DynamicCallDistribution;
  lcr : LCR.LeastCostRouting;
  anomalyDetection : ADS.AnomalyDetectionSystem;
  activeRoutes : Map unit;
  activeCalls : Map CallMonitoring;
  systemMetrics : SystemMetrics
}.

Definition constructor (now : Z) : CallRoutingFramework :=
  {| dcd := DCD.constructor;
     lcr := LCR.constructor;
     anomalyDetection := ADS.constructor;
     activeRoutes := [];
     activeCalls := [];
     systemMetrics :=
       {| systemStartTime := now; totalCalls := 0;
          successfulCalls := 0; failedCalls := 0 |} |}.

Definition with_activeCalls (this : CallRoutingFramework)
    (calls : Map CallMonitoring) : CallRoutingFramework :=
  {| dcd := dcd this; lcr := lcr this;
     anomalyDetection := anomalyDetection this;
     activeRoutes := activeRoutes this;
     activeCalls := calls;
     systemMetrics := systemMetrics this |}.

(** [this.systemMetrics.failedCalls++] *)
Definition countFailure (this : CallRoutingFramework) : CallRoutingFramework :=
  {| dcd := dcd this; lcr := lcr this;
     anomalyDetection := anomalyDetection this;
     activeRoutes := activeRoutes this;
     activeCalls := activeCalls this;
     systemMetrics :=
       {| systemStartTime := systemStartTime (systemMetrics this);
          totalCalls := totalCalls (systemMetrics this);
          successfulCalls := successfulCalls (systemMetrics this);
          failedCalls := (failedCalls (systemMetrics this) + 1)%Z |} |}.

(** A baseline stored through [anomalyDetection.updateBaseline]. *)
Definition storeBaseline (this : CallRoutingFramework)
    (metricName : string) (b : ADS.Baseline) : CallRoutingFramework :=
  {| dcd := dcd this; lcr := lcr this;
     anomalyDetection :=
       {| ADS.baselineMetrics :=
            set metricName b (ADS.baselineMetrics (anomalyDetection this));
          ADS.anomalyThresholds :=
            ADS.anomalyThresholds (anomalyDetection this) |};
     activeRoutes := activeRoutes this;
     activeCalls := activeCalls this;
     systemMetrics := systemMetrics this |}.

Record NetworkState := mkNetworkState {
  networkRoutes : list string;
  networkLoad : Q;
  networkTimestamp : Z
}.

Definition getNetworkState (this : CallRoutingFramework) (env : Env)
    : Sim NetworkState :=
  networkLoad <- random env ;;
  ret (mkNetworkState (keys (activeRoutes this)) networkLoad (Date_now env)).

Definition calculateAverageDuration (this : CallRoutingFramework) (env : Env)
    : Q :=
  match size (activeCalls this) with
  | O => 0
  | _ =>
      let totalDuration :=
        fold_left
          (fun sum call =>
             let duration := inject_Z (Date_now env - startTime call) / 1000 in
             sum + duration)
          (values (activeCalls this)) 0 in
      totalDuration / inject_Z (Z.of_nat (size (activeCalls this)))
  end.

Definition calculateFailureRate (this : CallRoutingFramework) : Q :=
  if (totalCalls (systemMetrics this) =? 0)%Z then 0
  else inject_Z (failedCalls (systemMetrics this))
       / inject_Z (totalCalls (systemMetrics this)) * 100.

Record CallResult := mkCallResult {
  success : bool;
  callId : string;
  resultRoute : string;
  encryptedChannel : string;
  verificationStatus : option string
}.

Definition nullable (s : option string) : string :=
  match s with Some x => x | None => "null" end.

(** The [try] block of [processCall]: the outcome and the state it
    leaves behind. *)
Definition processCall_try (this : CallRoutingFramework)
    (co : Collaborators) (env : Env) (callRequest : CallRequest)
    : result CallResult * CallRoutingFramework :=
  (* Step 1: verify call authenticity *)
  let verificationResult := processIncomingCall co callRequest in
  if negb (verified verificationResult) then
    (Throws (Error ("Call verification failed: "
                    ++ nullable (errorCode verificationResult))), this)
  else
  (* Step 2: determine optimal route *)
  let (networkState, n) := getNetworkState this env 0%nat in
  let (optimal, n) := DCD.getOptimalRoute (dcd this) env n in
  match optimal with
  | Throws e => (Throws e, this)
  | Returns optimalRoute =>
  (* Step 3: calculate route costs *)
  let (costed, n) :=
    LCR.findOptimalRoute (lcr this) env [DCD.selectedRoute optimalRoute] n in
  match costed with
  | Throws e => (Throws e, this)
  | Returns routeCosts =>
  (* Step 4: set up secure channel *)
  let encryptedChannel :=
    encryptWithSession co (id callRequest)
      (DCD.selectedRoute optimalRoute) (Date_now env) in
  (* Step 5: check for anomalies *)
  let callMetrics :=
    {| ADS.callVolume := Some (Fin (inject_Z (totalCalls (systemMetrics this))));
       ADS.avgDuration := Some (Fin (calculateAverageDuration this env));
       ADS.failureRate := Some (Fin (calculateFailureRate this)) |} in
  let anomalies :=
    ADS.processCallMetrics (anomalyDetection this) env callMetrics in
  let highRisk :=
    match anomalies with
    | [] => false
    | _ =>
        match ADS.level (ADS.calculateRiskScore env anomalies) with
        | ADS.high => true
        | _ => false
        end
    end in
  if highRisk then (Throws (Error "High-risk call detected"), this)
  else
  (* Step 6: set up call monitoring *)
  let callMonitoring :=
    {| monitoredId := id callRequest;
       startTime := Date_now env;
       route := DCD.selectedRoute optimalRoute;
       metrics := DCD.selectedMetrics optimalRoute;
       anomalies := anomalies |} in
  let this := with_activeCalls this
                (set (id callRequest) callMonitoring (activeCalls this)) in
  (* Step 7: log analytics; [riskScore] is out of scope here, so
     reading it when there are anomalies throws *)
  match anomalies with
  | _ :: _ => (Throws (ReferenceError "riskScore is not defined"), this)
  | [] =>
      match logCall co (StartedCall (id callRequest)
                          (DCD.selectedRoute optimalRoute)
                          (attestationLevel verificationResult) (Fin 0)) with
      | Throws e => (Throws e, this)
      | Returns _ =>
          (Returns {| success := true;
                      callId := id callRequest;
                      resultRoute := DCD.selectedRoute optimalRoute;
                      encryptedChannel := encryptedChannel;
                      verificationStatus :=
                        attestationLevel verificationResult |}, this)
      end
  end
  end
  end.

(** [processCall]: the [catch] clause counts the failure and rethrows. *)
Definition processCall (this : CallRoutingFramework)
    (co : Collaborators) (env : Env) (callRequest : CallRequest)
    : result CallResult * CallRoutingFramework :=
  match processCall_try this co env callRequest with
  | (Throws error, this') => (Throws error, countFailure this')
  | (Returns r, this') => (Returns r, this')
  end.

Record CallSummary := mkSummary {
  summaryCallId : string;
  duration : Q;
  summaryRoute : string;
  summaryMetrics : DCD.RouteMetrics
}.

Definition endCall (this : CallRoutingFramework)
    (co : Collaborators) (env : Env) (callId : string)
    : result CallSummary * CallRoutingFramework :=
  match get callId (activeCalls this) with
  | None => (Throws (Error "Call not found"), this)
  | Some call =>
      let duration := inject_Z (Date_now env - startTime call) / 1000 in
      let this := with_activeCalls this (delete callId (activeCalls this)) in
      match logCall co (CompletedCall callId duration (route call)
                          (metrics call)) with
      | Throws e => (Throws e, this)
      | Returns _ =>
          (Returns (mkSummary callId duration (route call) (metrics call)),
           this)
      end
  end.

(** The states of the framework: the constructed one, and those
    obtained by storing a baseline, processing a call or ending one. *)
Inductive reachable : CallRoutingFramework -> Prop :=
| reach_constructor now :
    reachable (constructor now)
| reach_storeBaseline this metricName b :
    reachable this -> reachable (storeBaseline this metricName b)
| reach_processCall this co env callRequest :
    reachable this -> reachable (snd (processCall this co env callRequest))
| reach_endCall this co env callId :
    reachable this -> reachable (snd (endCall this co env callId)).

(** Collaborators that verify every caller with attestation A and
    whose analytics store accepts every record. *)
Definition accepting : Collaborators :=
  {| processIncomingCall := fun _ => mkVerification true (Some "A") None;
     encryptWithSession := fun callId route _ => callId ++ "@" ++ route;
     logCall := fun _ => Returns tt |}.

(** The same collaborators with an analytics store that rejects
    every record with [e]. *)
Definition with_failing_log (co : Collaborators) (e : exn) : Collaborators :=
  {| processIncomingCall := processIncomingCall co;
     encryptWithSession := encryptWithSession co;
     logCall := fun _ => Throws e |}.

(** The same collaborators with an analytics store that accepts
    every record. *)
Definition with_working_log (co : Collaborators) : Collaborators :=
  {| processIncomingCall := processIncomingCall co;
     encryptWithSession := encryptWithSession co;
     logCall := fun _ => Returns tt |}.


(** The metrics [processCall] hands to the anomaly detection (its
    step 5), and the anomalies found in them. *)
Definition callMetrics (this : CallRoutingFramework) (env : Env)
    : ADS.CallMetrics :=
  {| ADS.callVolume := Some (Fin (inject_Z (totalCalls (systemMetrics this))));
     ADS.avgDuration := Some (Fin (calculateAverageDuration this env));
     ADS.failureRate := Some (Fin (calculateFailureRate this)) |}.

Definition callAnomalies (this : CallRoutingFramework) (env : Env)
    : list ADS.Anomaly :=
  ADS.processCallMetrics (anomalyDetection this) env (callMetrics this env).


(** The framework with the failure counter set aside. *)
Definition sameButFailures (this this' : CallRoutingFramework) : Prop :=
  dcd this' = dcd this /\ lcr this' = lcr this
  /\ anomalyDetection this' = anomalyDetection this
  /\ activeRoutes this' = activeRoutes this
  /\ systemStartTime (systemMetrics this') = systemStartTime (systemMetrics this)
  /\ totalCalls (systemMetrics this') = totalCalls (systemMetrics this)
  /\ successfulCalls (systemMetrics this')
     = successfulCalls (systemMetrics this).

(** A framework whose components are those of its constructor, with
    the baselines left free. *)
Definition asConstructed (this : CallRoutingFramework) : Prop :=
  dcd this = DCD.constructor /\ lcr this = LCR.constructor
  /\ ADS.anomalyThresholds (anomalyDetection this)
     = ADS.anomalyThresholds ADS.constructor
  /\ activeRoutes this = []
  /\ totalCalls (systemMetrics this) = 0%Z
  /\ successfulCalls (systemMetrics this) = 0%Z
  /\ (0 <= failedCalls (systemMetrics this))%Z.


(** The monitoring record [processCall] stores (its step 6) for a call
    routed to [optimalRoute]. *)
Definition monitoringOf (this : CallRoutingFramework) (env : Env)
    (callRequest : CallRequest) (optimalRoute : DCD.OptimalRoute)
    : CallMonitoring :=
  {| monitoredId := id callRequest;
     startTime := Date_now env;
     route := DCD.selectedRoute optimalRoute;
     metrics := DCD.selectedMetrics optimalRoute;
     anomalies := callAnomalies this env |}.

(** The framework once that record is stored. *)
Definition monitoring (this : CallRoutingFramework) (env : Env)
    (callRequest : CallRequest) (optimalRoute : DCD.OptimalRoute)
    : CallRoutingFramework :=
  with_activeCalls this
    (set (id callRequest) (monitoringOf this env callRequest optimalRoute)
       (activeCalls this)).

(** The result of a call that succeeds on [optimalRoute]. *)
Definition resultOf (co : Collaborators) (env : Env)
    (callRequest : CallRequest) (optimalRoute : DCD.OptimalRoute)
    : CallResult :=
  {| success := true;
     callId := id callRequest;
     resultRoute := DCD.selectedRoute optimalRoute;
     encryptedChannel :=
       encryptWithSession co (id callRequest)
         (DCD.selectedRoute optimalRoute) (Date_now env);
     verificationStatus := attestationLevel (processIncomingCall co callRequest) |}.

(** The route [processCall] selects: the draw of [getNetworkState]
    comes first. *)
Definition routeOf (this : CallRoutingFramework) (env : Env)
    : result DCD.OptimalRoute :=
  fst (DCD.getOptimalRoute (dcd this) env 1%nat).

End CRF.

(** ** The route store of least-cost routing

    [this.routes] of class [LeastCostRouting] (src/src/core/lcr.js),
    with [updateRouteCosts] and [getRouteStats].  The store is passed
    explicitly. *)

Module LCRRoutes.
Import Num.

(** The properties of a stored route that the methods read; in
    [newMetrics] each may be absent. *)
Record RouteData := mkRouteData {
  costs : option (list Q);
  totalCalls : option Q;
  successRate : option Q
}.

Record StoredRoute := mkStoredRoute {
  data : RouteData;
  lastUpdated : Z
}.

(** [{ ...old, ...new }] on one property. *)
Definition spread {A} (old new : option A) : option A :=
  match new with
  | Some x => Some x
  | None => old
  end.

Definition updateRouteCosts (routes : Map StoredRoute) (env : Env)
    (routeId : string) (newMetrics : RouteData) : Map StoredRoute :=
  let old :=
    match get routeId routes with
    | Some r => data r
    | None => mkRouteData None None None
    end in
  set routeId
    {| data :=
         {| costs := spread (costs old) (costs newMetrics);
            totalCalls := spread (totalCalls old) (totalCalls newMetrics);
            successRate := spread (successRate old) (successRate newMetrics) |};
       lastUpdated := Date_now env |}
    routes.

Record RouteStats := mkRouteStats {
  averageCost : jsnum;
  statsLastUpdated : Z;
  statsTotalCalls : Q;
  statsSuccessRate : Q
}.

(** [getRouteStats]: [None] is [null]; reading [route.costs.reduce] on a
    route stored without costs throws. *)
Definition getRouteStats (routes : Map StoredRoute) (routeId : string)
    : result (option RouteStats) :=
  match get routeId routes with
  | None => Returns None
  | Some route =>
      match costs (data route) with
      | None =>
          Throws (TypeError
                    "Cannot read properties of undefined (reading 'reduce')")
      | Some cs =>
          Returns
            (Some
               {| averageCost :=
                    div (Fin (fold_left (fun a b => a + b) cs 0))
                        (Fin (inject_Z (Z.of_nat (List.length cs))));
                  statsLastUpdated := lastUpdated route;
                  statsTotalCalls := LCR.or_default (totalCalls (data route)) 0;
                  statsSuccessRate :=
                    LCR.or_default (successRate (data route)) 1 |})
      end
  end.

(** A sequence of updates applied to a store, in order, each in its
    own environment. *)
Definition updates (routes : Map StoredRoute)
    (l : list (Env * string * RouteData)) : Map StoredRoute :=
  fold_left
    (fun rs u => updateRouteCosts rs (fst (fst u)) (snd (fst u)) (snd u))
    l routes.

(** The route ids a sequence of updates names. *)
Definition updated (l : list (Env * string * RouteData)) : list string :=
  map (fun u => snd (fst u)) l.

(** The updates of [l] to route [routeId] supply no costs. *)
Definition no_costs_for (routeId : string)
    (l : list (Env * string * RouteData)) : Prop :=
  Forall (fun u => snd (fst u) = routeId -> costs (snd u) = None) l.

(** [costs.reduce((a, b) => a + b, 0) / costs.length] *)
Definition average (cs : list Q) : jsnum :=
  div (Fin (fold_left (fun a b => a + b) cs 0))
      (Fin (inject_Z (Z.of_nat (List.length cs)))).

End LCRRoutes.

(** ** Caller verification (STIR/SHAKEN)

    [verifyPASSporT] and [processIncomingCall] of class
    [STIRSHAKENAuth] (src/src/core/lcr.js).  [jwt.decode] belongs to a
    library: it is the parameter [decode], which gives the claims of a
    token that decodes. *)

Module STIR.

Record Payload := mkPayload {
  attest : option string;
  iat : option Q               (* seconds; absent when the token has none *)
}.

(** [Math.floor(Date.now() / 1000)] *)
Definition nowSeconds (env : Env) : Z := (Date_now env / 1000)%Z.

(** [now - iat > 300]; with no [iat] the difference is [NaN] and the
    comparison is false. *)
Definition expired (env : Env) (payload : Payload) : bool :=
  match iat payload with
  | Some t => negb (Qle_bool (inject_Z (nowSeconds env) - t) 300)
  | None => false
  end.

Definition verifyPASSporT (decode : string -> option Payload) (env : Env)
    (passport : string) : bool :=
  match decode passport with
  | None => false
  | Some payload => if expired env payload then false else true
  end.

Definition processIncomingCall (decode : string -> option Payload) (env : Env)
    (callRequest : CRF.CallRequest) : CRF.VerificationResult :=
  match CRF.passport callRequest with
  | None => CRF.mkVerification false None (Some "NO_PASSPORT")
  | Some passport =>
      if String.eqb passport "" then
        CRF.mkVerification false None (Some "NO_PASSPORT")
      else if negb (verifyPASSporT decode env passport) then
        CRF.mkVerification false None (Some "INVALID_PASSPORT")
      else
        match decode passport with
        | Some decoded => CRF.mkVerification true (attest decoded) None
        | None =>
            (* [verified] is set before [decoded.attest] throws *)
            CRF.mkVerification true None (Some "VERIFICATION_ERROR")
        end
  end.

(** Collaborators whose caller verification is [processIncomingCall]. *)
Definition verifying (decode : string -> option Payload) (env : Env)
    (co : CRF.Collaborators) : CRF.Collaborators :=
  {| CRF.processIncomingCall := processIncomingCall decode env;
     CRF.encryptWithSession := CRF.encryptWithSession co;
     CRF.logCall := CRF.logCall co |}.

(** A passport that is present and not the empty string. *)
Definition presented (callRequest : CRF.CallRequest) (passport : string) : Prop :=
  CRF.passport callRequest = Some passport /\ passport <> "".

(** A token issued no more than 300 seconds before now. *)
Definition fresh (env : Env) (payload : Payload) : Prop :=
  forall t, iat payload = Some t -> inject_Z (nowSeconds env) - t <= 300.

End STIR.

(** ** Multi-factor authentication (MFA)

    Class [MultiFactorAuth] of src/src/core/lcr.js.  The random secret
    and the HMAC-SHA1 digest come from [crypto]: the secret is an
    argument of [generateTOTPSecret], and the digest of a secret at a
    time step is the parameter [hmac] (a list of bytes). *)

Module MFA.

Record SecretData := mkSecretData {
  secret : string;
  createdAt : Z
}.

Record MultiFactorAuth := mkMFA {
  otpSecrets : Map SecretData;
  verificationAttempts : Map Z;
  MAX_ATTEMPTS : Z;
  OTP_VALIDITY : Z
}.

Definition constructor : MultiFactorAuth :=
  {| otpSecrets := []; verificationAttempts := [];
     MAX_ATTEMPTS := 3; OTP_VALIDITY := 300000 |}.

Definition with_attempts (this : MultiFactorAuth) (attempts : Map Z)
    : MultiFactorAuth :=
  {| otpSecrets := otpSecrets this; verificationAttempts := attempts;
     MAX_ATTEMPTS := MAX_ATTEMPTS this; OTP_VALIDITY := OTP_VALIDITY this |}.

Definition generateTOTPSecret (this : MultiFactorAuth) (env : Env)
    (randomHex : string) (userId : string) : string * MultiFactorAuth :=
  let secret := randomHex in
  (secret,
   {| otpSecrets :=
        set userId {| secret := secret; createdAt := Date_now env |}
          (otpSecrets this);
      verificationAttempts := verificationAttempts this;
      MAX_ATTEMPTS := MAX_ATTEMPTS this;
      OTP_VALIDITY := OTP_VALIDITY this |}).

(** *** 32-bit integer operators *)

Definition toInt32 (z : Z) : Z :=
  ((z + 2 ^ 31) mod 2 ^ 32 - 2 ^ 31)%Z.

Definition and32 (a b : Z) : Z := Z.land (toInt32 a) (toInt32 b).
Definition or32 (a b : Z) : Z := Z.lor (toInt32 a) (toInt32 b).
Definition shl32 (a b : Z) : Z :=
  toInt32 (Z.shiftl (toInt32 a) (b mod 32)).

(** [hash[i]]: a byte, or [undefined] (0 under the operators) outside
    the digest. *)
Definition byteAt (hash : list Z) (i : Z) : Z :=
  if (i <? 0)%Z then 0%Z else nth (Z.to_nat i) hash 0%Z.

(** [n.toString()] of an integer: decimal digits, with a sign when
    negative. *)
Definition toString (n : Z) : string := NilZero.string_of_int (Z.to_int n).

(** [s.padStart(n, '0')] *)
Definition padStart (n : nat) (s : string) : string :=
  (String.concat "" (repeat "0" (n - String.length s)) ++ s)%string.

Definition offsetOf (hash : list Z) : Z :=
  and32 (byteAt hash (Z.of_nat (List.length hash) - 1)) 15.

Definition binaryOf (hash : list Z) : Z :=
  let offset := offsetOf hash in
  or32 (or32 (or32 (shl32 (and32 (byteAt hash offset) 127) 24)
                   (shl32 (and32 (byteAt hash (offset + 1)) 255) 16))
             (shl32 (and32 (byteAt hash (offset + 2)) 255) 8))
       (and32 (byteAt hash (offset + 3)) 255).

Definition generateTOTP (hmac : string -> Z -> list Z) (env : Env)
    (secret : string) : string :=
  let time := (Date_now env / 30000)%Z in
  let hash := hmac secret time in
  let binary := binaryOf hash in
  padStart 6 (toString (Z.rem binary 1000000)).

(** The dynamic truncation of RFC 4226 on a digest: 31 bits read
    big-endian at the offset given by the low four bits of the last
    byte. *)
Definition truncated (hash : list Z) : Z :=
  let byte i := nth (Z.to_nat i) hash 0%Z in
  let offset := (byte (Z.of_nat (List.length hash) - 1) mod 16)%Z in
  ((byte offset mod 128) * 2 ^ 24 + byte (offset + 1) * 2 ^ 16
   + byte (offset + 2) * 2 ^ 8 + byte (offset + 3))%Z.

Definition isDigit (c : ascii) : bool :=
  ((48 <=? nat_of_ascii c) && (nat_of_ascii c <=? 57))%nat.

Fixpoint digits (s : string) : bool :=
  match s with
  | EmptyString => true
  | String c s' => isDigit c && digits s'
  end.

Definition bytes (hash : list Z) : Prop :=
  Forall (fun b => 0 <= b < 256)%Z hash.

(** [this.verificationAttempts.get(userId) || 0] *)
Definition attemptsOf (this : MultiFactorAuth) (userId : string) : Z :=
  match get userId (verificationAttempts this) with
  | Some n => n
  | None => 0%Z
  end.

Definition verifyTOTP (hmac : string -> Z -> list Z)
    (this : MultiFactorAuth) (env : Env) (userId code : string)
    : bool * MultiFactorAuth :=
  match get userId (otpSecrets this) with
  | None => (false, this)
  | Some secretData =>
      let attempts := attemptsOf this userId in
      if (MAX_ATTEMPTS this <=? attempts)%Z then (false, this)
      else
        let expectedCode := generateTOTP hmac env (secret secretData) in
        let isValid := String.eqb code expectedCode in
        if negb isValid then
          (isValid,
           with_attempts this
             (set userId (attempts + 1)%Z (verificationAttempts this)))
        else
          (isValid,
           with_attempts this (delete userId (verificationAttempts this)))
  end.

(** *** Behaviour risk *)

Record UserBehavior := mkBehavior {
  location : option string;       (* the location object, when given *)
  recentAttempts : option Q
}.

Record RiskFactors := mkRiskFactors {
  unusualTime : bool;
  unusualLocation : bool;
  suspiciousPattern : bool;
  riskScore : Q
}.

(** [Math.random() > 0.2] *)
Definition isKnownLocation (env : Env) : Sim bool :=
  r <- random env ;;
  ret (negb (Qle_bool r 0.2)).

(** [hour] is [new Date().getHours()]. *)
Definition analyzeBehaviorRisk (env : Env) (hour : Z)
    (userBehavior : UserBehavior) : Sim RiskFactors :=
  let unusualTime := ((hour <? 6) || (22 <? hour))%Z%bool in
  let score := if unusualTime then 0 + 0.3 else 0 in
  unusualLocation <-
    match location userBehavior with
    | Some _ =>
        isKnown <- isKnownLocation env ;;
        ret (negb isKnown)
    | None => ret false
    end ;;
  let score := if unusualLocation then score + 0.4 else score in
  let suspiciousPattern :=
    match recentAttempts userBehavior with
    | Some n => negb (Qle_bool n 5)
    | None => false
    end in
  let score := if suspiciousPattern then score + 0.3 else score in
  ret {| unusualTime := unusualTime;
         unusualLocation := unusualLocation;
         suspiciousPattern := suspiciousPattern;
         riskScore := score |}.

Record AuthRequest := mkAuthRequest {
  userId : string;
  totpCode : string;
  behaviorData : option UserBehavior
}.

Record AuthResult := mkAuthResult {
  success : bool;
  error : option string;
  riskAssessment : option RiskFactors;
  requiresAdditionalVerification : bool
}.

Definition authenticate (hmac : string -> Z -> list Z)
    (this : MultiFactorAuth) (env : Env) (hour : Z)
    (authRequest : AuthRequest)
    : Sim (result AuthResult * MultiFactorAuth) :=
  (* Step 1: verify TOTP *)
  let (isValidTOTP, this) :=
    verifyTOTP hmac this env (userId authRequest) (totpCode authRequest) in
  if negb isValidTOTP then
    ret (Returns {| success := false; error := Some "INVALID_TOTP";
                    riskAssessment := None;
                    requiresAdditionalVerification := false |}, this)
  else
    (* Step 2: analyze behavior risk *)
    match behaviorData authRequest with
    | None =>
        ret (Throws (TypeError
                       "Cannot read properties of undefined (reading 'location')"),
             this)
    | Some userBehavior =>
        riskAssessment <- analyzeBehaviorRisk env hour userBehavior ;;
        (* Step 3: determine if additional verification is needed *)
        let requiresAdditionalVerification :=
          Qle_bool 0.7 (riskScore riskAssessment) in
        ret (Returns {| success := true; error := None;
                        riskAssessment := Some riskAssessment;
                        requiresAdditionalVerification :=
                          requiresAdditionalVerification |}, this)
    end.

(** A user whose failed attempts have reached the maximum. *)
Definition locked (this : MultiFactorAuth) (userId : string) : Prop :=
  (MAX_ATTEMPTS this <= attemptsOf this userId)%Z.

(** The operations that change the state, and a run of them. *)
Inductive operation : Type :=
| Generate (env : Env) (randomHex userId : string)
| Verify (env : Env) (userId code : string).

Definition step (hmac : string -> Z -> list Z) (this : MultiFactorAuth)
    (o : operation) : MultiFactorAuth :=
  match o with
  | Generate env randomHex userId =>
      snd (generateTOTPSecret this env randomHex userId)
  | Verify env userId code => snd (verifyTOTP hmac this env userId code)
  end.

Definition run (hmac : string -> Z -> list Z) (this : MultiFactorAuth)
    (ops : list operation) : MultiFactorAuth :=
  fold_left (step hmac) ops this.

End MFA.

(** ** Metrics utility (MU)

    Class [MetricsUtility] of src/src/core/lcr.js: the classification
    metrics of a confusion matrix and the user satisfaction score.
    The counts, scores and weights are finite numbers; the quotients
    are JS numbers, since the denominators can be zero. *)

Module MU.
Import Num.









End MU.

(** * Properties *)

(** ** The draw-counter monad *)

Lemma bind_run {A B} (c : Sim A) (k : A -> Sim B) (n : nat) :
  bind c k n = k (fst (c n)) (snd (c n)).
Proof.
  unfold bind. destruct (c n); reflexivity.
Qed.

(** ** Maps *)

Section MapFacts.
Context {V : Type}.
Implicit Types (m : Map V) (k : string) (v : V).

Lemma get_set_same k v m : get k (set k v m) = Some v.
Proof.
  induction m as [|[k' v'] m IH]; simpl.
  - now rewrite String.eqb_refl.
  - destruct (String.eqb k k') eqn:E; simpl; rewrite ?E, ?String.eqb_refl; auto.
Qed.

Lemma get_set_other k k' v m : k' <> k -> get k' (set k v m) = get k' m.
Proof.
  intros N. induction m as [|[k0 v0] m IH]; simpl.
  - apply String.eqb_neq in N. now rewrite N.
  - destruct (String.eqb k k0) eqn:E; simpl.
    + apply String.eqb_eq in E; subst k0.
      apply String.eqb_neq in N. now rewrite N.
    + now rewrite IH.
Qed.

Lemma get_None_not_In k m : get k m = None <-> ~ In k (keys m).
Proof.
  induction m as [|[k' v'] m IH]; simpl.
  - tauto.
  - destruct (String.eqb k k') eqn:E.
    + apply String.eqb_eq in E; subst. split; [discriminate | tauto].
    + apply String.eqb_neq in E. rewrite IH. split.
      * intros H [F | F]; [congruence | tauto].
      * tauto.
Qed.

(** A key already present keeps its place; a new key goes last. *)
Lemma keys_set k v m :
  keys (set k v m) = if in_dec string_dec k (keys m) then keys m
                     else (keys m ++ [k])%list.
Proof.
  induction m as [|[k' v'] m IH]; simpl.
  - reflexivity.
  - destruct (String.eqb k k') eqn:E.
    + apply String.eqb_eq in E; subst k'. simpl.
      destruct (string_dec k k) as [e | N]; [reflexivity | congruence].
    + apply String.eqb_neq in E. simpl. rewrite IH.
      destruct (string_dec k' k) as [F | N]; [congruence |].
      destruct (in_dec string_dec k (keys m)); reflexivity.
Qed.

Lemma NoDup_keys_set k v m : NoDup (keys m) -> NoDup (keys (set k v m)).
Proof.
  intros H. rewrite keys_set.
  destruct (in_dec string_dec k (keys m)) as [|N]; [assumption |].
  apply NoDup_app; [assumption | repeat constructor; auto | ].
  intros x Hx [<- | []]. contradiction.
Qed.

Lemma In_keys_delete k k' m : In k' (keys (delete k m)) -> In k' (keys m).
Proof.
  induction m as [|[k0 v0] m IH]; simpl; [tauto |].
  destruct (String.eqb k k0); simpl; tauto.
Qed.

Lemma NoDup_keys_delete k m : NoDup (keys m) -> NoDup (keys (delete k m)).
Proof.
  induction m as [|[k0 v0] m IH]; simpl; intros H; [constructor |].
  inversion H as [|? ? Hk Hm]; subst.
  destruct (String.eqb k k0); simpl; [assumption |].
  constructor; [| auto].
  intros F. apply Hk. eapply In_keys_delete; eassumption.
Qed.

Lemma get_delete_same k m : NoDup (keys m) -> get k (delete k m) = None.
Proof.
  induction m as [|[k0 v0] m IH]; simpl; intros H; [reflexivity |].
  inversion H as [|? ? Hk Hm]; subst.
  destruct (String.eqb k k0) eqn:E; simpl.
  - apply String.eqb_eq in E; subst k0. now apply get_None_not_In.
  - rewrite E. auto.
Qed.

Lemma get_delete_other k k' m : k' <> k -> get k' (delete k m) = get k' m.
Proof.
  intros N. induction m as [|[k0 v0] m IH]; simpl; [reflexivity |].
  destruct (String.eqb k k0) eqn:E; simpl.
  - apply String.eqb_eq in E; subst k0.
    apply String.eqb_neq in N. now rewrite N.
  - now rewrite IH.
Qed.

Lemma set_not_nil k v m : set k v m <> [].
Proof.
  destruct m as [|[k' v'] m]; simpl; [discriminate |].
  destruct (String.eqb k k'); discriminate.
Qed.
End MapFacts.

(** ** The stable sort, for a comparator that is a difference of keys *)

Section SortFacts.
Context {A : Type} (cmp : A -> A -> Q) (key : A -> Q).
Hypothesis cmp_key : forall x y, cmp x y == key x - key y.

Lemma insert_perm x l : Permutation (insert cmp x l) (x :: l).
Proof.
  induction l as [|y l IH]; simpl; [reflexivity |].
  destruct (Qle_bool (cmp x y) 0); [reflexivity |].
  rewrite IH. apply perm_swap.
Qed.

Lemma sort_perm l : Permutation (sort cmp l) l.
Proof.
  induction l as [|x l IH]; simpl; [reflexivity |].
  rewrite insert_perm. now constructor.
Qed.

Lemma insert_ascending x l :
  ascending key l -> ascending key (insert cmp x l).
Proof.
  unfold ascending.
  induction l as [|y l IH]; simpl; intros H.
  - repeat constructor.
  - inversion H as [|? ? Hl Hy]; subst.
    destruct (Qle_bool (cmp x y) 0) eqn:E.
    + apply Qle_bool_iff in E. rewrite cmp_key in E.
      constructor; [assumption |].
      constructor; [lra |].
      eapply Forall_impl; [| exact Hy]. simpl; intros; lra.
    + assert (L : key y <= key x).
      { destruct (Qlt_le_dec 0 (cmp x y)) as [G | G].
        - rewrite cmp_key in G. lra.
        - apply Qle_bool_iff in G. congruence. }
      constructor; [auto |].
      eapply Permutation_Forall; [symmetry; apply insert_perm |].
      constructor; assumption.
Qed.

Lemma sort_ascending l : ascending key (sort cmp l).
Proof.
  induction l as [|x l IH]; simpl.
  - constructor.
  - now apply insert_ascending.
Qed.

(** Stability: the elements of one key keep their relative order. *)
Lemma insert_stable q x l :
  filter (keyed key q) (insert cmp x l) = filter (keyed key q) (x :: l).
Proof.
  induction l as [|y l IH]; [reflexivity |].
  cbn [insert].
  destruct (Qle_bool (cmp x y) 0) eqn:E; [reflexivity |].
  assert (N : ~ key x == key y).
  { intros F. assert (G : cmp x y <= 0) by (rewrite cmp_key; lra).
    apply Qle_bool_iff in G. congruence. }
  cbn [filter] in *. rewrite IH. unfold keyed.
  destruct (Qeq_bool (key x) q) eqn:Ex, (Qeq_bool (key y) q) eqn:Ey;
    try reflexivity.
  apply Qeq_bool_iff in Ex, Ey. exfalso. apply N. now rewrite Ex, Ey.
Qed.

Lemma sort_stable q l :
  filter (keyed key q) (sort cmp l) = filter (keyed key q) l.
Proof.
  induction l as [|x l IH]; [reflexivity |].
  cbn [sort]. rewrite insert_stable. cbn [filter]. now rewrite IH.
Qed.

Lemma sort_nil_inv l : sort cmp l = [] -> l = [].
Proof.
  intros H. apply Permutation_nil. rewrite <- H. apply sort_perm.
Qed.
End SortFacts.

(** ** Route weights (DCD) *)

Lemma calculateRouteWeight_spec_score (m : DCD.RouteMetrics) :
  DCD.calculateRouteWeight DCD.constructor m == DCD.spec_score m.
Proof.
  unfold DCD.calculateRouteWeight, DCD.spec_score, DCD.spec_normLatency.
  simpl. reflexivity.
Qed.

Lemma per_200 (x : Q) : x / 200 == x * (1 # 200).
Proof. field. Qed.



(** C6, as stated, fails: a negative latency is out of range, and the
    weight is computed all the same, from the value as supplied:
    0.4 * 1.25 + 0.3 * 0.8 + 0.3 * 0.98 = 1.034. *)
Lemma out_of_range_metrics_are_scored :
  ~ DCD.in_range (DCD.mkMetrics (-50) 0.2 0.98)
  /\ DCD.calculateRouteWeight DCD.constructor (DCD.mkMetrics (-50) 0.2 0.98)
     == 1.034.
Proof.
  split.
  - unfold DCD.in_range; simpl. intros [H _]. revert H. apply Qlt_not_le.
    reflexivity.
  - vm_compute. reflexivity.
Qed.

(** C6 (amended): for every out-of-range metrics record the weight is
    the weighted sum evaluated at the values as they were supplied; no
    error is raised and no value is clamped into its range: a negative
    latency scores above latency 0, a load below 0 above load 0, a load
    above 1 below load 1, a reliability below 0 below reliability 0 and
    a reliability above 1 above reliability 1. *)
Theorem calculateRouteWeight_out_of_range :
  forall m : DCD.RouteMetrics,
    ~ DCD.in_range m ->
    let w := DCD.calculateRouteWeight DCD.constructor in
    w m == DCD.spec_score m
    /\ (DCD.latency m < 0 -> w (DCD.with_latency m 0) < w m)
    /\ (DCD.load m < 0 -> w (DCD.with_load m 0) < w m)
    /\ (1 < DCD.load m -> w m < w (DCD.with_load m 1))
    /\ (DCD.reliability m < 0 -> w m < w (DCD.with_reliability m 0))
    /\ (1 < DCD.reliability m -> w (DCD.with_reliability m 1) < w m).
Proof.
  intros m _ w. subst w.
  split; [apply calculateRouteWeight_spec_score |].
  unfold DCD.calculateRouteWeight, DCD.with_latency, DCD.with_load, DCD.with_reliability.
  destruct m as [la lo re]; simpl.
  repeat split; intros H; try lra.
  rewrite (Q.min_l la 200) by lra. rewrite (Q.min_l 0 200) by lra.
  rewrite !per_200. lra.
Qed.

Lemma calculateRouteWeight_out_of_range_witness :
  DCD.calculateRouteWeight DCD.constructor (DCD.mkMetrics (-50) 0.2 0.98)
  == DCD.spec_score (DCD.mkMetrics (-50) 0.2 0.98).
Proof.
  refine (proj1 (calculateRouteWeight_out_of_range
                   (DCD.mkMetrics (-50) 0.2 0.98) _)).
  unfold DCD.in_range; simpl. lra.
Defined.

(** ** Total cost (LCR) *)

Lemma index_0 (ws : list (option Q)) : LCR.index ws 0 = hd None ws.
Proof. destruct ws; reflexivity. Qed.

Lemma index_S (ws : list (option Q)) (i : nat) :
  LCR.index ws (S i) = LCR.index (tl ws) i.
Proof. destruct ws; [destruct i |]; reflexivity. Qed.

Lemma fold_left_seq_shift {B} (f : B -> nat -> B) (n k : nat) (acc : B) :
  fold_left f (seq (S k) n) acc = fold_left (fun a i => f a (S i)) (seq k n) acc.
Proof.
  revert k acc. induction n as [|n IH]; intros k acc; simpl; [reflexivity |].
  apply IH.
Qed.

Lemma fold_left_ext_eq {B C} (f g : B -> C -> B) (l : list C) (acc : B) :
  (forall a x, f a x = g a x) -> fold_left f l acc = fold_left g l acc.
Proof.
  intros E. revert acc. induction l as [|x l IH]; intros acc; simpl;
    [reflexivity |].
  now rewrite E, IH.
Qed.

(** The loop of [calculateTotalCost] when no supplied weight is zero. *)
Lemma weighted_loop_spec (cs : list Q) :
  forall (ws : list (option Q)) (acc : Q),
    Forall (fun w => forall x, w = Some x -> ~ x == 0) ws ->
    fold_left
      (fun weightedCost i =>
         weightedCost + LCR.or_default (LCR.index ws i) 1 * nth i cs 0)
      (seq 0 (List.length cs)) acc
    == acc + LCR.spec_weightedCost cs ws.
Proof.
  induction cs as [|c cs IH]; intros ws acc H; simpl.
  - ring.
  - rewrite fold_left_seq_shift.
    rewrite (fold_left_ext_eq _
               (fun a i => a + LCR.or_default (LCR.index (tl ws) i) 1
                               * nth i cs 0)).
    2:{ intros a i. now rewrite index_S. }
    rewrite IH.
    2:{ destruct ws; [constructor | now inversion H]. }
    rewrite index_0.
    assert (E : LCR.or_default (hd None ws) 1 == LCR.spec_weight (hd None ws)).
    { destruct ws as [|[x|] ws]; simpl; try reflexivity.
      destruct (Qeq_bool x 0) eqn:Z; [| reflexivity].
      apply Qeq_bool_iff in Z. inversion H as [|? ? Hx]; subst.
      exfalso. exact (Hx x eq_refl Z). }
    rewrite E. ring.
Qed.

(** When no supplied weight is zero the program computes the total cost
    of the specification. *)
Lemma calculateTotalCost_nonzero_weights (cs : list Q) (ws : list (option Q))
    (delay : Q) :
  Forall (fun w => forall x, w = Some x -> ~ x == 0) ws ->
  LCR.calculateTotalCost LCR.constructor (LCR.mkRoute (Some cs) (Some ws)) delay
  == LCR.spec_totalCost cs ws delay.
Proof.
  intros H. unfold LCR.calculateTotalCost, LCR.spec_totalCost. simpl.
  rewrite (weighted_loop_spec cs ws 0 H). ring.
Qed.

(** C5, the program at the failing input: a component of cost 4 with
    the explicit weight 0 and no delay costs 4, where the weighted sum
    of the specification is 0 * 4 = 0; a zero weight is read as an
    omitted one.  The scenario costs = [4, 2, 1], weights =
    [0.5, 0.3, 0.2], delay = 40 does give 10.8. *)
Theorem calculateTotalCost_zero_weight :
  LCR.calculateTotalCost LCR.constructor
    (LCR.mkRoute (Some [4]) (Some [Some 0])) 0 == 4
  /\ LCR.spec_totalCost [4] [Some 0] 0 == 0
  /\ LCR.calculateTotalCost LCR.constructor
       (LCR.mkRoute (Some [4]) None) 0 == 4
  /\ LCR.calculateTotalCost LCR.constructor
       (LCR.mkRoute (Some [4; 2; 1]) (Some [Some 0.5; Some 0.3; Some 0.2])) 40
     == 10.8.
Proof.
  repeat split; vm_compute; reflexivity.
Qed.

(** ** Selection among no candidates *)

Lemma costRoutes_not_nil this env (l : list string) :
  forall (m : Map LCR.RouteCost) (n : nat),
    m <> [] -> fst (LCR.costRoutes this env l m n) <> [].
Proof.
  induction l as [|r l IH]; intros m n H; simpl; [assumption |].
  unfold bind, LCR.getRouteCosts, LCR.measureDelay, bind, random, ret.
  apply IH. apply set_not_nil.
Qed.

Lemma weighRoutes_not_nil this env (l : list string) :
  forall (m : Map DCD.WeightedRoute) (n : nat),
    m <> [] -> fst (DCD.weighRoutes this env l m n) <> [].
Proof.
  induction l as [|r l IH]; intros m n H; simpl; [assumption |].
  unfold bind, DCD.measureLatency, DCD.getCurrentLoad,
    DCD.calculateReliability, bind, random, ret.
  apply IH. apply set_not_nil.
Qed.

Lemma byCostAsc_key (x y : string * LCR.RouteCost) :
  LCR.byCostAsc x y == LCR.totalCost (snd x) - LCR.totalCost (snd y).
Proof. reflexivity. Qed.

Lemma byWeightDesc_key (x y : string * DCD.WeightedRoute) :
  DCD.byWeightDesc x y == - DCD.weight (snd x) - - DCD.weight (snd y).
Proof. unfold DCD.byWeightDesc. ring. Qed.

(** Among at least one candidate the cheapest-route search returns. *)
Lemma findOptimalRoute_returns this env (r : string) (l : list string) (n : nat) :
  exists o, fst (LCR.findOptimalRoute this env (r :: l) n) = Returns o.
Proof.
  unfold LCR.findOptimalRoute. rewrite bind_run. unfold ret; cbn [fst].
  destruct (LCR.sortedRoutes (fst (LCR.costRoutes this env (r :: l) [] n)))
    as [|[k c] s] eqn:E.
  - exfalso. apply sort_nil_inv in E.
    revert E. simpl.
    unfold bind, LCR.getRouteCosts, LCR.measureDelay, bind, random, ret.
    apply costRoutes_not_nil. discriminate.
  - simpl. eexists; reflexivity.
Qed.

(** Among at least one candidate the route scorer returns. *)
Lemma selectAmong_returns this env (r : string) (l : list string) (n : nat) :
  exists o, fst (DCD.selectAmong this env (r :: l) n) = Returns o.
Proof.
  unfold DCD.selectAmong. rewrite bind_run. unfold ret; cbn [fst].
  destruct (DCD.sortedRoutes (fst (DCD.weighRoutes this env (r :: l) [] n)))
    as [|[k c] s] eqn:E.
  - exfalso. apply sort_nil_inv in E.
    revert E. simpl.
    unfold bind, DCD.measureLatency, DCD.getCurrentLoad,
      DCD.calculateReliability, bind, random, ret.
    apply weighRoutes_not_nil. discriminate.
  - simpl. eexists; reflexivity.
Qed.

(** The four fixed candidates always yield a route. *)
Lemma getOptimalRoute_returns this env (n : nat) :
  exists o, fst (DCD.getOptimalRoute this env n) = Returns o.
Proof.
  apply selectAmong_returns.
Qed.

(** C2, the program at the failing input: with no candidate the search
    for the cheapest route rejects with the [TypeError] of reading
    element 0 of [undefined]; that is not an error named
    [NoRoutesAvailable].  The selection of the route scorer does the
    same when it is given no candidate. *)
Theorem findOptimalRoute_no_candidates :
  forall (env : Env) (n : nat),
    fst (LCR.findOptimalRoute LCR.constructor env [] n)
    = Throws (TypeError "Cannot read properties of undefined (reading '0')")
    /\ ~ fails_with "NoRoutesAvailable"
         (fst (LCR.findOptimalRoute LCR.constructor env [] n))
    /\ fst (DCD.selectAmong DCD.constructor env [] n)
       = Throws (TypeError "Cannot read properties of undefined (reading '0')")
    /\ ~ fails_with "NoRoutesAvailable"
         (fst (DCD.selectAmong DCD.constructor env [] n)).
Proof.
  intros env n. repeat split; try reflexivity; simpl; discriminate.
Qed.

(** ** Risk score (ADS) *)

Import Num.

(** The names of the two tables are not inherited names, so that an
    inherited name is never an own key of the tables. *)
Ltac own_key E :=
  apply String.eqb_eq in E; subst; discriminate.

Lemma risk_weight (t : string) :
  inherited t = false ->
  exists w, or_default (read t ADS.weights) (Fin 0.2) = Number (Fin w)
            /\ w == ADS.spec_weight t.
Proof.
  intros I. unfold read, ADS.weights, ADS.spec_weight. simpl. rewrite I.
  destruct (String.eqb t "callVolume"); [eexists; split; reflexivity |].
  destruct (String.eqb t "duration"); [eexists; split; reflexivity |].
  destruct (String.eqb t "failureRate"); eexists; split; reflexivity.
Qed.

Lemma risk_weight_inherited (t : string) :
  inherited t = true ->
  or_default (read t ADS.weights) (Fin 0.2) = Member.
Proof.
  intros I. unfold read, ADS.weights. simpl. rewrite I.
  destruct (String.eqb t "callVolume") eqn:E1; [own_key E1 |].
  destruct (String.eqb t "duration") eqn:E2; [own_key E2 |].
  destruct (String.eqb t "failureRate") eqn:E3; [own_key E3 |].
  reflexivity.
Qed.

(** One band of the level table: both directions, by the comparisons
    in context. *)
Ltac band :=
  split; intros K;
  first [ discriminate K | reflexivity | lra | exfalso; lra
        | destruct K as [K1 K2]; first [ lra | exfalso; lra ] ].

(** The accumulation loop of [calculateRiskScore] over finite
    deviations is the weighted sum of the specification. *)
Lemma risk_loop (anomalies : list ADS.Anomaly) :
  forall acc : Q,
    Forall ADS.finite_deviation anomalies ->
    Forall ADS.plain_type anomalies ->
    exists s,
      fold_left
        (fun totalScore anomaly =>
           add totalScore
             (mul (ADS.deviation (ADS.report anomaly))
                (toNumber
                   (or_default (read (ADS.type anomaly) ADS.weights)
                      (Fin 0.2)))))
        anomalies (Fin acc) = Fin s
      /\ s == acc + ADS.spec_sum (ADS.typed_deviations anomalies).
Proof.
  induction anomalies as [|a l IH]; intros acc H P.
  - exists acc. split; [reflexivity | simpl; ring].
  - inversion H as [|? ? Ha Hl]; subst.
    inversion P as [|? ? Pa Pl]; subst.
    unfold ADS.finite_deviation in Ha.
    cbn [fold_left ADS.typed_deviations map ADS.spec_sum ADS.finite_part].
    destruct (ADS.deviation (ADS.report a)) as [d| | |] eqn:D;
      simpl in Ha; try contradiction.
    destruct (risk_weight (ADS.type a) Pa) as [w [-> Ew]].
    cbn [add mul toNumber ADS.finite_part].
    destruct (IH (acc + d * w) Hl Pl) as [s [-> Es]].
    exists s. split; [reflexivity |].
    rewrite Es, Ew. unfold ADS.typed_deviations. ring.
Qed.

(** Once the accumulated score is [NaN] it stays [NaN]. *)
Lemma risk_loop_NaN (anomalies : list ADS.Anomaly) :
  fold_left
    (fun totalScore anomaly =>
       add totalScore
         (mul (ADS.deviation (ADS.report anomaly))
            (toNumber
               (or_default (read (ADS.type anomaly) ADS.weights)
                  (Fin 0.2)))))
    anomalies NaN = NaN.
Proof.
  induction anomalies as [|a l IH]; [reflexivity |].
  cbn [fold_left add]. exact IH.
Qed.

(** An anomaly whose type is an inherited name makes the score [NaN]
    and the level high, whatever the other anomalies are. *)
Lemma calculateRiskScore_inherited env (anomalies : list ADS.Anomaly) :
  Exists (fun a => inherited (ADS.type a) = true) anomalies ->
  ADS.score (ADS.calculateRiskScore env anomalies) = NaN
  /\ ADS.level (ADS.calculateRiskScore env anomalies) = ADS.high.
Proof.
  intros E.
  assert (L : forall acc,
            fold_left
              (fun totalScore anomaly =>
                 add totalScore
                   (mul (ADS.deviation (ADS.report anomaly))
                      (toNumber
                         (or_default (read (ADS.type anomaly) ADS.weights)
                            (Fin 0.2)))))
              anomalies acc = NaN).
  { induction E as [a l I | a l _ IH]; intros acc; cbn [fold_left].
    - rewrite (risk_weight_inherited _ I). cbn [toNumber].
      replace (add acc (mul (ADS.deviation (ADS.report a)) NaN)) with NaN
        by (destruct acc, (ADS.deviation (ADS.report a)); reflexivity).
      apply risk_loop_NaN.
    - apply IH. }
  unfold ADS.calculateRiskScore.
  destruct anomalies as [|a l]; [inversion E |].
  cbv zeta. rewrite L. split; reflexivity.
Qed.

(** Where the risk score meets its contract.  On no anomaly the risk
    assessment is score 0, level low; on a non-empty sequence of
    anomalies with finite deviations, none of whose types is an
    inherited name, the score is min(1, sum of deviation_i *
    weight(type_i)) for the weights callVolume 0.3, duration 0.2,
    failureRate 0.5 and 0.2 otherwise, the level is low iff score < 0.3,
    medium iff 0.3 <= score < 0.7 and high iff score >= 0.7; one
    failureRate anomaly of deviation 0.6 gives score 0.3, level
    medium. *)
Lemma calculateRiskScore_plain_types :
  (forall env,
      ADS.calculateRiskScore env []
      = ADS.mkRisk (Fin 0) ADS.low None None)
  /\ (forall env anomalies,
         anomalies <> [] ->
         Forall ADS.finite_deviation anomalies ->
         Forall ADS.plain_type anomalies ->
         exists s,
           ADS.score (ADS.calculateRiskScore env anomalies) = Fin s
           /\ s == Qmin 1 (ADS.spec_sum (ADS.typed_deviations anomalies))
           /\ (ADS.level (ADS.calculateRiskScore env anomalies) = ADS.low
               <-> s < 0.3)
           /\ (ADS.level (ADS.calculateRiskScore env anomalies) = ADS.medium
               <-> 0.3 <= s /\ s < 0.7)
           /\ (ADS.level (ADS.calculateRiskScore env anomalies) = ADS.high
               <-> 0.7 <= s))
  /\ (forall env r,
         ADS.deviation r = Fin 0.6 ->
         let risk := ADS.calculateRiskScore env [ADS.mkAnomaly "failureRate" r] in
         Num.eq (ADS.score risk) (Fin 0.3) /\ ADS.level risk = ADS.medium).
Proof.
  split; [reflexivity | split].
  - intros env anomalies N H P.
    destruct anomalies as [|a l]; [congruence |].
    destruct (risk_loop (a :: l) 0 H P) as [t [Et Es]].
    unfold ADS.calculateRiskScore. cbv zeta. rewrite Et.
    cbn [ADS.score ADS.level min ltb].
    exists (Qmin 1 t). split; [reflexivity |].
    split.
    { rewrite Es. apply Q.min_compat; [reflexivity | ring]. }
    assert (L3 : Qle_bool 0.3 (Qmin 1 t) = true <-> 0.3 <= Qmin 1 t)
      by apply Qle_bool_iff.
    assert (L7 : Qle_bool 0.7 (Qmin 1 t) = true <-> 0.7 <= Qmin 1 t)
      by apply Qle_bool_iff.
    destruct (Qle_bool 0.3 (Qmin 1 t)); cbn [negb];
      [destruct (Qle_bool 0.7 (Qmin 1 t)); cbn [negb] |].
    + pose proof (proj1 L3 eq_refl). pose proof (proj1 L7 eq_refl).
      split; [| split]; band.
    + pose proof (proj1 L3 eq_refl).
      assert (Qmin 1 t < 0.7).
      { apply Qnot_le_lt. intros F. apply L7 in F. discriminate. }
      split; [| split]; band.
    + assert (Qmin 1 t < 0.3).
      { apply Qnot_le_lt. intros F. apply L3 in F. discriminate. }
      split; [| split]; band.
  - intros env r D risk. subst risk.
    unfold ADS.calculateRiskScore. simpl. rewrite D. simpl.
    split; [vm_compute; reflexivity | reflexivity].
Qed.

(** C3, against the code: an anomaly whose type is the name of a
    member every object inherits ([toString], here) reads that member
    from the [weights] literal in place of the default 0.2: the score is
    [NaN] and the level high, where the contract gives min(1, 0.5 * 0.2)
    = 0.1 and level low. *)
Theorem calculateRiskScore_inherited_type :
  forall env,
    let anomaly :=
      ADS.mkAnomaly "toString"
        (ADS.mkReport true (Fin 0.5) (Number (Fin 0.2)) (Fin 100) (Fin 150) 0) in
    let risk := ADS.calculateRiskScore env [anomaly] in
    ADS.score risk = NaN
    /\ ADS.level risk = ADS.high
    /\ Qmin 1 (ADS.spec_sum (ADS.typed_deviations [anomaly])) == 0.1.
Proof.
  intros env anomaly risk.
  destruct (calculateRiskScore_inherited env [anomaly]) as [S L].
  { apply Exists_cons_hd. reflexivity. }
  split; [exact S | split; [exact L |]].
  vm_compute. reflexivity.
Qed.

(** ** Deviation reports (ADS) *)

Lemma constructor_threshold (metricName : string) :
  inherited metricName = false ->
  exists t,
    or_default (read metricName (ADS.anomalyThresholds ADS.constructor))
      (Fin 0.2)
    = Number (Fin t)
    /\ t == ADS.spec_threshold metricName.
Proof.
  intros I. unfold read, ADS.constructor, ADS.spec_threshold. simpl.
  rewrite I.
  destruct (String.eqb metricName "callVolume"); [eexists; split; reflexivity |].
  destruct (String.eqb metricName "duration"); [eexists; split; reflexivity |].
  destruct (String.eqb metricName "failureRate"); [eexists; split; reflexivity |].
  destruct (String.eqb metricName "latency"); eexists; split; reflexivity.
Qed.

Lemma constructor_threshold_inherited (metricName : string) :
  inherited metricName = true ->
  or_default (read metricName (ADS.anomalyThresholds ADS.constructor))
    (Fin 0.2)
  = Member.
Proof.
  intros I. unfold read, ADS.constructor. simpl. rewrite I.
  destruct (String.eqb metricName "callVolume") eqn:E1; [own_key E1 |].
  destruct (String.eqb metricName "duration") eqn:E2; [own_key E2 |].
  destruct (String.eqb metricName "failureRate") eqn:E3; [own_key E3 |].
  destruct (String.eqb metricName "latency") eqn:E4; [own_key E4 |].
  reflexivity.
Qed.

(** C9, as stated, fails: with a stored baseline of mean 0 the
    detection returns a deviation report and no error; the deviation is
    [Infinity] (flagged) for an observed 5 and [NaN] (not flagged) for
    an observed 0. *)
Lemma detectAnomaly_zero_mean :
  ADS.detectAnomaly
    (ADS.mkADS [("callVolume", ADS.mkBaseline (Fin 0) (Fin 0) 0)]
       (ADS.anomalyThresholds ADS.constructor))
    (mkEnv (fun _ => 0) 7) "callVolume" (Fin 5)
  = ADS.Deviation (ADS.mkReport true PInf (Number (Fin 0.3)) (Fin 0) (Fin 5) 7)
  /\ ADS.detectAnomaly
       (ADS.mkADS [("callVolume", ADS.mkBaseline (Fin 0) (Fin 0) 0)]
          (ADS.anomalyThresholds ADS.constructor))
       (mkEnv (fun _ => 0) 7) "callVolume" (Fin 0)
     = ADS.Deviation
         (ADS.mkReport false NaN (Number (Fin 0.3)) (Fin 0) (Fin 0) 7).
Proof.
  split; reflexivity.
Qed.

(** C9 (amended): for every metric with a stored baseline the detection
    returns a deviation report, whatever the mean; no error is raised.
    When the mean is a non-zero number and the observed value a number,
    the reported deviation is |observed - mean| / mean; with the
    thresholds of the constructor, and for a metric whose name is not
    the name of a member every object inherits, the anomaly flag is set
    iff the deviation exceeds the threshold of the metric (callVolume
    0.3, duration 0.25, failureRate 0.2, latency 0.15, otherwise
    0.2). *)
Theorem detectAnomaly_report :
  forall this env metricName baseline value,
    get metricName (ADS.baselineMetrics this) = Some baseline ->
    exists r,
      ADS.detectAnomaly this env metricName value = ADS.Deviation r
      /\ ADS.baselineMean r = ADS.mean baseline
      /\ ADS.currentValue r = value
      /\ forall m v,
          ADS.mean baseline = Fin m -> value = Fin v -> ~ m == 0 ->
          ADS.deviation r = Fin (Qabs (v - m) / m)
          /\ (ADS.anomalyThresholds this
              = ADS.anomalyThresholds ADS.constructor ->
              inherited metricName = false ->
              exists t,
                ADS.threshold r = Number (Fin t)
                /\ t == ADS.spec_threshold metricName
                /\ (ADS.isAnomaly r = true
                    <-> ADS.spec_threshold metricName < Qabs (v - m) / m)).
Proof.
  intros this env metricName baseline value B.
  unfold ADS.detectAnomaly. rewrite B.
  eexists. split; [reflexivity |].
  cbn [ADS.baselineMean ADS.currentValue ADS.deviation ADS.threshold
       ADS.isAnomaly].
  split; [reflexivity | split; [reflexivity |]].
  intros m v Em Ev Nz. rewrite Em, Ev.
  assert (Z : Qeq_bool m 0 = false).
  { destruct (Qeq_bool m 0) eqn:E; [| reflexivity].
    apply Qeq_bool_iff in E. contradiction. }
  cbn [sub neg add abs div]. rewrite Z.
  split; [reflexivity |].
  intros T I. rewrite T.
  destruct (constructor_threshold metricName I) as [t [-> Et]].
  exists t. split; [reflexivity | split; [exact Et |]].
  unfold gtb. cbn [toNumber ltb].
  change (v + - m) with (v - m).
  destruct (Qle_bool (Qabs (v - m) / m) t) eqn:L; cbn [negb].
  - apply Qle_bool_iff in L. split; [discriminate |].
    intros F. exfalso. rewrite <- Et in F. lra.
  - split; [intros _ | reflexivity].
    rewrite <- Et. apply Qnot_le_lt. intros F.
    apply Qle_bool_iff in F. congruence.
Qed.

Lemma detectAnomaly_report_witness :
  exists r,
    ADS.detectAnomaly
      (ADS.mkADS [("callVolume", ADS.mkBaseline (Fin 100) (Fin 10) 0)]
         (ADS.anomalyThresholds ADS.constructor))
      (mkEnv (fun _ => 0) 7) "callVolume" (Fin 135)
    = ADS.Deviation r
    /\ ADS.deviation r = Fin (Qabs (135 - 100) / 100)
    /\ ADS.isAnomaly r = true.
Proof.
  destruct (detectAnomaly_report
              (ADS.mkADS [("callVolume", ADS.mkBaseline (Fin 100) (Fin 10) 0)]
                 (ADS.anomalyThresholds ADS.constructor))
              (mkEnv (fun _ => 0) 7) "callVolume"
              (ADS.mkBaseline (Fin 100) (Fin 10) 0) (Fin 135) eq_refl)
    as [r [E [_ [_ H]]]].
  exists r. split; [exact E |].
  destruct (H 100 135 eq_refl eq_refl) as [D T].
  - intros F. discriminate F.
  - split; [exact D |].
    destruct (T eq_refl eq_refl) as [t [_ [_ I]]].
    apply I. vm_compute. reflexivity.
Defined.

(** ** Zero-valued metrics (ADS) *)

Lemma checkMetric_zero this env type metricName (v : Q) anomalies :
  v == 0 ->
  ADS.checkMetric this env type metricName (Some (Fin v)) anomalies
  = ADS.checkMetric this env type metricName None anomalies.
Proof.
  intros Z. unfold ADS.checkMetric, truthy.
  apply Qeq_bool_iff in Z. now rewrite Z.
Qed.

Lemma checkMetric_absent this env type metricName anomalies :
  ADS.checkMetric this env type metricName None anomalies = anomalies.
Proof. reflexivity. Qed.

Lemma checkMetric_no_entry this env type metricName field anomalies t :
  type <> t ->
  ADS.no_entry t anomalies ->
  ADS.no_entry t (ADS.checkMetric this env type metricName field anomalies).
Proof.
  intros N H. unfold ADS.checkMetric.
  destruct field as [value|]; [| assumption].
  destruct (truthy value); [| assumption].
  destruct (ADS.detectAnomaly this env metricName value) as [|r]; [assumption |].
  destruct (ADS.isAnomaly r); [| assumption].
  apply Forall_app. split; [assumption |].
  constructor; [exact N | constructor].
Qed.

(** C10: a field of the metrics that is present with value 0 is skipped
    as if it were absent: the anomalies are those found without the
    field, and none of them is of the type of that field, whatever the
    baselines and the thresholds. *)
Theorem processCallMetrics_zero_skipped :
  forall this env metrics (v : Q),
    v == 0 ->
    (ADS.callVolume metrics = Some (Fin v) ->
     ADS.processCallMetrics this env metrics
     = ADS.processCallMetrics this env (ADS.without_callVolume metrics)
     /\ ADS.no_entry "callVolume" (ADS.processCallMetrics this env metrics))
    /\ (ADS.avgDuration metrics = Some (Fin v) ->
        ADS.processCallMetrics this env metrics
        = ADS.processCallMetrics this env (ADS.without_avgDuration metrics)
        /\ ADS.no_entry "duration" (ADS.processCallMetrics this env metrics))
    /\ (ADS.failureRate metrics = Some (Fin v) ->
        ADS.processCallMetrics this env metrics
        = ADS.processCallMetrics this env (ADS.without_failureRate metrics)
        /\ ADS.no_entry "failureRate" (ADS.processCallMetrics this env metrics)).
Proof.
  intros this env [cv ad fr] v Z. unfold ADS.processCallMetrics.
  cbn [ADS.callVolume ADS.avgDuration ADS.failureRate
       ADS.without_callVolume ADS.without_avgDuration ADS.without_failureRate].
  split; [| split]; intros ->; rewrite (checkMetric_zero _ _ _ _ v) by exact Z;
    (split; [reflexivity |]); rewrite checkMetric_absent;
    repeat first [ constructor
                 | apply checkMetric_no_entry; [discriminate |] ].
Qed.

Lemma processCallMetrics_zero_skipped_witness :
  ADS.processCallMetrics
    (ADS.mkADS [("callVolume", ADS.mkBaseline (Fin 100) (Fin 10) 0)]
       (ADS.anomalyThresholds ADS.constructor))
    (mkEnv (fun _ => 0) 7) (ADS.mkCallMetrics (Some (Fin 0)) None None)
  = ADS.processCallMetrics
      (ADS.mkADS [("callVolume", ADS.mkBaseline (Fin 100) (Fin 10) 0)]
         (ADS.anomalyThresholds ADS.constructor))
      (mkEnv (fun _ => 0) 7) (ADS.mkCallMetrics None None None).
Proof.
  refine (proj1 (proj1 (processCallMetrics_zero_skipped
                          (ADS.mkADS
                             [("callVolume",
                               ADS.mkBaseline (Fin 100) (Fin 10) 0)]
                             (ADS.anomalyThresholds ADS.constructor))
                          (mkEnv (fun _ => 0) 7)
                          (ADS.mkCallMetrics (Some (Fin 0)) None None)
                          0 _) eq_refl)).
  reflexivity.
Defined.

(** ** Ranking: order of the candidates and ties *)

Lemma keys_weighRoutes this env (l : list string) :
  forall (m : Map DCD.WeightedRoute) (n : nat),
    keys (fst (DCD.weighRoutes this env l m n)) = fold_left addKey l (keys m).
Proof.
  induction l as [|r l IH]; intros m n; [reflexivity |].
  cbn [DCD.weighRoutes fold_left].
  unfold bind, DCD.measureLatency, DCD.getCurrentLoad,
    DCD.calculateReliability, bind, random, ret.
  rewrite IH, keys_set. reflexivity.
Qed.

Lemma keys_costRoutes this env (l : list string) :
  forall (m : Map LCR.RouteCost) (n : nat),
    keys (fst (LCR.costRoutes this env l m n)) = fold_left addKey l (keys m).
Proof.
  induction l as [|r l IH]; intros m n; [reflexivity |].
  cbn [LCR.costRoutes fold_left].
  unfold bind, LCR.getRouteCosts, LCR.measureDelay, bind, random, ret.
  rewrite IH, keys_set. reflexivity.
Qed.

Lemma fold_addKey_NoDup (l : list string) :
  forall ks, NoDup (ks ++ l) -> fold_left addKey l ks = (ks ++ l)%list.
Proof.
  induction l as [|k l IH]; intros ks H; simpl.
  - now rewrite app_nil_r.
  - unfold addKey at 2.
    destruct (in_dec string_dec k ks) as [I | _].
    + exfalso. apply NoDup_remove_2 in H. apply H.
      apply in_or_app. now left.
    + rewrite IH; rewrite <- app_assoc; [reflexivity | exact H].
Qed.

Lemma insertionOrder_NoDup (l : list string) :
  NoDup l -> insertionOrder l = l.
Proof.
  intros H. unfold insertionOrder. now rewrite fold_addKey_NoDup.
Qed.

Lemma highestFirst_sortedRoutes (m : Map DCD.WeightedRoute) :
  DCD.highestFirst (DCD.sortedRoutes m).
Proof.
  pose proof (sort_ascending DCD.byWeightDesc
                (fun e => - DCD.weight (snd e)) byWeightDesc_key m) as H.
  unfold DCD.highestFirst, DCD.sortedRoutes, ascending in *.
  induction H as [|a l Hl IH Ha]; constructor; [exact IH |].
  eapply Forall_impl; [| exact Ha]. simpl; intros; lra.
Qed.

Lemma weighs_keyed (w : Q) (l : list (string * DCD.WeightedRoute)) :
  filter (DCD.weighs w) l
  = filter (keyed (fun e => - DCD.weight (snd e)) (- w)) l.
Proof.
  apply filter_ext. intros e. unfold DCD.weighs, keyed.
  destruct (Qeq_bool (DCD.weight (snd e)) w) eqn:E.
  - apply Qeq_bool_iff in E. symmetry. apply Qeq_bool_iff. now rewrite E.
  - destruct (Qeq_bool (- DCD.weight (snd e)) (- w)) eqn:F; [| reflexivity].
    apply Qeq_bool_iff in F. apply Qeq_bool_neq in E. exfalso. apply E. lra.
Qed.

(** The scored candidates depend on the environment through the
    draws only. *)
Lemma weighRoutes_draws this env env' (l : list string) :
  (forall i, Math_random env' i = Math_random env i) ->
  forall (m : Map DCD.WeightedRoute) (n : nat),
    DCD.weighRoutes this env' l m n = DCD.weighRoutes this env l m n.
Proof.
  intros D. induction l as [|r l IH]; intros m n; [reflexivity |].
  cbn [DCD.weighRoutes].
  unfold bind, DCD.measureLatency, DCD.getCurrentLoad,
    DCD.calculateReliability, bind, random, ret.
  rewrite !D. apply IH.
Qed.

Lemma costRoutes_draws this env env' (l : list string) :
  (forall i, Math_random env' i = Math_random env i) ->
  forall (m : Map LCR.RouteCost) (n : nat),
    LCR.costRoutes this env' l m n = LCR.costRoutes this env l m n.
Proof.
  intros D. induction l as [|r l IH]; intros m n; [reflexivity |].
  cbn [LCR.costRoutes].
  unfold bind, LCR.getRouteCosts, LCR.measureDelay, bind, random, ret.
  rewrite !D. apply IH.
Qed.

(** C8, as stated, fails: two candidates of equal cost, supplied as
    "b" then "a", are ranked "b" then "a" although "a" precedes "b"
    lexicographically; supplied as "a" then "b" they are ranked "a"
    then "b", so the ranking follows the order of supply. *)
Lemma ties_follow_supplied_order :
  map fst
    (LCR.sortedRoutes
       (fst (LCR.costRoutes LCR.constructor (mkEnv (fun _ => 1 # 2) 0)
               ["b"; "a"] [] 0%nat)))
  = ["b"; "a"]
  /\ map (fun e => Qred (LCR.totalCost (snd e)))
       (LCR.sortedRoutes
          (fst (LCR.costRoutes LCR.constructor (mkEnv (fun _ => 1 # 2) 0)
                  ["b"; "a"] [] 0%nat)))
     = [221 # 20; 221 # 20]
  /\ String.ltb "a" "b" = true
  /\ map fst
       (LCR.sortedRoutes
          (fst (LCR.costRoutes LCR.constructor (mkEnv (fun _ => 1 # 2) 0)
                  ["a"; "b"] [] 0%nat)))
     = ["a"; "b"].
Proof.
  repeat split; vm_compute; reflexivity.
Qed.

(** C8 (amended): for fixed draws the ranking is a function of the
    candidate list: two runs with the same draws rank alike.  The
    scored candidates stand in the order in which they were first
    supplied; the ranking is a permutation of them, the highest weight
    (the lowest cost) first, and candidates of equal weight (cost) keep
    their order of supply: there is no tie-break on the route
    identifier.  A candidate list without repetition is its own order
    of supply. *)
Theorem ranking_is_stable :
  forall (env : Env) (candidates : list string) (n : nat),
    let weighted := fst (DCD.weighRoutes DCD.constructor env candidates [] n) in
    let costed := fst (LCR.costRoutes LCR.constructor env candidates [] n) in
    (forall env',
        (forall i, Math_random env' i = Math_random env i) ->
        DCD.sortedRoutes
          (fst (DCD.weighRoutes DCD.constructor env' candidates [] n))
        = DCD.sortedRoutes weighted
        /\ LCR.sortedRoutes
             (fst (LCR.costRoutes LCR.constructor env' candidates [] n))
           = LCR.sortedRoutes costed)
    /\ (keys weighted = insertionOrder candidates
        /\ Permutation (DCD.sortedRoutes weighted) weighted
        /\ DCD.highestFirst (DCD.sortedRoutes weighted)
        /\ forall w, filter (DCD.weighs w) (DCD.sortedRoutes weighted)
                     = filter (DCD.weighs w) weighted)
    /\ (keys costed = insertionOrder candidates
        /\ Permutation (LCR.sortedRoutes costed) costed
        /\ LCR.cheapestFirst (LCR.sortedRoutes costed)
        /\ forall c, filter (LCR.costing c) (LCR.sortedRoutes costed)
                     = filter (LCR.costing c) costed)
    /\ (NoDup candidates -> insertionOrder candidates = candidates).
Proof.
  intros env candidates n weighted costed.
  split; [| split; [| split]].
  - intros env' D. subst weighted costed.
    now rewrite (weighRoutes_draws _ env env' candidates D),
      (costRoutes_draws _ env env' candidates D).
  - split; [apply keys_weighRoutes |].
    split; [apply sort_perm |].
    split; [apply highestFirst_sortedRoutes |].
    intros w. rewrite !weighs_keyed.
    apply sort_stable, byWeightDesc_key.
  - split; [apply keys_costRoutes |].
    split; [apply sort_perm |].
    split.
    + apply (sort_ascending LCR.byCostAsc
               (fun e => LCR.totalCost (snd e)) byCostAsc_key).
    + intros c.
      apply (sort_stable LCR.byCostAsc
               (fun e => LCR.totalCost (snd e)) byCostAsc_key).
  - apply insertionOrder_NoDup.
Qed.

Lemma ranking_is_stable_witness :
  insertionOrder DCD.getAvailableRoutes = DCD.getAvailableRoutes.
Proof.
  refine (proj2 (proj2 (proj2 (ranking_is_stable (mkEnv (fun _ => 1 # 2) 0)
                                 DCD.getAvailableRoutes 0%nat))) _).
  unfold DCD.getAvailableRoutes.
  repeat constructor; simpl; intuition discriminate.
Defined.

(** The fixed candidates of the route scorer are supplied in
    lexicographic order, so among them a tie falls to the
    lexicographically first. *)
Lemma getAvailableRoutes_lexicographic :
  StronglySorted (fun a b => String.ltb a b = true) DCD.getAvailableRoutes.
Proof.
  unfold DCD.getAvailableRoutes. repeat constructor.
Qed.

(** ** The live calls of the framework *)

Lemma activeCalls_countFailure this :
  CRF.activeCalls (CRF.countFailure this) = CRF.activeCalls this.
Proof. reflexivity. Qed.

(** What the [try] block leaves behind: either it throws with the state
    untouched, or it has stored the monitoring record of the call. *)
Lemma processCall_try_state this co env callRequest :
  (exists e, CRF.processCall_try this co env callRequest = (Throws e, this))
  \/ (exists cm,
         snd (CRF.processCall_try this co env callRequest)
         = CRF.with_activeCalls this
             (set (CRF.id callRequest) cm (CRF.activeCalls this))
         /\ CRF.monitoredId cm = CRF.id callRequest
         /\ CRF.startTime cm = Date_now env).
Proof.
  unfold CRF.processCall_try.
  destruct (negb (CRF.verified (CRF.processIncomingCall co callRequest)));
    [left; eexists; reflexivity |].
  destruct (CRF.getNetworkState this env 0%nat) as [networkState n0].
  destruct (DCD.getOptimalRoute (CRF.dcd this) env n0) as [[optimalRoute | e] n1];
    [| left; eexists; reflexivity].
  destruct (LCR.findOptimalRoute (CRF.lcr this) env
              [DCD.selectedRoute optimalRoute] n1) as [[routeCosts | e] n2];
    [| left; eexists; reflexivity].
  match goal with |- context [ADS.processCallMetrics ?a ?b ?c] =>
    destruct (ADS.processCallMetrics a b c) as [|anomaly anomalies] end.
  - right. destruct (CRF.logCall co _); eexists; simpl; repeat split.
  - destruct (ADS.level (ADS.calculateRiskScore env (anomaly :: anomalies))).
    + right; eexists; simpl; repeat split.
    + right; eexists; simpl; repeat split.
    + left; eexists; reflexivity.
Qed.

Lemma processCall_try_Returns this co env callRequest r :
  fst (CRF.processCall_try this co env callRequest) = Returns r ->
  exists cm,
    snd (CRF.processCall_try this co env callRequest)
    = CRF.with_activeCalls this
        (set (CRF.id callRequest) cm (CRF.activeCalls this))
    /\ CRF.monitoredId cm = CRF.id callRequest
    /\ CRF.startTime cm = Date_now env.
Proof.
  intros H.
  destruct (processCall_try_state this co env callRequest) as [[e E] | S];
    [| exact S].
  rewrite E in H. discriminate H.
Qed.

Lemma processCall_fst this co env callRequest :
  fst (CRF.processCall this co env callRequest)
  = fst (CRF.processCall_try this co env callRequest).
Proof.
  unfold CRF.processCall.
  destruct (CRF.processCall_try this co env callRequest) as [[r | e] s];
    reflexivity.
Qed.

Lemma processCall_activeCalls this co env callRequest :
  CRF.activeCalls (snd (CRF.processCall this co env callRequest))
  = CRF.activeCalls (snd (CRF.processCall_try this co env callRequest)).
Proof.
  unfold CRF.processCall.
  destruct (CRF.processCall_try this co env callRequest) as [[r | e] s];
    reflexivity.
Qed.

Lemma endCall_activeCalls this co env callId :
  CRF.activeCalls (snd (CRF.endCall this co env callId))
  = match get callId (CRF.activeCalls this) with
    | Some _ => delete callId (CRF.activeCalls this)
    | None => CRF.activeCalls this
    end.
Proof.
  unfold CRF.endCall.
  destruct (get callId (CRF.activeCalls this)) as [call|]; [| reflexivity].
  destruct (CRF.logCall co _); reflexivity.
Qed.

(** The live store never holds two sessions of one call id. *)
Lemma reachable_NoDup this :
  CRF.reachable this -> NoDup (keys (CRF.activeCalls this)).
Proof.
  induction 1 as [now | this metricName b _ IH
                  | this co env callRequest _ IH | this co env callId _ IH].
  - constructor.
  - exact IH.
  - rewrite processCall_activeCalls.
    destruct (processCall_try_state this co env callRequest)
      as [[e E] | [cm [E _]]]; rewrite E; simpl.
    + exact IH.
    + now apply NoDup_keys_set.
  - rewrite endCall_activeCalls.
    destruct (get callId (CRF.activeCalls this)); [| exact IH].
    now apply NoDup_keys_delete.
Qed.


(** The errors [processCall] raises by itself are plain [Error]s and a
    [ReferenceError]; any other comes from the analytics store. *)
Lemma processCall_errors this co env callRequest e :
  fst (CRF.processCall this co env callRequest) = Throws e ->
  name e = "Error" \/ name e = "ReferenceError"
  \/ exists d, CRF.logCall co d = Throws e.
Proof.
  rewrite processCall_fst. unfold CRF.processCall_try.
  destruct (negb (CRF.verified (CRF.processIncomingCall co callRequest))).
  { simpl. intros [= <-]. now left. }
  destruct (CRF.getNetworkState this env 0%nat) as [networkState n0].
  destruct (getOptimalRoute_returns (CRF.dcd this) env n0) as [optimalRoute O].
  destruct (DCD.getOptimalRoute (CRF.dcd this) env n0) as [o n1].
  simpl in O; subst o.
  destruct (findOptimalRoute_returns (CRF.lcr this) env
              (DCD.selectedRoute optimalRoute) [] n1) as [routeCosts R].
  destruct (LCR.findOptimalRoute (CRF.lcr this) env
              [DCD.selectedRoute optimalRoute] n1) as [c n2].
  simpl in R; subst c.
  match goal with |- context [ADS.processCallMetrics ?a ?b ?c] =>
    destruct (ADS.processCallMetrics a b c) as [|anomaly anomalies] end.
  - match goal with |- context [CRF.logCall co ?d] =>
      destruct (CRF.logCall co d) as [u | e'] eqn:L end; simpl.
    + discriminate.
    + intros [= <-]. right; right. eexists; exact L.
  - destruct (ADS.level (ADS.calculateRiskScore env (anomaly :: anomalies)));
      simpl; intros [= <-]; auto.
Qed.

(** C4, as stated, fails: after a call "c1" was started at time 1000,
    starting "c1" again at time 2000 succeeds, and the session stored
    for "c1" is the new one (started at 2000), not the existing one. *)
Lemma duplicate_call_replaces_session :
  CRF.reachable
    (snd (CRF.processCall (CRF.constructor 0) CRF.accepting
            (mkEnv (fun _ => 1 # 2) 1000) (CRF.mkRequest "c1" None)))
  /\ option_map CRF.startTime
       (get "c1"
          (CRF.activeCalls
             (snd (CRF.processCall (CRF.constructor 0) CRF.accepting
                     (mkEnv (fun _ => 1 # 2) 1000)
                     (CRF.mkRequest "c1" None)))))
     = Some 1000%Z
  /\ fst (CRF.processCall
            (snd (CRF.processCall (CRF.constructor 0) CRF.accepting
                    (mkEnv (fun _ => 1 # 2) 1000) (CRF.mkRequest "c1" None)))
            CRF.accepting (mkEnv (fun _ => 1 # 2) 2000)
            (CRF.mkRequest "c1" None))
     = Returns (CRF.mkCallResult true "c1" "route1" "c1@route1" (Some "A"))
  /\ option_map CRF.startTime
       (get "c1"
          (CRF.activeCalls
             (snd (CRF.processCall
                     (snd (CRF.processCall (CRF.constructor 0) CRF.accepting
                             (mkEnv (fun _ => 1 # 2) 1000)
                             (CRF.mkRequest "c1" None)))
                     CRF.accepting (mkEnv (fun _ => 1 # 2) 2000)
                     (CRF.mkRequest "c1" None)))))
     = Some 2000%Z.
Proof.
  split; [apply CRF.reach_processCall, CRF.reach_constructor |].
  repeat split; vm_compute; reflexivity.
Qed.

(** C4 (amended): at every reachable state the live store holds at
    most one session per call id.  Starting a call does not fail on
    account of its id being live (there is no DuplicateCallError): a
    call that succeeds stores its own session under its id, replacing a
    session already there, and leaves the other ids alone.  Ending a
    live call removes its id from the store and leaves the other ids
    alone, so that the id can be started again; ending an id that is
    not live fails with "Call not found".  A call whose verification
    fails leaves the store as it was. *)
Theorem live_calls_by_id :
  forall this,
    CRF.reachable this ->
    NoDup (keys (CRF.activeCalls this))
    /\ (forall co env callRequest,
           (forall d e, CRF.logCall co d = Throws e ->
                        name e <> "DuplicateCallError") ->
           ~ fails_with "DuplicateCallError"
               (fst (CRF.processCall this co env callRequest)))
    /\ (forall co env callRequest r,
           fst (CRF.processCall this co env callRequest) = Returns r ->
           let this' := snd (CRF.processCall this co env callRequest) in
           (exists cm,
               get (CRF.id callRequest) (CRF.activeCalls this') = Some cm
               /\ CRF.monitoredId cm = CRF.id callRequest
               /\ CRF.startTime cm = Date_now env)
           /\ forall k, k <> CRF.id callRequest ->
                        get k (CRF.activeCalls this')
                        = get k (CRF.activeCalls this))
    /\ (forall co env callId call,
           get callId (CRF.activeCalls this) = Some call ->
           let this' := snd (CRF.endCall this co env callId) in
           get callId (CRF.activeCalls this') = None
           /\ forall k, k <> callId ->
                        get k (CRF.activeCalls this')
                        = get k (CRF.activeCalls this))
    /\ (forall co env callId,
           get callId (CRF.activeCalls this) = None ->
           CRF.endCall this co env callId
           = (Throws (Error "Call not found"), this))
    /\ (forall co env callRequest,
           CRF.verified (CRF.processIncomingCall co callRequest) = false ->
           CRF.activeCalls (snd (CRF.processCall this co env callRequest))
           = CRF.activeCalls this).
Proof.
  intros this R. pose proof (reachable_NoDup this R) as ND.
  split; [exact ND |]. split; [| split; [| split; [| split]]].
  - intros co env callRequest L F.
    destruct (fst (CRF.processCall this co env callRequest)) as [r | e] eqn:E;
      [exact F |].
    simpl in F.
    destruct (processCall_errors this co env callRequest e E)
      as [N | [N | [d D]]].
    + rewrite N in F. discriminate F.
    + rewrite N in F. discriminate F.
    + exact (L d e D F).
  - intros co env callRequest r E this'. subst this'.
    rewrite processCall_fst in E.
    destruct (processCall_try_Returns this co env callRequest r E)
      as [cm [S [I T]]].
    rewrite processCall_activeCalls, S. simpl. split.
    + exists cm. rewrite get_set_same. auto.
    + intros k N. now apply get_set_other.
  - intros co env callId call G this'. subst this'.
    rewrite endCall_activeCalls, G. split.
    + now apply get_delete_same.
    + intros k N. now apply get_delete_other.
  - intros co env callId G. unfold CRF.endCall. now rewrite G.
  - intros co env callRequest V.
    rewrite processCall_activeCalls. unfold CRF.processCall_try.
    now rewrite V.
Qed.

Lemma live_calls_by_id_witness :
  NoDup
    (keys
       (CRF.activeCalls
          (snd (CRF.processCall (CRF.constructor 0) CRF.accepting
                  (mkEnv (fun _ => 1 # 2) 1000) (CRF.mkRequest "c1" None))))).
Proof.
  refine (proj1 (live_calls_by_id _ _)).
  apply CRF.reach_processCall, CRF.reach_constructor.
Defined.

(** ** Failures of the analytics store *)

(** C7, as stated, fails: the very call that succeeds when the
    analytics store accepts its record is rejected with the store's
    error when the store fails, and it is counted as a failed call. *)
Lemma logCall_failure_fails_the_call :
  fst (CRF.processCall (CRF.constructor 0) CRF.accepting
         (mkEnv (fun _ => 1 # 2) 1000) (CRF.mkRequest "c1" None))
  = Returns (CRF.mkCallResult true "c1" "route1" "c1@route1" (Some "A"))
  /\ CRF.failedCalls
       (CRF.systemMetrics
          (snd (CRF.processCall (CRF.constructor 0) CRF.accepting
                  (mkEnv (fun _ => 1 # 2) 1000) (CRF.mkRequest "c1" None))))
     = 0%Z
  /\ fst (CRF.processCall (CRF.constructor 0)
            (CRF.with_failing_log CRF.accepting (Error "No Living connections"))
            (mkEnv (fun _ => 1 # 2) 1000) (CRF.mkRequest "c1" None))
     = Throws (Error "No Living connections")
  /\ CRF.failedCalls
       (CRF.systemMetrics
          (snd (CRF.processCall (CRF.constructor 0)
                  (CRF.with_failing_log CRF.accepting
                     (Error "No Living connections"))
                  (mkEnv (fun _ => 1 # 2) 1000) (CRF.mkRequest "c1" None))))
     = 1%Z.
Proof.
  repeat split; vm_compute; reflexivity.
Qed.

(** With a failing analytics store, a call that would have completed
    is left in the state of the completed call, counted as failed. *)
Lemma processCall_failing_log this co env e callRequest r :
  fst (CRF.processCall this (CRF.with_working_log co) env callRequest)
  = Returns r ->
  CRF.processCall this (CRF.with_failing_log co e) env callRequest
  = (Throws e,
     CRF.countFailure
       (snd (CRF.processCall this (CRF.with_working_log co) env callRequest))).
Proof.
  unfold CRF.processCall, CRF.processCall_try,
    CRF.with_working_log, CRF.with_failing_log.
  cbn [CRF.processIncomingCall CRF.encryptWithSession CRF.logCall].
  destruct (negb (CRF.verified (CRF.processIncomingCall co callRequest)));
    [discriminate |].
  destruct (CRF.getNetworkState this env 0%nat) as [networkState n0].
  destruct (DCD.getOptimalRoute (CRF.dcd this) env n0)
    as [[optimalRoute | o] n1]; [| discriminate].
  destruct (LCR.findOptimalRoute (CRF.lcr this) env
              [DCD.selectedRoute optimalRoute] n1)
    as [[routeCosts | c] n2]; [| discriminate].
  match goal with |- context [ADS.processCallMetrics ?a ?b ?c] =>
    destruct (ADS.processCallMetrics a b c) as [|anomaly anomalies] end.
  - reflexivity.
  - destruct (ADS.level (ADS.calculateRiskScore env (anomaly :: anomalies)));
      discriminate.
Qed.

(** A call that fails with a working analytics store never reaches the
    store: it fails identically with a failing one. *)
Lemma processCall_failing_before_log this co env e callRequest e' :
  fst (CRF.processCall this (CRF.with_working_log co) env callRequest)
  = Throws e' ->
  CRF.processCall this (CRF.with_failing_log co e) env callRequest
  = CRF.processCall this (CRF.with_working_log co) env callRequest.
Proof.
  unfold CRF.processCall, CRF.processCall_try,
    CRF.with_working_log, CRF.with_failing_log.
  cbn [CRF.processIncomingCall CRF.encryptWithSession CRF.logCall].
  destruct (negb (CRF.verified (CRF.processIncomingCall co callRequest)));
    [reflexivity |].
  destruct (CRF.getNetworkState this env 0%nat) as [networkState n0].
  destruct (DCD.getOptimalRoute (CRF.dcd this) env n0)
    as [[optimalRoute | o] n1]; [| reflexivity].
  destruct (LCR.findOptimalRoute (CRF.lcr this) env
              [DCD.selectedRoute optimalRoute] n1)
    as [[routeCosts | c] n2]; [| reflexivity].
  match goal with |- context [ADS.processCallMetrics ?a ?b ?c] =>
    destruct (ADS.processCallMetrics a b c) as [|anomaly anomalies] end.
  - discriminate.
  - destruct (ADS.level (ADS.calculateRiskScore env (anomaly :: anomalies)));
      reflexivity.
Qed.

(** C7 (amended): a failure of the analytics store propagates to the
    caller.  A call that [processCall] completes with a working store
    is rejected with the store's error when the store fails, and the
    failure counter is incremented on that account; a call that
    [endCall] completes with a working store is rejected with the
    store's error when the store fails.  A call or an ending that
    fails with a working store fails identically with a failing one. *)
Theorem logCall_failure_propagates :
  forall this co env e,
    (forall callRequest r,
        fst (CRF.processCall this (CRF.with_working_log co) env callRequest)
        = Returns r ->
        fst (CRF.processCall this (CRF.with_failing_log co e) env callRequest)
        = Throws e
        /\ CRF.failedCalls
             (CRF.systemMetrics
                (snd (CRF.processCall this (CRF.with_failing_log co e) env
                        callRequest)))
           = (CRF.failedCalls
                (CRF.systemMetrics
                   (snd (CRF.processCall this (CRF.with_working_log co) env
                           callRequest))) + 1)%Z)
    /\ (forall callRequest e',
           fst (CRF.processCall this (CRF.with_working_log co) env callRequest)
           = Throws e' ->
           CRF.processCall this (CRF.with_failing_log co e) env callRequest
           = CRF.processCall this (CRF.with_working_log co) env callRequest)
    /\ (forall callId s,
           fst (CRF.endCall this (CRF.with_working_log co) env callId)
           = Returns s ->
           fst (CRF.endCall this (CRF.with_failing_log co e) env callId)
           = Throws e)
    /\ (forall callId e',
           fst (CRF.endCall this (CRF.with_working_log co) env callId)
           = Throws e' ->
           CRF.endCall this (CRF.with_failing_log co e) env callId
           = CRF.endCall this (CRF.with_working_log co) env callId).
Proof.
  intros this co env e.
  split; [| split; [| split]].
  - intros callRequest r H.
    rewrite (processCall_failing_log this co env e callRequest r H).
    split; reflexivity.
  - intros callRequest e'. apply processCall_failing_before_log.
  - intros callId s.
    unfold CRF.endCall, CRF.with_working_log, CRF.with_failing_log.
    cbn [CRF.logCall].
    destruct (get callId (CRF.activeCalls this)); [reflexivity | discriminate].
  - intros callId e'.
    unfold CRF.endCall, CRF.with_working_log, CRF.with_failing_log.
    cbn [CRF.logCall].
    destruct (get callId (CRF.activeCalls this)); [discriminate | reflexivity].
Qed.

Lemma logCall_failure_propagates_witness :
  fst (CRF.processCall (CRF.constructor 0)
         (CRF.with_failing_log CRF.accepting (Error "No Living connections"))
         (mkEnv (fun _ => 1 # 2) 1000) (CRF.mkRequest "c1" None))
  = Throws (Error "No Living connections").
Proof.
  refine (proj1 (proj1 (logCall_failure_propagates (CRF.constructor 0)
                          CRF.accepting (mkEnv (fun _ => 1 # 2) 1000)
                          (Error "No Living connections"))
                   (CRF.mkRequest "c1" None)
                   (CRF.mkCallResult true "c1" "route1" "c1@route1" (Some "A"))
                   _)).
  vm_compute. reflexivity.
Defined.

(** * Further properties *)

(** ** The simulated measurements and the selected route (DCD) *)

Lemma Forall_set {V} (P : string * V -> Prop) (k : string) (v : V) (m : Map V) :
  Forall P m -> P (k, v) -> Forall P (set k v m).
Proof.
  intros H Hv. induction m as [|[k' v'] m IH]; simpl.
  - constructor; [exact Hv | constructor].
  - inversion H as [|? ? Hk Hm]; subst.
    destruct (String.eqb k k'); constructor; auto.
Qed.




Lemma In_fold_addKey (l : list string) :
  forall ks k, In k (fold_left addKey l ks) <-> In k ks \/ In k l.
Proof.
  induction l as [|x l IH]; intros ks k; simpl; [tauto |].
  rewrite IH. unfold addKey.
  destruct (in_dec string_dec x ks) as [I | N].
  - split; [tauto |]. intros [H | [<- | H]]; auto.
  - rewrite in_app_iff. simpl. tauto.
Qed.

Lemma In_insertionOrder (l : list string) (k : string) :
  In k (insertionOrder l) <-> In k l.
Proof.
  unfold insertionOrder. rewrite In_fold_addKey. simpl. tauto.
Qed.

Lemma In_keys_get {V} (k : string) (m : Map V) :
  In k (keys m) -> exists v, get k m = Some v.
Proof.
  intros H. destruct (get k m) as [v|] eqn:E; [eauto |].
  apply get_None_not_In in E. contradiction.
Qed.

(** What the head of a ranking is to the rest. *)
Lemma highestFirst_head (e : string * DCD.WeightedRoute) s :
  DCD.highestFirst (e :: s) ->
  forall x, In x (e :: s) -> DCD.weight (snd x) <= DCD.weight (snd e).
Proof.
  intros H x [<- | I]; [lra |].
  inversion H as [|? ? _ F]; subst.
  rewrite Forall_forall in F. now apply F.
Qed.

(** The route returned among at least one candidate is the head of
    the ranking. *)
Lemma selectAmong_head this env (r : string) (l : list string) (n : nat) :
  exists k w s,
    DCD.sortedRoutes (fst (DCD.weighRoutes this env (r :: l) [] n))
    = (k, w) :: s
    /\ fst (DCD.selectAmong this env (r :: l) n)
       = Returns (DCD.mkOptimal k (DCD.metrics w) (DCD.weight w)).
Proof.
  unfold DCD.selectAmong. rewrite bind_run. unfold ret; cbn [fst].
  destruct (DCD.sortedRoutes (fst (DCD.weighRoutes this env (r :: l) [] n)))
    as [|[k w] s] eqn:E.
  - exfalso. apply sort_nil_inv in E.
    revert E. simpl.
    unfold bind, DCD.measureLatency, DCD.getCurrentLoad,
      DCD.calculateReliability, bind, random, ret.
    apply weighRoutes_not_nil. discriminate.
  - exists k, w, s. split; reflexivity.
Qed.

Lemma In_get {V} (k : string) (v : V) (m : Map V) :
  NoDup (keys m) -> In (k, v) m -> get k m = Some v.
Proof.
  induction m as [|[k' v'] m IH]; simpl; intros N I; [contradiction |].
  inversion N as [|? ? Hk Hm]; subst.
  destruct I as [[= -> ->] | I].
  - now rewrite String.eqb_refl.
  - destruct (String.eqb k k') eqn:E; [| auto].
    apply String.eqb_eq in E; subst k'. exfalso. apply Hk.
    unfold keys. change k with (fst (k, v)). now apply in_map.
Qed.

Lemma get_In {V} (k : string) (v : V) (m : Map V) :
  get k m = Some v -> In (k, v) m.
Proof.
  induction m as [|[k' v'] m IH]; simpl; [discriminate |].
  destruct (String.eqb k k') eqn:E.
  - apply String.eqb_eq in E; subst k'. intros [= ->]. now left.
  - intros H. right. auto.
Qed.

Lemma NoDup_fold_addKey (l : list string) :
  forall ks, NoDup ks -> NoDup (fold_left addKey l ks).
Proof.
  induction l as [|x l IH]; intros ks H; simpl; [exact H |].
  apply IH. unfold addKey.
  destruct (in_dec string_dec x ks) as [I | N]; [exact H |].
  apply NoDup_app; [exact H | repeat constructor; auto |].
  intros y Hy [<- | []]. contradiction.
Qed.

Lemma NoDup_keys_weighRoutes this env (l : list string) (n : nat) :
  NoDup (keys (fst (DCD.weighRoutes this env l [] n))).
Proof.
  rewrite keys_weighRoutes. apply NoDup_fold_addKey. constructor.
Qed.

(** X1: among at least one candidate the route scorer returns one of
    the candidates supplied, with the weight and the metrics scored for
    it; every candidate supplied has been scored, and no scored
    candidate weighs more than the one returned. *)
Theorem selectAmong_maximal :
  forall this env (r : string) (l : list string) (n : nat),
    let weighted := fst (DCD.weighRoutes this env (r :: l) [] n) in
    exists o,
      fst (DCD.selectAmong this env (r :: l) n) = Returns o
      /\ In (DCD.selectedRoute o) (r :: l)
      /\ get (DCD.selectedRoute o) weighted
         = Some (DCD.mkWeighted (DCD.selectedWeight o) (DCD.selectedMetrics o))
      /\ (forall c, In c (r :: l) -> exists w, get c weighted = Some w)
      /\ (forall c w, get c weighted = Some w ->
                      DCD.weight w <= DCD.selectedWeight o).
Proof.
  intros this env r l n weighted.
  destruct (selectAmong_head this env r l n) as [k [w [s [E R]]]].
  fold weighted in E.
  pose proof (sort_perm DCD.byWeightDesc weighted) as P.
  fold (DCD.sortedRoutes weighted) in P. rewrite E in P.
  pose proof (highestFirst_sortedRoutes weighted) as H. rewrite E in H.
  assert (K : keys weighted = insertionOrder (r :: l))
    by apply keys_weighRoutes.
  assert (I : In (k, w) weighted)
    by (eapply Permutation_in; [exact P | now left]).
  eexists. split; [exact R |].
  cbn [DCD.selectedRoute DCD.selectedMetrics DCD.selectedWeight].
  split; [| split; [| split]].
  - apply In_insertionOrder. rewrite <- K.
    unfold keys. change k with (fst (k, w)). now apply in_map.
  - destruct w as [ww wm]. apply In_get; [| exact I].
    apply NoDup_keys_weighRoutes.
  - intros c C. apply In_keys_get. rewrite K. now apply In_insertionOrder.
  - intros c v G. apply get_In in G.
    apply (highestFirst_head (k, w) s H (c, v)).
    eapply Permutation_in; [symmetry; exact P | exact G].
Qed.



(** ** The generated costs and the cheapest route (LCR) *)



Lemma cheapestFirst_head (e : string * LCR.RouteCost) s :
  LCR.cheapestFirst (e :: s) ->
  forall x, In x (e :: s) -> LCR.totalCost (snd e) <= LCR.totalCost (snd x).
Proof.
  intros H x [<- | I]; [lra |].
  inversion H as [|? ? _ F]; subst.
  rewrite Forall_forall in F. now apply F.
Qed.

Lemma findOptimalRoute_head this env (r : string) (l : list string) (n : nat) :
  exists k c s,
    LCR.sortedRoutes (fst (LCR.costRoutes this env (r :: l) [] n))
    = (k, c) :: s
    /\ fst (LCR.findOptimalRoute this env (r :: l) n)
       = Returns (LCR.mkOptimal k c).
Proof.
  unfold LCR.findOptimalRoute. rewrite bind_run. unfold ret; cbn [fst].
  destruct (LCR.sortedRoutes (fst (LCR.costRoutes this env (r :: l) [] n)))
    as [|[k c] s] eqn:E.
  - exfalso. apply sort_nil_inv in E.
    revert E. simpl.
    unfold bind, LCR.getRouteCosts, LCR.measureDelay, bind, random, ret.
    apply costRoutes_not_nil. discriminate.
  - exists k, c, s. split; reflexivity.
Qed.

Lemma NoDup_keys_costRoutes this env (l : list string) (n : nat) :
  NoDup (keys (fst (LCR.costRoutes this env l [] n))).
Proof.
  rewrite keys_costRoutes. apply NoDup_fold_addKey. constructor.
Qed.

(** X3: among at least one candidate the cheapest-route search returns
    one of the candidates supplied, with the cost record computed for
    it; every candidate supplied has been costed, and no costed
    candidate is cheaper than the one returned. *)
Theorem findOptimalRoute_minimal :
  forall this env (r : string) (l : list string) (n : nat),
    let costed := fst (LCR.costRoutes this env (r :: l) [] n) in
    exists o,
      fst (LCR.findOptimalRoute this env (r :: l) n) = Returns o
      /\ In (LCR.selectedRoute o) (r :: l)
      /\ get (LCR.selectedRoute o) costed = Some (LCR.metrics o)
      /\ (forall c, In c (r :: l) -> exists v, get c costed = Some v)
      /\ (forall c v, get c costed = Some v ->
                      LCR.totalCost (LCR.metrics o) <= LCR.totalCost v).
Proof.
  intros this env r l n costed.
  destruct (findOptimalRoute_head this env r l n) as [k [c [s [E R]]]].
  fold costed in E.
  pose proof (sort_perm LCR.byCostAsc costed) as P.
  fold (LCR.sortedRoutes costed) in P. rewrite E in P.
  pose proof (sort_ascending LCR.byCostAsc
                (fun e => LCR.totalCost (snd e)) byCostAsc_key costed) as H.
  fold (LCR.sortedRoutes costed) in H. rewrite E in H.
  assert (K : keys costed = insertionOrder (r :: l))
    by apply keys_costRoutes.
  assert (I : In (k, c) costed)
    by (eapply Permutation_in; [exact P | now left]).
  eexists. split; [exact R |].
  cbn [LCR.selectedRoute LCR.metrics].
  split; [| split; [| split]].
  - apply In_insertionOrder. rewrite <- K.
    unfold keys. change k with (fst (k, c)). now apply in_map.
  - apply In_get; [| exact I]. apply NoDup_keys_costRoutes.
  - intros x X. apply In_keys_get. rewrite K. now apply In_insertionOrder.
  - intros x v G. apply get_In in G.
    apply (cheapestFirst_head (k, c) s H (x, v)).
    eapply Permutation_in; [symmetry; exact P | exact G].
Qed.



Lemma fold_left_ext_in {B C} (f g : B -> C -> B) (l : list C) (acc : B) :
  (forall a x, In x l -> f a x = g a x) ->
  fold_left f l acc = fold_left g l acc.
Proof.
  revert acc. induction l as [|x l IH]; intros acc E; simpl; [reflexivity |].
  rewrite E by now left. apply IH. intros a y Y. apply E. now right.
Qed.

Lemma index_firstn (ws : list (option Q)) (k i : nat) :
  (i < k)%nat -> LCR.index (firstn k ws) i = LCR.index ws i.
Proof.
  intros L. unfold LCR.index. now rewrite nth_error_firstn, (proj2 (Nat.ltb_lt i k) L).
Qed.

(** X5: the total cost reads one weight per component cost and no
    more: weights past the last cost are ignored, a route with no costs
    costs its delay penalty alone, and with no weights at all every
    component counts in full. *)
Theorem calculateTotalCost_reads_costs :
  forall this (cs : list Q) (ws ws' : list (option Q)) (delay : Q),
    (firstn (List.length cs) ws = firstn (List.length cs) ws' ->
     LCR.calculateTotalCost this (LCR.mkRoute (Some cs) (Some ws)) delay
     = LCR.calculateTotalCost this (LCR.mkRoute (Some cs) (Some ws')) delay)
    /\ LCR.calculateTotalCost this (LCR.mkRoute None (Some ws)) delay
       == LCR.DELAY_PENALTY_FACTOR this * delay
    /\ LCR.calculateTotalCost this (LCR.mkRoute (Some cs) None) delay
       == fold_right Qplus 0 cs + LCR.DELAY_PENALTY_FACTOR this * delay.
Proof.
  intros this cs ws ws' delay. split; [| split].
  - intros H. unfold LCR.calculateTotalCost. cbn [LCR.costs LCR.weights].
    f_equal. apply fold_left_ext_in. intros a i I.
    apply in_seq in I. destruct I as [_ I]. simpl in I.
    rewrite <- (index_firstn ws (List.length cs) i I),
      <- (index_firstn ws' (List.length cs) i I), H. reflexivity.
  - unfold LCR.calculateTotalCost. simpl. ring.
  - unfold LCR.calculateTotalCost. cbn [LCR.costs LCR.weights].
    rewrite (weighted_loop_spec cs [] 0) by constructor.
    assert (E : LCR.spec_weightedCost cs [] == fold_right Qplus 0 cs).
    { induction cs as [|c cs IH]; simpl; [reflexivity |]. rewrite IH. ring. }
    rewrite E. ring.
Qed.

Lemma calculateTotalCost_reads_costs_witness :
  LCR.calculateTotalCost LCR.constructor
    (LCR.mkRoute (Some [4; 2]) (Some [Some 0.5; Some 0.3; Some 9])) 40
  = LCR.calculateTotalCost LCR.constructor
      (LCR.mkRoute (Some [4; 2]) (Some [Some 0.5; Some 0.3])) 40.
Proof.
  refine (proj1 (calculateTotalCost_reads_costs LCR.constructor [4; 2]
                   [Some 0.5; Some 0.3; Some 9] [Some 0.5; Some 0.3] 40) _).
  reflexivity.
Defined.

(** ** The route store (LCR) *)

Lemma get_updateRouteCosts_same routes env routeId newMetrics :
  exists r,
    get routeId (LCRRoutes.updateRouteCosts routes env routeId newMetrics)
    = Some r
    /\ LCRRoutes.lastUpdated r = Date_now env
    /\ LCRRoutes.costs (LCRRoutes.data r)
       = LCRRoutes.spread
           (match get routeId routes with
            | Some o => LCRRoutes.costs (LCRRoutes.data o)
            | None => None
            end) (LCRRoutes.costs newMetrics)
    /\ LCRRoutes.successRate (LCRRoutes.data r)
       = LCRRoutes.spread
           (match get routeId routes with
            | Some o => LCRRoutes.successRate (LCRRoutes.data o)
            | None => None
            end) (LCRRoutes.successRate newMetrics)
    /\ LCRRoutes.totalCalls (LCRRoutes.data r)
       = LCRRoutes.spread
           (match get routeId routes with
            | Some o => LCRRoutes.totalCalls (LCRRoutes.data o)
            | None => None
            end) (LCRRoutes.totalCalls newMetrics).
Proof.
  unfold LCRRoutes.updateRouteCosts. rewrite get_set_same.
  eexists. split; [reflexivity |]. cbn.
  destruct (get routeId routes); repeat split; reflexivity.
Qed.

Lemma get_updateRouteCosts_other routes env routeId newMetrics k :
  k <> routeId ->
  get k (LCRRoutes.updateRouteCosts routes env routeId newMetrics)
  = get k routes.
Proof.
  intros N. unfold LCRRoutes.updateRouteCosts. now apply get_set_other.
Qed.

Lemma getRouteStats_get routes routes' k :
  get k routes' = get k routes ->
  LCRRoutes.getRouteStats routes' k = LCRRoutes.getRouteStats routes k.
Proof.
  intros E. unfold LCRRoutes.getRouteStats. now rewrite E.
Qed.

Lemma average_nonempty (c : Q) (cs : list Q) :
  Num.eq (LCRRoutes.average (c :: cs))
    (Fin (fold_right Qplus 0 (c :: cs)
          / inject_Z (Z.of_nat (List.length (c :: cs))))).
Proof.
  unfold LCRRoutes.average, div.
  assert (Z : Qeq_bool (inject_Z (Z.of_nat (List.length (c :: cs)))) 0 = false).
  { destruct (Qeq_bool _ 0) eqn:E; [| reflexivity].
    apply Qeq_bool_iff in E. unfold Qeq in E. simpl in E. lia. }
  rewrite Z. unfold Num.eq.
  assert (S : forall l a, fold_left (fun a b => a + b) l a
                          == a + fold_right Qplus 0 l).
  { induction l as [|x l IH]; intros a; simpl; [ring |]. rewrite IH. ring. }
  rewrite S. apply Qeq_bool_neq in Z.
  field. exact Z.
Qed.

(** X6: after [updateRouteCosts] has stored costs for a route,
    [getRouteStats] of that route returns statistics whose average
    cost is the mean of those costs and whose update time is the time
    of the update; the statistics of every other route are unchanged. *)
Theorem getRouteStats_after_update :
  forall routes env routeId newMetrics (c : Q) (cs : list Q),
    LCRRoutes.costs newMetrics = Some (c :: cs) ->
    (exists s,
        LCRRoutes.getRouteStats
          (LCRRoutes.updateRouteCosts routes env routeId newMetrics) routeId
        = Returns (Some s)
        /\ Num.eq (LCRRoutes.averageCost s)
             (Fin (fold_right Qplus 0 (c :: cs)
                   / inject_Z (Z.of_nat (List.length (c :: cs)))))
        /\ LCRRoutes.statsLastUpdated s = Date_now env)
    /\ forall k, k <> routeId ->
         LCRRoutes.getRouteStats
           (LCRRoutes.updateRouteCosts routes env routeId newMetrics) k
         = LCRRoutes.getRouteStats routes k.
Proof.
  intros routes env routeId newMetrics c cs C. split.
  - destruct (get_updateRouteCosts_same routes env routeId newMetrics)
      as [r [G [T [K _]]]].
    unfold LCRRoutes.getRouteStats. rewrite G, K, C. cbn [LCRRoutes.spread].
    eexists. split; [reflexivity |].
    cbn [LCRRoutes.averageCost LCRRoutes.statsLastUpdated].
    split; [apply average_nonempty | exact T].
  - intros k N. apply getRouteStats_get.
    now apply get_updateRouteCosts_other.
Qed.

Lemma getRouteStats_after_update_witness :
  exists s,
    LCRRoutes.getRouteStats
      (LCRRoutes.updateRouteCosts [] (mkEnv (fun _ => 0) 7) "route1"
         (LCRRoutes.mkRouteData (Some [4; 2; 3]) None None)) "route1"
    = Returns (Some s)
    /\ LCRRoutes.statsLastUpdated s = 7%Z.
Proof.
  destruct (proj1 (getRouteStats_after_update [] (mkEnv (fun _ => 0) 7)
                     "route1"
                     (LCRRoutes.mkRouteData (Some [4; 2; 3]) None None)
                     4 [2; 3] eq_refl)) as [s [E [_ T]]].
  exists s. split; assumption.
Defined.

(** The costs stored for a route after a sequence of updates none of
    which supplies costs for it. *)
Lemma updates_keep_costs (l : list (Env * string * LCRRoutes.RouteData)) :
  forall routes routeId r,
    get routeId routes = Some r ->
    LCRRoutes.no_costs_for routeId l ->
    exists r',
      get routeId (LCRRoutes.updates routes l) = Some r'
      /\ LCRRoutes.costs (LCRRoutes.data r')
         = LCRRoutes.costs (LCRRoutes.data r).
Proof.
  induction l as [|[[env id] nm] l IH]; intros routes routeId r G H.
  - exists r. split; [exact G | reflexivity].
  - inversion H as [|? ? Hu Hl]; subst. cbn [fst snd] in Hu.
    unfold LCRRoutes.updates. cbn [fold_left fst snd].
    fold (LCRRoutes.updates (LCRRoutes.updateRouteCosts routes env id nm) l).
    destruct (string_dec id routeId) as [-> | N].
    + destruct (get_updateRouteCosts_same routes env routeId nm)
        as [r1 [G1 [_ [K1 _]]]].
      rewrite G, (Hu eq_refl) in K1. cbn [LCRRoutes.spread] in K1.
      destruct (IH _ routeId r1 G1 Hl) as [r' [G' K']].
      exists r'. split; [exact G' | congruence].
    + apply IH; [| exact Hl].
      rewrite get_updateRouteCosts_other; [exact G | congruence].
Qed.

(** X7: the costs of a route persist: after an update that supplies
    costs for a route, any sequence of further updates that supply no
    costs for that route (of its other properties, or of other routes)
    leaves its average cost that of the costs supplied. *)
Theorem getRouteStats_costs_persist :
  forall routes env routeId newMetrics cs l,
    LCRRoutes.costs newMetrics = Some cs ->
    LCRRoutes.no_costs_for routeId l ->
    exists s,
      LCRRoutes.getRouteStats
        (LCRRoutes.updates
           (LCRRoutes.updateRouteCosts routes env routeId newMetrics) l)
        routeId
      = Returns (Some s)
      /\ LCRRoutes.averageCost s = LCRRoutes.average cs.
Proof.
  intros routes env routeId newMetrics cs l C H.
  destruct (get_updateRouteCosts_same routes env routeId newMetrics)
    as [r [G [_ [K _]]]].
  rewrite C in K. cbn [LCRRoutes.spread] in K.
  destruct (updates_keep_costs l _ routeId r G H) as [r' [G' K']].
  unfold LCRRoutes.getRouteStats. rewrite G', K', K.
  eexists. split; reflexivity.
Qed.

Lemma getRouteStats_costs_persist_witness :
  exists s,
    LCRRoutes.getRouteStats
      (LCRRoutes.updates
         (LCRRoutes.updateRouteCosts [] (mkEnv (fun _ => 0) 7) "route1"
            (LCRRoutes.mkRouteData (Some [4; 2]) None None))
         [(mkEnv (fun _ => 0) 8, "route1",
           LCRRoutes.mkRouteData None (Some 5) None);
          (mkEnv (fun _ => 0) 9, "route2",
           LCRRoutes.mkRouteData (Some [1]) None None)])
      "route1"
    = Returns (Some s)
    /\ LCRRoutes.averageCost s = LCRRoutes.average [4; 2].
Proof.
  apply (getRouteStats_costs_persist [] (mkEnv (fun _ => 0) 7) "route1"
           (LCRRoutes.mkRouteData (Some [4; 2]) None None) [4; 2]).
  - reflexivity.
  - repeat constructor; simpl; intros; try reflexivity; discriminate.
Defined.

Lemma updates_get_None (l : list (Env * string * LCRRoutes.RouteData)) :
  forall routes k,
    get k routes = None -> ~ In k (LCRRoutes.updated l) ->
    get k (LCRRoutes.updates routes l) = None.
Proof.
  induction l as [|[[env id] nm] l IH]; intros routes k G N; [exact G |].
  unfold LCRRoutes.updates. cbn [fold_left fst snd].
  fold (LCRRoutes.updates (LCRRoutes.updateRouteCosts routes env id nm) l).
  simpl in N. apply IH; [| tauto].
  rewrite get_updateRouteCosts_other; [exact G | intros ->; tauto].
Qed.

Lemma updates_no_costs (l : list (Env * string * LCRRoutes.RouteData)) :
  forall routes routeId,
    (get routeId routes = None
     \/ exists r, get routeId routes = Some r
                  /\ LCRRoutes.costs (LCRRoutes.data r) = None) ->
    LCRRoutes.no_costs_for routeId l ->
    get routeId (LCRRoutes.updates routes l) = None
    \/ exists r, get routeId (LCRRoutes.updates routes l) = Some r
                 /\ LCRRoutes.costs (LCRRoutes.data r) = None.
Proof.
  induction l as [|[[env id] nm] l IH]; intros routes routeId G H;
    [exact G |].
  inversion H as [|? ? Hu Hl]; subst. cbn [fst snd] in Hu.
  unfold LCRRoutes.updates. cbn [fold_left fst snd].
  fold (LCRRoutes.updates (LCRRoutes.updateRouteCosts routes env id nm) l).
  apply IH; [| exact Hl].
  destruct (string_dec id routeId) as [-> | N].
  - right.
    destruct (get_updateRouteCosts_same routes env routeId nm)
      as [r1 [G1 [_ [K1 _]]]].
    exists r1. split; [exact G1 |].
    rewrite K1, (Hu eq_refl).
    destruct G as [-> | [r [-> K]]]; [reflexivity | exact K].
  - rewrite get_updateRouteCosts_other by congruence. exact G.
Qed.

Lemma updates_get_Some (l : list (Env * string * LCRRoutes.RouteData)) :
  forall routes k,
    In k (LCRRoutes.updated l) ->
    exists r, get k (LCRRoutes.updates routes l) = Some r.
Proof.
  induction l as [|[[env id] nm] l IH]; intros routes k I; [contradiction |].
  unfold LCRRoutes.updates. cbn [fold_left fst snd].
  fold (LCRRoutes.updates (LCRRoutes.updateRouteCosts routes env id nm) l).
  destruct (in_dec string_dec k (LCRRoutes.updated l)) as [J | J].
  - now apply IH.
  - destruct I as [E | I]; [| contradiction]. cbn [fst snd] in E. subst id.
    destruct (get_updateRouteCosts_same routes env k nm) as [r1 [G1 _]].
    revert r1 G1.
    generalize (LCRRoutes.updateRouteCosts routes env k nm). clear - J.
    induction l as [|[[env id] nm] l IH]; intros rs r1 G1; [eauto |].
    unfold LCRRoutes.updates. cbn [fold_left fst snd].
    fold (LCRRoutes.updates (LCRRoutes.updateRouteCosts rs env id nm) l).
    simpl in J.
    apply (IH ltac:(tauto) _ r1).
    rewrite get_updateRouteCosts_other; [exact G1 | intros ->; tauto].
Qed.

(** X8: in a store filled by updates alone, [getRouteStats] returns
    null exactly for the routes no update names; for a route that was
    updated but never given costs it throws a [TypeError] (it reads
    [reduce] of the missing costs). *)
Theorem getRouteStats_missing :
  forall (l : list (Env * string * LCRRoutes.RouteData)) (routeId : string),
    (LCRRoutes.getRouteStats (LCRRoutes.updates [] l) routeId = Returns None
     <-> ~ In routeId (LCRRoutes.updated l))
    /\ (In routeId (LCRRoutes.updated l) ->
        LCRRoutes.no_costs_for routeId l ->
        LCRRoutes.getRouteStats (LCRRoutes.updates [] l) routeId
        = Throws (TypeError
                    "Cannot read properties of undefined (reading 'reduce')")).
Proof.
  intros l routeId. split; [split |].
  - intros H I. destruct (updates_get_Some l [] routeId I) as [r G].
    unfold LCRRoutes.getRouteStats in H. rewrite G in H.
    destruct (LCRRoutes.costs (LCRRoutes.data r)); discriminate H.
  - intros N. unfold LCRRoutes.getRouteStats.
    now rewrite (updates_get_None l [] routeId eq_refl N).
  - intros I H.
    destruct (updates_get_Some l [] routeId I) as [r G].
    destruct (updates_no_costs l [] routeId (or_introl eq_refl) H)
      as [F | [r' [G' K]]]; [congruence |].
    unfold LCRRoutes.getRouteStats. now rewrite G', K.
Qed.

(** X9: a success rate of 0 stored for a route is reported as 1 by
    [getRouteStats] (0 is falsy in [route.successRate || 1.0]), and so
    is a success rate never stored; any other stored rate is reported
    as it is. *)
Theorem getRouteStats_successRate :
  forall routes env routeId newMetrics cs,
    LCRRoutes.costs newMetrics = Some cs ->
    exists s,
      LCRRoutes.getRouteStats
        (LCRRoutes.updateRouteCosts routes env routeId newMetrics) routeId
      = Returns (Some s)
      /\ (forall q, LCRRoutes.successRate newMetrics = Some q ->
                    (q == 0 -> LCRRoutes.statsSuccessRate s = 1)
                    /\ (~ q == 0 -> LCRRoutes.statsSuccessRate s = q))
      /\ (LCRRoutes.successRate newMetrics = None ->
          get routeId routes = None ->
          LCRRoutes.statsSuccessRate s = 1).
Proof.
  intros routes env routeId newMetrics cs C.
  destruct (get_updateRouteCosts_same routes env routeId newMetrics)
    as [r [G [_ [K [S _]]]]].
  unfold LCRRoutes.getRouteStats. rewrite G, K, C. cbn [LCRRoutes.spread].
  eexists. split; [reflexivity |]. cbn [LCRRoutes.statsSuccessRate].
  rewrite S. split.
  - intros q Q. rewrite Q. cbn [LCRRoutes.spread LCR.or_default]. split.
    + intros Z. apply Qeq_bool_iff in Z. now rewrite Z.
    + intros Z. destruct (Qeq_bool q 0) eqn:E; [| reflexivity].
      apply Qeq_bool_iff in E. contradiction.
  - intros Q N. rewrite Q, N. reflexivity.
Qed.

Lemma getRouteStats_successRate_witness :
  exists s,
    LCRRoutes.getRouteStats
      (LCRRoutes.updateRouteCosts [] (mkEnv (fun _ => 0) 7) "route1"
         (LCRRoutes.mkRouteData (Some [4]) None (Some 0))) "route1"
    = Returns (Some s)
    /\ LCRRoutes.statsSuccessRate s = 1.
Proof.
  destruct (getRouteStats_successRate [] (mkEnv (fun _ => 0) 7) "route1"
              (LCRRoutes.mkRouteData (Some [4]) None (Some 0)) [4] eq_refl)
    as [s [E [H _]]].
  exists s. split; [exact E |].
  apply (proj1 (H 0 eq_refl)). reflexivity.
Defined.

(** ** Baselines (ADS) *)










Lemma sub_NaN (a : jsnum) : sub a NaN = NaN.
Proof. destruct a; reflexivity. Qed.

(** X12: [updateBaseline] on the empty window stores a baseline whose
    mean is [NaN] (0 / 0); from then on [detectAnomaly] flags no value
    of that metric, so that its block of [processCallMetrics] reports
    nothing. *)
Theorem updateBaseline_empty_window :
  forall sqrt this env metricName,
    let this' := ADS.updateBaseline sqrt this env metricName [] in
    (exists b, get metricName (ADS.baselineMetrics this') = Some b
               /\ ADS.mean b = NaN)
    /\ (forall env' value,
           ADS.flagged (ADS.detectAnomaly this' env' metricName value) = false)
    /\ (forall env' type field anomalies,
           ADS.checkMetric this' env' type metricName field anomalies
           = anomalies).
Proof.
  intros sqrt this env metricName this'.
  assert (G : get metricName (ADS.baselineMetrics this')
              = Some (ADS.mkBaseline NaN
                        (sqrt (ADS.varianceOf [] (ADS.meanOf [])))
                        (Date_now env))).
  { subst this'. unfold ADS.updateBaseline. cbn [ADS.baselineMetrics].
    now rewrite get_set_same. }
  assert (F : forall env' value,
             ADS.flagged (ADS.detectAnomaly this' env' metricName value)
             = false).
  { intros env' value. unfold ADS.detectAnomaly. rewrite G.
    cbn [ADS.mean ADS.flagged ADS.isAnomaly]. rewrite sub_NaN.
    cbn [abs div]. unfold gtb.
    destruct (toNumber (or_default _ _)); reflexivity. }
  split; [eexists; split; [exact G | reflexivity] |].
  split; [exact F |].
  intros env' type field anomalies. unfold ADS.checkMetric.
  destruct field as [value|]; [| reflexivity].
  destruct (truthy value); [| reflexivity].
  specialize (F env' value).
  destruct (ADS.detectAnomaly this' env' metricName value) as [|r];
    [reflexivity |].
  simpl in F. now rewrite F.
Qed.

(** ** Detection against a baseline (ADS) *)

Lemma spec_threshold_positive (metricName : string) :
  0 < ADS.spec_threshold metricName.
Proof.
  unfold ADS.spec_threshold.
  repeat match goal with |- context [String.eqb ?a ?b] =>
    destruct (String.eqb a b) end; reflexivity.
Qed.

(** Under the name of an inherited member the threshold read is that
    member, and no value is flagged. *)
Lemma detectAnomaly_inherited this env metricName value :
  ADS.anomalyThresholds this = ADS.anomalyThresholds ADS.constructor ->
  inherited metricName = true ->
  ADS.flagged (ADS.detectAnomaly this env metricName value) = false.
Proof.
  intros T I. unfold ADS.detectAnomaly.
  destruct (get metricName (ADS.baselineMetrics this)); [| reflexivity].
  rewrite T, (constructor_threshold_inherited _ I).
  cbn [ADS.flagged ADS.isAnomaly toNumber]. unfold gtb. reflexivity.
Qed.

Lemma detectAnomaly_flagged this env metricName b (m v : Q) :
  get metricName (ADS.baselineMetrics this) = Some b ->
  ADS.mean b = Fin m ->
  ~ m == 0 ->
  ADS.anomalyThresholds this = ADS.anomalyThresholds ADS.constructor ->
  inherited metricName = false ->
  (ADS.flagged (ADS.detectAnomaly this env metricName (Fin v)) = true
   <-> ADS.spec_threshold metricName < Qabs (v - m) / m).
Proof.
  intros G M N T I. unfold ADS.detectAnomaly. rewrite G, M, T.
  assert (Z : Qeq_bool m 0 = false).
  { destruct (Qeq_bool m 0) eqn:E; [| reflexivity].
    apply Qeq_bool_iff in E. contradiction. }
  cbn [ADS.flagged ADS.isAnomaly sub neg add abs div]. rewrite Z.
  destruct (constructor_threshold metricName I) as [t [-> Et]].
  unfold gtb. cbn [toNumber ltb]. change (v + - m) with (v - m).
  destruct (Qle_bool (Qabs (v - m) / m) t) eqn:L; cbn [negb].
  - apply Qle_bool_iff in L. split; [discriminate |].
    intros F. exfalso. rewrite <- Et in F. lra.
  - split; [intros _ | reflexivity].
    rewrite <- Et. apply Qnot_le_lt. intros F.
    apply Qle_bool_iff in F. congruence.
Qed.




(** X14: against a stored baseline whose mean is a negative number,
    and with the thresholds of the constructor, [detectAnomaly] flags
    no observed number: the relative deviation is never positive. *)
Theorem detectAnomaly_negative_mean :
  forall this env metricName b (m v : Q),
    get metricName (ADS.baselineMetrics this) = Some b ->
    ADS.mean b = Fin m ->
    m < 0 ->
    ADS.anomalyThresholds this = ADS.anomalyThresholds ADS.constructor ->
    ADS.flagged (ADS.detectAnomaly this env metricName (Fin v)) = false.
Proof.
  intros this env metricName b m v G M N T.
  destruct (inherited metricName) eqn:I;
    [now apply detectAnomaly_inherited |].
  destruct (ADS.flagged (ADS.detectAnomaly this env metricName (Fin v))) eqn:F;
    [| reflexivity].
  exfalso.
  apply (detectAnomaly_flagged this env metricName b m v G M) in F;
    [| lra | exact T | exact I].
  pose proof (spec_threshold_positive metricName) as P.
  pose proof (Qabs_nonneg (v - m)) as A.
  assert (E : Qabs (v - m) == Qabs (v - m) / m * m) by (field; lra).
  set (d := Qabs (v - m) / m) in *.
  assert (Qd : 0 < d) by lra.
  nra.
Qed.

Lemma detectAnomaly_negative_mean_witness :
  ADS.flagged
    (ADS.detectAnomaly
       (ADS.mkADS [("latency", ADS.mkBaseline (Fin (-10)) (Fin 1) 0)]
          (ADS.anomalyThresholds ADS.constructor))
       (mkEnv (fun _ => 0) 7) "latency" (Fin 1000)) = false.
Proof.
  apply (detectAnomaly_negative_mean _ _ "latency"
           (ADS.mkBaseline (Fin (-10)) (Fin 1) 0) (-10) 1000);
    reflexivity.
Defined.

(** ** The anomalies of a call (ADS) *)

Lemma detectAnomaly_Deviation this env metricName value r :
  ADS.detectAnomaly this env metricName value = ADS.Deviation r ->
  ADS.isAnomaly r = gtb (ADS.deviation r) (toNumber (ADS.threshold r))
  /\ ADS.timestamp r = Date_now env
  /\ ADS.currentValue r = value.
Proof.
  unfold ADS.detectAnomaly.
  destruct (get metricName (ADS.baselineMetrics this)); [| discriminate].
  intros [= <-]. repeat split.
Qed.

(** One block either leaves the anomalies as they are or pushes one
    anomaly of its type for the truthy value of its field. *)
Lemma checkMetric_cases this env type metricName field anomalies :
  ADS.checkMetric this env type metricName field anomalies = anomalies
  \/ exists r,
       ADS.checkMetric this env type metricName field anomalies
       = (anomalies ++ [ADS.mkAnomaly type r])%list
       /\ ADS.pushed env (ADS.mkAnomaly type r)
       /\ field = Some (ADS.currentValue r)
       /\ truthy (ADS.currentValue r) = true.
Proof.
  unfold ADS.checkMetric.
  destruct field as [value|]; [| now left].
  destruct (truthy value) eqn:Tr; [| now left].
  destruct (ADS.detectAnomaly this env metricName value) as [|r] eqn:D;
    [now left |].
  destruct (ADS.isAnomaly r) eqn:I; [| now left].
  right. exists r. apply detectAnomaly_Deviation in D.
  destruct D as [G [T C]]. subst value.
  unfold ADS.pushed. cbn [ADS.report].
  repeat split; try assumption. now rewrite <- G.
Qed.

(** X15: every anomaly [processCallMetrics] returns is flagged, lies
    beyond its threshold, carries the time of the call and the (truthy)
    value of the field it was read from; the anomalies come in the
    order callVolume, duration, failureRate, at most one of each. *)
Theorem processCallMetrics_shape :
  forall this env metrics,
    let out := ADS.processCallMetrics this env metrics in
    Forall (ADS.pushed env) out
    /\ Forall (fun a =>
                 ADS.fieldOf metrics (ADS.type a)
                 = Some (ADS.currentValue (ADS.report a))
                 /\ truthy (ADS.currentValue (ADS.report a)) = true) out
    /\ exists b1 b2 b3 : bool,
         map ADS.type out
         = ((if b1 then ["callVolume"] else [])
            ++ (if b2 then ["duration"] else [])
            ++ (if b3 then ["failureRate"] else []))%list.
Proof.
  intros this env metrics out. subst out. unfold ADS.processCallMetrics.
  destruct (checkMetric_cases this env "callVolume" "callVolume"
              (ADS.callVolume metrics) []) as [-> | [r1 [-> [P1 [F1 T1]]]]];
  match goal with |- context [ADS.checkMetric this env "duration" "duration"
                                ?f ?l] =>
    destruct (checkMetric_cases this env "duration" "duration" f l)
      as [-> | [r2 [-> [P2 [F2 T2]]]]] end;
  match goal with |- context [ADS.checkMetric this env "failureRate"
                                "failureRate" ?f ?l] =>
    destruct (checkMetric_cases this env "failureRate" "failureRate" f l)
      as [-> | [r3 [-> [P3 [F3 T3]]]]] end;
  cbn [app];
  (split; [repeat (apply Forall_cons; [assumption |]); apply Forall_nil |]);
  (split; [repeat (apply Forall_cons; [split; assumption |]);
           apply Forall_nil |]).
  - exists false, false, false. reflexivity.
  - exists false, false, true. reflexivity.
  - exists false, true, false. reflexivity.
  - exists false, true, true. reflexivity.
  - exists true, false, false. reflexivity.
  - exists true, false, true. reflexivity.
  - exists true, true, false. reflexivity.
  - exists true, true, true. reflexivity.
Qed.

(** ** The risk score as a function of the deviations (ADS) *)

Lemma spec_weight_positive (t : string) : 0 < ADS.spec_weight t.
Proof.
  unfold ADS.spec_weight.
  repeat match goal with |- context [String.eqb ?a ?b] =>
    destruct (String.eqb a b) end; reflexivity.
Qed.

Lemma spec_sum_app (l1 l2 : list (string * Q)) :
  ADS.spec_sum (l1 ++ l2) == ADS.spec_sum l1 + ADS.spec_sum l2.
Proof.
  induction l1 as [|[t d] l1 IH]; simpl; [ring |]. rewrite IH. ring.
Qed.

Lemma risk_of_finite env (anomalies : list ADS.Anomaly) :
  anomalies <> [] ->
  Forall ADS.finite_deviation anomalies ->
  Forall ADS.plain_type anomalies ->
  exists s,
    s == ADS.spec_sum (ADS.typed_deviations anomalies)
    /\ ADS.score (ADS.calculateRiskScore env anomalies) = Fin (Qmin 1 s)
    /\ ADS.level (ADS.calculateRiskScore env anomalies)
       = (if Qle_bool 0.3 (Qmin 1 s)
          then if Qle_bool 0.7 (Qmin 1 s) then ADS.high else ADS.medium
          else ADS.low).
Proof.
  intros N H P. destruct anomalies as [|a l]; [congruence |].
  destruct (risk_loop (a :: l) 0 H P) as [t [Et Es]].
  unfold ADS.calculateRiskScore. cbv zeta. rewrite Et.
  cbn [ADS.score ADS.level min ltb].
  exists t. split; [rewrite Es; ring |]. split; [reflexivity |].
  destruct (Qle_bool 0.3 (Qmin 1 t)); [| reflexivity].
  destruct (Qle_bool 0.7 (Qmin 1 t)); reflexivity.
Qed.

Lemma band_rank (s s' : Q) :
  s <= s' ->
  (ADS.rank (if Qle_bool 0.3 s
             then if Qle_bool 0.7 s then ADS.high else ADS.medium
             else ADS.low)
   <= ADS.rank (if Qle_bool 0.3 s'
                then if Qle_bool 0.7 s' then ADS.high else ADS.medium
                else ADS.low))%nat.
Proof.
  intros L.
  assert (B : forall c x y, x <= y -> Qle_bool c x = true ->
                            Qle_bool c y = true).
  { intros c x y Lxy H. apply Qle_bool_iff in H. apply Qle_bool_iff. lra. }
  destruct (Qle_bool 0.3 s) eqn:A3; [rewrite (B _ _ _ L A3) |];
    destruct (Qle_bool 0.7 s) eqn:A7; try rewrite (B _ _ _ L A7);
    simpl; repeat match goal with |- context [Qle_bool ?c ?x] =>
                    destruct (Qle_bool c x) end; simpl; lia.
Qed.

Lemma plain_or_inherited (anomalies : list ADS.Anomaly) :
  Forall ADS.plain_type anomalies
  \/ Exists (fun x => inherited (ADS.type x) = true) anomalies.
Proof.
  induction anomalies as [|x l [IH | IH]].
  - left. constructor.
  - destruct (inherited (ADS.type x)) eqn:I.
    + right. now apply Exists_cons_hd.
    + left. now constructor.
  - right. now apply Exists_cons_tl.
Qed.

(** X16: the risk never decreases when one deviation grows.  For
    anomalies with finite deviations, raising the deviation of one
    anomaly (its type kept) gives a risk level at least as high.  When
    no type is the name of a member every object inherits, the two
    scores are numbers, the second at least as large as the first and
    at most 1; when some type is such a name ([toString],
    [constructor], ...), both scores are [NaN] and both levels high. *)
Theorem calculateRiskScore_monotone :
  forall env pre post a a' (d d' : Q),
    ADS.deviation (ADS.report a) = Fin d ->
    ADS.deviation (ADS.report a') = Fin d' ->
    ADS.type a' = ADS.type a ->
    d <= d' ->
    Forall ADS.finite_deviation pre ->
    Forall ADS.finite_deviation post ->
    let risk := ADS.calculateRiskScore env (pre ++ a :: post) in
    let risk' := ADS.calculateRiskScore env (pre ++ a' :: post) in
    (ADS.rank (ADS.level risk) <= ADS.rank (ADS.level risk'))%nat
    /\ (Forall ADS.plain_type (pre ++ a :: post) ->
        exists s s',
          ADS.score risk = Fin s /\ ADS.score risk' = Fin s'
          /\ s <= s' /\ s' <= 1)
    /\ (Exists (fun x => inherited (ADS.type x) = true) (pre ++ a :: post) ->
        ADS.score risk = NaN /\ ADS.score risk' = NaN
        /\ ADS.level risk = ADS.high /\ ADS.level risk' = ADS.high).
Proof.
  intros env pre post a a' d d' D D' T L Hpre Hpost risk risk'.
  assert (F : forall x e, ADS.deviation (ADS.report x) = Fin e ->
                          Forall ADS.finite_deviation (pre ++ x :: post)).
  { intros x e X. apply Forall_app. split; [exact Hpre |].
    constructor; [| exact Hpost].
    unfold ADS.finite_deviation. now rewrite X. }
  assert (N : forall x, (pre ++ x :: post)%list <> [])
    by (intros x; destruct pre; discriminate).
  assert (P' : Forall ADS.plain_type (pre ++ a :: post) ->
               Forall ADS.plain_type (pre ++ a' :: post)).
  { intros P. apply Forall_app in P. destruct P as [P1 P2].
    inversion P2 as [|? ? Pa Pp]; subst.
    apply Forall_app. split; [exact P1 |].
    constructor; [| exact Pp]. unfold ADS.plain_type in *. now rewrite T. }
  assert (I' : Exists (fun x => inherited (ADS.type x) = true)
                 (pre ++ a :: post) ->
               Exists (fun x => inherited (ADS.type x) = true)
                 (pre ++ a' :: post)).
  { intros E. apply Exists_app in E. apply Exists_app.
    destruct E as [E | E]; [now left | right].
    inversion E as [? ? Ia | ? ? Ip]; subst.
    - apply Exists_cons_hd. now rewrite T.
    - now apply Exists_cons_tl. }
  assert (Plain : Forall ADS.plain_type (pre ++ a :: post) ->
            exists s s',
              (ADS.score risk = Fin s /\ ADS.score risk' = Fin s'
               /\ s <= s' /\ s' <= 1)
              /\ (ADS.rank (ADS.level risk)
                  <= ADS.rank (ADS.level risk'))%nat).
  { intros P. subst risk risk'.
    destruct (risk_of_finite env _ (N a) (F a d D) P) as [s [Es [Ss Ls]]].
    destruct (risk_of_finite env _ (N a') (F a' d' D') (P' P))
      as [s' [Es' [Ss' Ls']]].
    exists (Qmin 1 s), (Qmin 1 s').
    assert (M : s <= s').
    { rewrite Es, Es'. unfold ADS.typed_deviations.
      rewrite !map_app, !spec_sum_app. cbn [map ADS.spec_sum].
      rewrite D, D', T. cbn [ADS.finite_part].
      pose proof (spec_weight_positive (ADS.type a)) as W.
      assert (d * ADS.spec_weight (ADS.type a)
              <= d' * ADS.spec_weight (ADS.type a)) by nra.
      lra. }
    assert (Mm : Qmin 1 s <= Qmin 1 s') by now apply Q.min_le_compat_l.
    split.
    - split; [exact Ss |]. split; [exact Ss' |]. split; [exact Mm |].
      apply Q.le_min_l.
    - rewrite Ls, Ls'. now apply band_rank. }
  assert (Inh : Exists (fun x => inherited (ADS.type x) = true)
                  (pre ++ a :: post) ->
                ADS.score risk = NaN /\ ADS.score risk' = NaN
                /\ ADS.level risk = ADS.high /\ ADS.level risk' = ADS.high).
  { intros E. subst risk risk'.
    destruct (calculateRiskScore_inherited env _ E) as [S1 L1].
    destruct (calculateRiskScore_inherited env _ (I' E)) as [S2 L2].
    auto. }
  split; [| split].
  - destruct (plain_or_inherited (pre ++ a :: post)) as [P | E].
    + destruct (Plain P) as (s & s' & _ & R). exact R.
    + destruct (Inh E) as (_ & _ & L1 & L2). rewrite L1, L2. constructor.
  - intros P. destruct (Plain P) as (s & s' & R & _). eauto.
  - exact Inh.
Qed.

Lemma calculateRiskScore_monotone_witness :
  let env := mkEnv (fun _ => 0) 0 in
  let failure d v :=
    ADS.mkAnomaly "failureRate"
      (ADS.mkReport true (Fin d) (Number (Fin 0.2)) (Fin 1) (Fin v) 0) in
  let inherits d v :=
    ADS.mkAnomaly "toString"
      (ADS.mkReport true (Fin d) Member (Fin 1) (Fin v) 0) in
  (exists s s',
      ADS.score (ADS.calculateRiskScore env [failure 0.4 1.4]) = Fin s
      /\ ADS.score (ADS.calculateRiskScore env [failure 0.6 1.6]) = Fin s'
      /\ s <= s')
  /\ ADS.score (ADS.calculateRiskScore env [inherits 0.4 1.4]) = NaN
  /\ ADS.level (ADS.calculateRiskScore env [inherits 0.6 1.6]) = ADS.high.
Proof.
  intros env failure inherits. split.
  - destruct (calculateRiskScore_monotone env [] []
                (failure 0.4 1.4) (failure 0.6 1.6)
                0.4 0.6 eq_refl eq_refl eq_refl)
      as (_ & P & _).
    + discriminate.
    + constructor.
    + constructor.
    + destruct P as (s & s' & E & E' & L & _).
      * repeat constructor.
      * exists s, s'. auto.
  - destruct (calculateRiskScore_monotone env [] []
                (inherits 0.4 1.4) (inherits 0.6 1.6)
                0.4 0.6 eq_refl eq_refl eq_refl)
      as (_ & _ & I).
    + discriminate.
    + constructor.
    + constructor.
    + destruct I as (S1 & _ & _ & L2).
      * apply Exists_cons_hd. reflexivity.
      * split; [exact S1 | exact L2].
Defined.

(** ** The counters and the frame of the framework (CRF) *)

Lemma processCall_try_frame this co env callRequest :
  let this' := snd (CRF.processCall_try this co env callRequest) in
  CRF.sameButFailures this this'
  /\ CRF.failedCalls (CRF.systemMetrics this')
     = CRF.failedCalls (CRF.systemMetrics this).
Proof.
  destruct (processCall_try_state this co env callRequest)
    as [[e E] | [cm [E _]]]; rewrite E; cbn [snd];
    unfold CRF.sameButFailures; simpl; repeat split.
Qed.

Lemma processCall_changes this co env callRequest :
  let out := CRF.processCall this co env callRequest in
  CRF.sameButFailures this (snd out)
  /\ CRF.failedCalls (CRF.systemMetrics (snd out))
     = (CRF.failedCalls (CRF.systemMetrics this)
        + match fst out with Throws _ => 1 | Returns _ => 0 end)%Z.
Proof.
  intros out. subst out.
  destruct (processCall_try_frame this co env callRequest) as [F C].
  unfold CRF.processCall.
  destruct (CRF.processCall_try this co env callRequest) as [[r | e] s];
    cbn [fst snd] in *.
  - split; [exact F | lia].
  - split; [exact F |]. simpl. lia.
Qed.

Lemma endCall_changes this co env callId :
  let out := CRF.endCall this co env callId in
  CRF.sameButFailures this (snd out)
  /\ CRF.systemMetrics (snd out) = CRF.systemMetrics this.
Proof.
  intros out. subst out. unfold CRF.endCall.
  destruct (get callId (CRF.activeCalls this)) as [call|].
  - destruct (CRF.logCall co _); unfold CRF.sameButFailures; simpl;
      repeat split.
  - unfold CRF.sameButFailures; simpl; repeat split.
Qed.

(** X17: [processCall] changes nothing of the framework but the live
    calls and the failure counter, which it increments by one exactly
    when it rejects; [endCall] changes nothing but the live calls. *)
Theorem processCall_frame :
  forall this co env,
    (forall callRequest,
        let out := CRF.processCall this co env callRequest in
        CRF.sameButFailures this (snd out)
        /\ CRF.failedCalls (CRF.systemMetrics (snd out))
           = (CRF.failedCalls (CRF.systemMetrics this)
              + match fst out with Throws _ => 1 | Returns _ => 0 end)%Z)
    /\ (forall callId,
           let out := CRF.endCall this co env callId in
           CRF.sameButFailures this (snd out)
           /\ CRF.systemMetrics (snd out) = CRF.systemMetrics this).
Proof.
  intros this co env. split.
  - intros callRequest. apply processCall_changes.
  - intros callId. apply endCall_changes.
Qed.

Lemma reachable_asConstructed this :
  CRF.reachable this -> CRF.asConstructed this.
Proof.
  induction 1 as [now | this metricName b _ IH
                  | this co env callRequest _ IH | this co env callId _ IH].
  - unfold CRF.asConstructed. simpl. repeat split. lia.
  - unfold CRF.asConstructed in *. simpl. tauto.
  - destruct (processCall_changes this co env callRequest)
      as [(D & L & A & R & _ & T & S) C].
    unfold CRF.asConstructed in *.
    destruct IH as (I1 & I2 & I3 & I4 & I5 & I6 & I7).
    rewrite D, L, A, R, T, S, C.
    repeat split; try assumption.
    destruct (fst (CRF.processCall this co env callRequest)); lia.
  - destruct (endCall_changes this co env callId)
      as [(D & L & A & R & _ & T & S) C].
    unfold CRF.asConstructed in *.
    rewrite D, L, A, R, C. exact IH.
Qed.

(** ** The course of a verified call (CRF) *)

(** A verified call is routed, then decided by the anomalies found. *)
Lemma processCall_try_verified this co env callRequest :
  CRF.verified (CRF.processIncomingCall co callRequest) = true ->
  exists o,
    CRF.routeOf this env = Returns o
    /\ CRF.processCall_try this co env callRequest
       = match CRF.callAnomalies this env with
         | [] =>
             match CRF.logCall co
                     (CRF.StartedCall (CRF.id callRequest)
                        (DCD.selectedRoute o)
                        (CRF.attestationLevel
                           (CRF.processIncomingCall co callRequest))
                        (Fin 0)) with
             | Throws e => (Throws e, CRF.monitoring this env callRequest o)
             | Returns _ =>
                 (Returns (CRF.resultOf co env callRequest o),
                  CRF.monitoring this env callRequest o)
             end
         | _ :: _ =>
             match ADS.level
                     (ADS.calculateRiskScore env (CRF.callAnomalies this env))
             with
             | ADS.high => (Throws (Error "High-risk call detected"), this)
             | _ =>
                 (Throws (ReferenceError "riskScore is not defined"),
                  CRF.monitoring this env callRequest o)
             end
         end.
Proof.
  intros V. unfold CRF.routeOf, CRF.processCall_try. rewrite V. cbn [negb].
  unfold CRF.getNetworkState at 1. unfold bind, random, ret.
  destruct (getOptimalRoute_returns (CRF.dcd this) env 1%nat) as [o O].
  destruct (DCD.getOptimalRoute (CRF.dcd this) env 1%nat) as [x n1].
  cbn [fst] in O. subst x.
  destruct (findOptimalRoute_returns (CRF.lcr this) env
              (DCD.selectedRoute o) [] n1) as [c C].
  destruct (LCR.findOptimalRoute (CRF.lcr this) env [DCD.selectedRoute o] n1)
    as [y n2].
  cbn [fst] in C. subst y.
  exists o. split; [reflexivity |].
  fold (CRF.callMetrics this env). fold (CRF.callAnomalies this env).
  unfold CRF.monitoring, CRF.monitoringOf, CRF.resultOf.
  destruct (CRF.callAnomalies this env) as [|a l].
  - destruct (CRF.logCall co _); reflexivity.
  - destruct (ADS.level (ADS.calculateRiskScore env (a :: l))); reflexivity.
Qed.

Lemma routeOf_available this env o :
  CRF.routeOf this env = Returns o ->
  In (DCD.selectedRoute o) DCD.getAvailableRoutes.
Proof.
  unfold CRF.routeOf, DCD.getOptimalRoute, DCD.getAvailableRoutes.
  intros R.
  destruct (selectAmong_head (CRF.dcd this) env "route1"
              ["route2"; "route3"; "route4"] 1%nat) as [k [w [s [E H]]]].
  rewrite H in R. injection R as <-. cbn [DCD.selectedRoute].
  set (m := fst (DCD.weighRoutes (CRF.dcd this) env
                   ["route1"; "route2"; "route3"; "route4"] [] 1%nat)) in *.
  pose proof (sort_perm DCD.byWeightDesc m) as P.
  fold (DCD.sortedRoutes m) in P. rewrite E in P.
  assert (K : keys m = insertionOrder ["route1"; "route2"; "route3"; "route4"])
    by apply keys_weighRoutes.
  apply In_insertionOrder. rewrite <- K.
  unfold keys. change k with (fst (k, w)). apply in_map.
  eapply Permutation_in; [exact P | now left].
Qed.

(** X18: a verified call in which no anomaly is found, and whose
    record the analytics store accepts, succeeds: the result names the
    call, one of the four available routes, the channel encrypted for
    that route and the attestation level; the session is stored with
    that route, the time of the call and no anomaly; the failure
    counter is unchanged. *)
Theorem processCall_succeeds :
  forall this co env callRequest,
    CRF.verified (CRF.processIncomingCall co callRequest) = true ->
    CRF.callAnomalies this env = [] ->
    (forall d, exists u, CRF.logCall co d = Returns u) ->
    exists o,
      CRF.routeOf this env = Returns o
      /\ In (DCD.selectedRoute o) DCD.getAvailableRoutes
      /\ CRF.processCall this co env callRequest
         = (Returns (CRF.resultOf co env callRequest o),
            CRF.monitoring this env callRequest o)
      /\ get (CRF.id callRequest)
           (CRF.activeCalls (snd (CRF.processCall this co env callRequest)))
         = Some (CRF.mkMonitoring (CRF.id callRequest) (Date_now env)
                   (DCD.selectedRoute o) (DCD.selectedMetrics o) [])
      /\ CRF.systemMetrics (snd (CRF.processCall this co env callRequest))
         = CRF.systemMetrics this.
Proof.
  intros this co env callRequest V A L.
  destruct (processCall_try_verified this co env callRequest V) as [o [R E]].
  exists o. split; [exact R |].
  split; [now apply (routeOf_available this env) |].
  unfold CRF.processCall. rewrite E, A.
  destruct (L (CRF.StartedCall (CRF.id callRequest) (DCD.selectedRoute o)
                 (CRF.attestationLevel (CRF.processIncomingCall co callRequest))
                 (Fin 0))) as [u ->].
  cbv beta iota. cbn [snd].
  split; [reflexivity |]. split; [| reflexivity].
  unfold CRF.monitoring, CRF.monitoringOf.
  cbn [CRF.activeCalls CRF.with_activeCalls].
  rewrite get_set_same, A. reflexivity.
Qed.

Lemma processCall_succeeds_witness :
  exists o,
    CRF.processCall (CRF.constructor 0) CRF.accepting
      (mkEnv (fun _ => 1 # 2) 1000) (CRF.mkRequest "c1" None)
    = (Returns (CRF.resultOf CRF.accepting (mkEnv (fun _ => 1 # 2) 1000)
                  (CRF.mkRequest "c1" None) o),
       CRF.monitoring (CRF.constructor 0) (mkEnv (fun _ => 1 # 2) 1000)
         (CRF.mkRequest "c1" None) o).
Proof.
  destruct (processCall_succeeds (CRF.constructor 0) CRF.accepting
              (mkEnv (fun _ => 1 # 2) 1000) (CRF.mkRequest "c1" None))
    as [o [_ [_ [E _]]]].
  - reflexivity.
  - reflexivity.
  - intros d. exists tt. reflexivity.
  - exists o. exact E.
Defined.

(** X19: a verified call in which an anomaly is found never succeeds.
    When the risk level of the anomalies is high it is rejected as a
    high-risk call and the live calls are left as they were; otherwise
    it is rejected with the [ReferenceError] of reading [riskScore]
    out of its scope, after its session has been stored.  Either way
    it is counted as a failed call. *)
Theorem processCall_with_anomalies :
  forall this co env callRequest,
    CRF.verified (CRF.processIncomingCall co callRequest) = true ->
    CRF.callAnomalies this env <> [] ->
    let out := CRF.processCall this co env callRequest in
    let risk := ADS.calculateRiskScore env (CRF.callAnomalies this env) in
    CRF.failedCalls (CRF.systemMetrics (snd out))
    = (CRF.failedCalls (CRF.systemMetrics this) + 1)%Z
    /\ ((ADS.level risk = ADS.high
         /\ fst out = Throws (Error "High-risk call detected")
         /\ CRF.activeCalls (snd out) = CRF.activeCalls this)
        \/ (ADS.level risk <> ADS.high
            /\ fst out = Throws (ReferenceError "riskScore is not defined")
            /\ exists o,
                CRF.routeOf this env = Returns o
                /\ get (CRF.id callRequest) (CRF.activeCalls (snd out))
                   = Some (CRF.monitoringOf this env callRequest o))).
Proof.
  intros this co env callRequest V A out risk. subst out risk.
  destruct (processCall_try_verified this co env callRequest V) as [o [R E]].
  unfold CRF.processCall. rewrite E.
  destruct (CRF.callAnomalies this env) as [|a l] eqn:C; [congruence |].
  destruct (ADS.level (ADS.calculateRiskScore env (a :: l))) eqn:Lv;
    cbn [fst snd]; (split; [reflexivity |]).
  - right. split; [discriminate |]. split; [reflexivity |].
    exists o. split; [exact R |].
    unfold CRF.monitoring, CRF.countFailure, CRF.with_activeCalls.
    cbn [CRF.activeCalls]. now rewrite get_set_same.
  - right. split; [discriminate |]. split; [reflexivity |].
    exists o. split; [exact R |].
    unfold CRF.monitoring, CRF.countFailure, CRF.with_activeCalls.
    cbn [CRF.activeCalls]. now rewrite get_set_same.
  - left. repeat split.
Qed.

Lemma processCall_with_anomalies_witness :
  CRF.failedCalls
    (CRF.systemMetrics
       (snd (CRF.processCall
               (CRF.storeBaseline
                  (snd (CRF.processCall (CRF.constructor 0) CRF.accepting
                          (mkEnv (fun _ => 1 # 2) 1000)
                          (CRF.mkRequest "c1" None)))
                  "duration" (ADS.mkBaseline (Fin 10) (Fin 1) 0))
               CRF.accepting (mkEnv (fun _ => 1 # 2) 2000)
               (CRF.mkRequest "c2" None))))
  = (CRF.failedCalls
       (CRF.systemMetrics
          (CRF.storeBaseline
             (snd (CRF.processCall (CRF.constructor 0) CRF.accepting
                     (mkEnv (fun _ => 1 # 2) 1000)
                     (CRF.mkRequest "c1" None)))
             "duration" (ADS.mkBaseline (Fin 10) (Fin 1) 0))) + 1)%Z.
Proof.
  refine (proj1 (processCall_with_anomalies _ CRF.accepting
                   (mkEnv (fun _ => 1 # 2) 2000) (CRF.mkRequest "c2" None)
                   _ _)).
  - reflexivity.
  - vm_compute. discriminate.
Defined.

(** ** What the framework monitors (CRF) *)

Lemma callAnomalies_asConstructed this env :
  CRF.asConstructed this ->
  CRF.callAnomalies this env = []
  \/ exists r,
       CRF.callAnomalies this env = [ADS.mkAnomaly "duration" r]
       /\ ADS.currentValue r = Fin (CRF.calculateAverageDuration this env).
Proof.
  intros (_ & _ & _ & _ & T & _ & _).
  unfold CRF.callAnomalies, CRF.callMetrics, ADS.processCallMetrics.
  cbn [ADS.callVolume ADS.avgDuration ADS.failureRate].
  unfold CRF.calculateFailureRate. rewrite T. cbn [Z.eqb].
  rewrite (checkMetric_zero _ _ _ _ (inject_Z 0)) by reflexivity.
  rewrite (checkMetric_zero _ _ _ _ 0) by reflexivity.
  rewrite !checkMetric_absent.
  destruct (checkMetric_cases (CRF.anomalyDetection this) env
              "duration" "duration"
              (Some (Fin (CRF.calculateAverageDuration this env))) [])
    as [-> | [r [-> [_ [F _]]]]].
  - now left.
  - right. exists r. split; [reflexivity |]. now injection F as <-.
Qed.

Lemma checkMetric_no_baseline this env type metricName field anomalies :
  get metricName (ADS.baselineMetrics this) = None ->
  ADS.checkMetric this env type metricName field anomalies = anomalies.
Proof.
  intros G. unfold ADS.checkMetric, ADS.detectAnomaly. rewrite G.
  destruct field as [value|]; [| reflexivity].
  destruct (truthy value); reflexivity.
Qed.

Lemma callAnomalies_no_duration_baseline this env :
  CRF.asConstructed this ->
  get "duration" (ADS.baselineMetrics (CRF.anomalyDetection this)) = None ->
  CRF.callAnomalies this env = [].
Proof.
  intros (_ & _ & _ & _ & T & _ & _) G.
  unfold CRF.callAnomalies, CRF.callMetrics, ADS.processCallMetrics.
  cbn [ADS.callVolume ADS.avgDuration ADS.failureRate].
  unfold CRF.calculateFailureRate. rewrite T. cbn [Z.eqb].
  rewrite (checkMetric_zero _ _ _ _ (inject_Z 0)) by reflexivity.
  rewrite (checkMetric_zero _ _ _ _ 0) by reflexivity.
  rewrite !checkMetric_absent.
  now apply checkMetric_no_baseline.
Qed.

Lemma processCall_try_anomalies this co env callRequest :
  (exists e, CRF.processCall_try this co env callRequest = (Throws e, this))
  \/ (exists cm,
         snd (CRF.processCall_try this co env callRequest)
         = CRF.with_activeCalls this
             (set (CRF.id callRequest) cm (CRF.activeCalls this))
         /\ CRF.anomalies cm = CRF.callAnomalies this env).
Proof.
  destruct (CRF.verified (CRF.processIncomingCall co callRequest)) eqn:V.
  - destruct (processCall_try_verified this co env callRequest V)
      as [o [_ E]].
    rewrite E.
    destruct (CRF.callAnomalies this env) as [|a l] eqn:C.
    + right. exists (CRF.monitoringOf this env callRequest o).
      split; [destruct (CRF.logCall co _); reflexivity |].
      unfold CRF.monitoringOf. cbn [CRF.anomalies]. exact C.
    + destruct (ADS.level (ADS.calculateRiskScore env (a :: l)));
        try (right; exists (CRF.monitoringOf this env callRequest o);
             split; [reflexivity |];
             unfold CRF.monitoringOf; cbn [CRF.anomalies]; exact C).
      left. eexists. reflexivity.
  - left. unfold CRF.processCall_try. rewrite V. eexists. reflexivity.
Qed.

Lemma reachable_sessions this :
  CRF.reachable this ->
  Forall (fun e => Forall (fun a => ADS.type a = "duration")
                     (CRF.anomalies (snd e)))
    (CRF.activeCalls this).
Proof.
  induction 1 as [now | this metricName b _ IH
                  | this co env callRequest R IH | this co env callId _ IH].
  - constructor.
  - exact IH.
  - rewrite processCall_activeCalls.
    destruct (processCall_try_anomalies this co env callRequest)
      as [[e E] | [cm [E A]]]; rewrite E; cbn [snd CRF.with_activeCalls
                                               CRF.activeCalls].
    + exact IH.
    + apply Forall_set; [exact IH |]. cbn [snd]. rewrite A.
      destruct (callAnomalies_asConstructed this env
                  (reachable_asConstructed this R)) as [-> | [r [-> _]]];
        repeat constructor.
  - rewrite endCall_activeCalls.
    destruct (get callId (CRF.activeCalls this)); [| exact IH].
    clear - IH. induction (CRF.activeCalls this) as [|[k v] m IHm];
      [constructor |].
    inversion IH; subst. simpl.
    destruct (String.eqb callId k); [assumption | constructor; auto].
Qed.

(** X20: no operation of the framework counts a call: in every
    reachable state the total and the successful calls are 0 and the
    failure rate is 0, so that the call volume and the failure rate
    handed to the anomaly detection are always skipped.  A call finds at
    most one anomaly, of type duration, and finds none when no baseline
    is stored for the duration; every anomaly recorded in a live session
    is of type duration. *)
Theorem only_duration_is_monitored :
  forall this,
    CRF.reachable this ->
    CRF.totalCalls (CRF.systemMetrics this) = 0%Z
    /\ CRF.successfulCalls (CRF.systemMetrics this) = 0%Z
    /\ CRF.calculateFailureRate this = 0
    /\ (forall env,
           CRF.callAnomalies this env = []
           \/ exists r,
               CRF.callAnomalies this env = [ADS.mkAnomaly "duration" r]
               /\ ADS.currentValue r
                  = Fin (CRF.calculateAverageDuration this env))
    /\ (forall env,
           get "duration" (ADS.baselineMetrics (CRF.anomalyDetection this))
           = None ->
           CRF.callAnomalies this env = [])
    /\ (forall callId cm,
           get callId (CRF.activeCalls this) = Some cm ->
           Forall (fun a => ADS.type a = "duration") (CRF.anomalies cm)).
Proof.
  intros this R. pose proof (reachable_asConstructed this R) as C.
  destruct C as (C1 & C2 & C3 & C4 & T & S & F).
  split; [exact T |]. split; [exact S |].
  split; [unfold CRF.calculateFailureRate; now rewrite T |].
  assert (A : forall env,
             CRF.callAnomalies this env = []
             \/ exists r,
                 CRF.callAnomalies this env = [ADS.mkAnomaly "duration" r]
                 /\ ADS.currentValue r
                    = Fin (CRF.calculateAverageDuration this env)).
  { intros env. apply callAnomalies_asConstructed.
    unfold CRF.asConstructed. tauto. }
  split; [exact A |]. split.
  - intros env G. apply callAnomalies_no_duration_baseline; [| exact G].
    unfold CRF.asConstructed. tauto.
  - intros callId cm G.
    pose proof (reachable_sessions this R) as H.
    rewrite Forall_forall in H. apply (H (callId, cm)). now apply get_In.
Qed.

Lemma only_duration_is_monitored_witness :
  CRF.callAnomalies
    (snd (CRF.processCall (CRF.constructor 0) CRF.accepting
            (mkEnv (fun _ => 1 # 2) 1000) (CRF.mkRequest "c1" None)))
    (mkEnv (fun _ => 1 # 2) 2000) = [].
Proof.
  refine (proj1 (proj2 (proj2 (proj2 (proj2
            (only_duration_is_monitored _ _))))) _ _).
  - apply CRF.reach_processCall, CRF.reach_constructor.
  - reflexivity.
Defined.

(** ** A call from its start to its end (CRF) *)

Lemma processCall_Returns this co env callRequest r :
  fst (CRF.processCall this co env callRequest) = Returns r ->
  exists o,
    CRF.routeOf this env = Returns o
    /\ CRF.processCall this co env callRequest
       = (Returns (CRF.resultOf co env callRequest o),
          CRF.monitoring this env callRequest o)
    /\ CRF.callAnomalies this env = [].
Proof.
  intros H. rewrite processCall_fst in H.
  destruct (CRF.verified (CRF.processIncomingCall co callRequest)) eqn:V.
  - destruct (processCall_try_verified this co env callRequest V)
      as [o [R E]].
    exists o. split; [exact R |].
    unfold CRF.processCall. rewrite E in *.
    destruct (CRF.callAnomalies this env) as [|a l].
    + destruct (CRF.logCall co _); [| discriminate H]. split; reflexivity.
    + destruct (ADS.level (ADS.calculateRiskScore env (a :: l)));
        discriminate H.
  - unfold CRF.processCall_try in H. rewrite V in H. discriminate H.
Qed.

(** X21: a call that [processCall] has accepted in a reachable state
    can be ended: with an analytics store that accepts its record,
    [endCall] returns the id of the call, the route it was given and
    the time elapsed since it started, in seconds; the call is then no
    longer live, the other live calls are those from before the call,
    and ending it a second time fails with "Call not found". *)
Theorem processCall_then_endCall :
  forall this co env callRequest r co' env',
    CRF.reachable this ->
    fst (CRF.processCall this co env callRequest) = Returns r ->
    (forall d, exists u, CRF.logCall co' d = Returns u) ->
    let started := snd (CRF.processCall this co env callRequest) in
    let ended := snd (CRF.endCall started co' env' (CRF.callId r)) in
    (exists s,
        fst (CRF.endCall started co' env' (CRF.callId r)) = Returns s
        /\ CRF.summaryCallId s = CRF.id callRequest
        /\ CRF.summaryRoute s = CRF.resultRoute r
        /\ CRF.duration s = inject_Z (Date_now env' - Date_now env) / 1000)
    /\ get (CRF.id callRequest) (CRF.activeCalls ended) = None
    /\ (forall k, k <> CRF.id callRequest ->
                  get k (CRF.activeCalls ended) = get k (CRF.activeCalls this))
    /\ (forall co'' env'',
           fst (CRF.endCall ended co'' env'' (CRF.callId r))
           = Throws (Error "Call not found")).
Proof.
  intros this co env callRequest r co' env' R H L started ended.
  destruct (processCall_Returns this co env callRequest r H) as [o [_ [E _]]].
  assert (Er : r = CRF.resultOf co env callRequest o).
  { rewrite E in H. cbn [fst] in H. now injection H. }
  assert (Es : started = CRF.monitoring this env callRequest o)
    by (subst started; now rewrite E).
  assert (Id : CRF.callId r = CRF.id callRequest) by (subst r; reflexivity).
  assert (G : get (CRF.id callRequest) (CRF.activeCalls started)
              = Some (CRF.monitoringOf this env callRequest o)).
  { rewrite Es. unfold CRF.monitoring. cbn [CRF.activeCalls CRF.with_activeCalls].
    apply get_set_same. }
  assert (N : NoDup (keys (CRF.activeCalls started))).
  { rewrite Es. unfold CRF.monitoring. cbn [CRF.activeCalls CRF.with_activeCalls].
    apply NoDup_keys_set. now apply reachable_NoDup. }
  assert (A : CRF.activeCalls ended
              = delete (CRF.id callRequest) (CRF.activeCalls started)).
  { subst ended. rewrite endCall_activeCalls, Id, G. reflexivity. }
  split; [| split; [| split]].
  - unfold CRF.endCall. rewrite Id, G.
    match goal with |- context [CRF.logCall co' ?d] =>
      destruct (L d) as [u ->] end.
    eexists. split; [reflexivity |].
    cbn [CRF.summaryCallId CRF.summaryRoute CRF.duration].
    subst r. repeat split.
  - rewrite A. now apply get_delete_same.
  - intros k K. rewrite A, get_delete_other by exact K.
    rewrite Es. unfold CRF.monitoring. cbn [CRF.activeCalls CRF.with_activeCalls].
    now apply get_set_other.
  - intros co'' env''. unfold CRF.endCall. rewrite Id, A.
    now rewrite get_delete_same.
Qed.

Lemma processCall_then_endCall_witness :
  exists s,
    fst (CRF.endCall
           (snd (CRF.processCall (CRF.constructor 0) CRF.accepting
                   (mkEnv (fun _ => 1 # 2) 1000) (CRF.mkRequest "c1" None)))
           CRF.accepting (mkEnv (fun _ => 1 # 2) 4000) "c1") = Returns s
    /\ CRF.duration s = inject_Z (4000 - 1000) / 1000.
Proof.
  destruct (proj1 (processCall_then_endCall (CRF.constructor 0) CRF.accepting
                     (mkEnv (fun _ => 1 # 2) 1000) (CRF.mkRequest "c1" None)
                     (CRF.mkCallResult true "c1" "route1" "c1@route1" (Some "A"))
                     CRF.accepting (mkEnv (fun _ => 1 # 2) 4000)
                     (CRF.reach_constructor 0) eq_refl
                     (fun d => ex_intro _ tt eq_refl)))
    as [s [E [_ [_ D]]]].
  exists s. split; [exact E | exact D].
Defined.

(** ** The average duration of the live calls (CRF) *)




(** ** Caller verification (STIR/SHAKEN) *)

Lemma expired_fresh env payload :
  STIR.expired env payload = false <-> STIR.fresh env payload.
Proof.
  unfold STIR.expired, STIR.fresh.
  destruct (STIR.iat payload) as [t|].
  - destruct (Qle_bool (inject_Z (STIR.nowSeconds env) - t) 300) eqn:L;
      cbn [negb].
    + apply Qle_bool_iff in L. split; [| reflexivity].
      intros _ x [= <-]. exact L.
    + split; [discriminate |]. intros H. specialize (H t eq_refl).
      apply Qle_bool_iff in H. congruence.
  - split; [| reflexivity]. intros _ t T. discriminate T.
Qed.

(** X23: [processIncomingCall] verifies a call exactly when its
    passport is present and not empty, decodes, and was issued no more
    than 300 seconds before now (a token issued in the future, or one
    with no issue time, passes).  A verified result carries the
    attestation of the token and no error code; an unverified one
    carries no attestation and the code NO_PASSPORT when the passport is
    missing or empty, INVALID_PASSPORT otherwise. *)
Theorem processIncomingCall_verdict :
  forall decode env callRequest,
    let r := STIR.processIncomingCall decode env callRequest in
    (CRF.verified r = true
     <-> exists passport payload,
           STIR.presented callRequest passport
           /\ decode passport = Some payload
           /\ STIR.fresh env payload)
    /\ (forall passport payload,
           STIR.presented callRequest passport ->
           decode passport = Some payload ->
           STIR.fresh env payload ->
           r = CRF.mkVerification true (STIR.attest payload) None)
    /\ (CRF.verified r = false ->
        CRF.attestationLevel r = None
        /\ (CRF.errorCode r = Some "NO_PASSPORT"
            <-> ~ exists passport, STIR.presented callRequest passport)
        /\ (CRF.errorCode r = Some "INVALID_PASSPORT"
            <-> exists passport, STIR.presented callRequest passport)).
Proof.
  intros decode env callRequest r. subst r.
  unfold STIR.processIncomingCall, STIR.verifyPASSporT, STIR.presented.
  destruct (CRF.passport callRequest) as [p|].
  2:{ split; [| split].
      - split; [discriminate |]. intros [p [y [[F _] _]]]. discriminate F.
      - intros p y [F _]. discriminate F.
      - intros _. split; [reflexivity |]. split.
        + split; [| reflexivity]. intros _ [p [F _]]. discriminate F.
        + split; [discriminate |]. intros [p [F _]]. discriminate F. }
  destruct (String.eqb p "") eqn:E.
  { apply String.eqb_eq in E. subst p. split; [| split].
    - split; [discriminate |]. intros [p [y [[F N] _]]].
      injection F as <-. congruence.
    - intros p y [F N]. injection F as <-. congruence.
    - intros _. split; [reflexivity |]. split.
      + split; [| reflexivity]. intros _ [p [F N]].
        injection F as <-. congruence.
      + split; [discriminate |]. intros [p [F N]].
        injection F as <-. congruence. }
  apply String.eqb_neq in E.
  destruct (decode p) as [y|] eqn:D.
  - destruct (STIR.expired env y) eqn:X; cbn [negb].
    + assert (NF : ~ STIR.fresh env y).
      { intros F. apply expired_fresh in F. congruence. }
      split; [| split].
      * split; [discriminate |]. intros [p' [y' [[F N] [D' Fr]]]].
        injection F as <-. rewrite D in D'. injection D' as <-. contradiction.
      * intros p' y' [F N] D' Fr.
        injection F as <-. rewrite D in D'. injection D' as <-. contradiction.
      * intros _. split; [reflexivity |]. split.
        -- split; [discriminate |]. intros H. exfalso. apply H. eauto.
        -- split; [eauto | reflexivity].
    + apply expired_fresh in X. split; [| split].
      * split; [intros _; exists p, y; auto | reflexivity].
      * intros p' y' [F N] D' Fr.
        injection F as <-. rewrite D in D'. injection D' as <-. reflexivity.
      * discriminate.
  - cbn [negb]. split; [| split].
    + split; [discriminate |]. intros [p' [y' [[F N] [D' Fr]]]].
      injection F as <-. congruence.
    + intros p' y' [F N] D' Fr. injection F as <-. congruence.
    + intros _. split; [reflexivity |]. split.
      * split; [discriminate |]. intros H. exfalso. apply H. eauto.
      * split; [eauto | reflexivity].
Qed.

Lemma processIncomingCall_verdict_witness :
  STIR.processIncomingCall
    (fun p => if String.eqb p "token"
              then Some (STIR.mkPayload (Some "A") (Some 2000)) else None)
    (mkEnv (fun _ => 0) 1000000) (CRF.mkRequest "c1" (Some "token"))
  = CRF.mkVerification true (Some "A") None.
Proof.
  refine (proj1 (proj2 (processIncomingCall_verdict _ _ _))
            "token" (STIR.mkPayload (Some "A") (Some 2000)) _ eq_refl _).
  - split; [reflexivity | discriminate].
  - intros t [= <-]. vm_compute. discriminate.
Defined.

Lemma processIncomingCall_no_passport decode env callRequest :
  (~ exists passport, STIR.presented callRequest passport) ->
  STIR.processIncomingCall decode env callRequest
  = CRF.mkVerification false None (Some "NO_PASSPORT").
Proof.
  intros N. unfold STIR.processIncomingCall, STIR.presented in *.
  destruct (CRF.passport callRequest) as [p|]; [| reflexivity].
  destruct (String.eqb p "") eqn:E; [reflexivity |].
  apply String.eqb_neq in E. exfalso. apply N. eauto.
Qed.

Lemma processIncomingCall_invalid decode env callRequest passport :
  STIR.presented callRequest passport ->
  (decode passport = None
   \/ exists payload, decode passport = Some payload
                      /\ ~ STIR.fresh env payload) ->
  STIR.processIncomingCall decode env callRequest
  = CRF.mkVerification false None (Some "INVALID_PASSPORT").
Proof.
  intros [P N] H. unfold STIR.processIncomingCall, STIR.verifyPASSporT.
  rewrite P. apply String.eqb_neq in N. rewrite N.
  destruct H as [-> | [y [-> F]]]; [reflexivity |].
  destruct (STIR.expired env y) eqn:X; [reflexivity |].
  apply expired_fresh in X. contradiction.
Qed.

Lemma processCall_rejected this co env callRequest code :
  CRF.processIncomingCall co callRequest
  = CRF.mkVerification false None (Some code) ->
  CRF.processCall this co env callRequest
  = (Throws (Error ("Call verification failed: " ++ code)),
     CRF.countFailure this).
Proof.
  intros V. unfold CRF.processCall, CRF.processCall_try. rewrite V.
  reflexivity.
Qed.

(** X24: with that caller verification, [processCall] rejects a call
    whose passport is missing or empty with "Call verification failed:
    NO_PASSPORT", and a call whose passport does not decode or is more
    than 300 seconds old with "Call verification failed:
    INVALID_PASSPORT"; the call is counted as failed, no session is
    stored and nothing else changes. *)
Theorem processCall_unverified :
  forall this decode env co callRequest,
    let out :=
      CRF.processCall this (STIR.verifying decode env co) env callRequest in
    ((~ exists passport, STIR.presented callRequest passport) ->
     out = (Throws (Error "Call verification failed: NO_PASSPORT"),
            CRF.countFailure this))
    /\ (forall passport,
           STIR.presented callRequest passport ->
           (decode passport = None
            \/ exists payload, decode passport = Some payload
                               /\ ~ STIR.fresh env payload) ->
           out = (Throws (Error "Call verification failed: INVALID_PASSPORT"),
                  CRF.countFailure this)).
Proof.
  intros this decode env co callRequest out. subst out. split.
  - intros N.
    apply (processCall_rejected this (STIR.verifying decode env co) env
             callRequest "NO_PASSPORT").
    now apply processIncomingCall_no_passport.
  - intros passport P H.
    apply (processCall_rejected this (STIR.verifying decode env co) env
             callRequest "INVALID_PASSPORT").
    now apply (processIncomingCall_invalid decode env callRequest passport).
Qed.

Lemma processCall_unverified_witness :
  CRF.processCall (CRF.constructor 0)
    (STIR.verifying (fun _ => None) (mkEnv (fun _ => 1 # 2) 1000) CRF.accepting)
    (mkEnv (fun _ => 1 # 2) 1000) (CRF.mkRequest "c1" (Some "garbage"))
  = (Throws (Error "Call verification failed: INVALID_PASSPORT"),
     CRF.countFailure (CRF.constructor 0)).
Proof.
  refine (proj2 (processCall_unverified (CRF.constructor 0) (fun _ => None)
                   (mkEnv (fun _ => 1 # 2) 1000) CRF.accepting
                   (CRF.mkRequest "c1" (Some "garbage"))) "garbage" _ _).
  - split; [reflexivity | discriminate].
  - now left.
Defined.

(** ** Multi-factor authentication *)

Lemma MFA_step_MAX hmac this o :
  MFA.MAX_ATTEMPTS (MFA.step hmac this o) = MFA.MAX_ATTEMPTS this.
Proof.
  destruct o as [env randomHex u | env u code]; simpl; [reflexivity |].
  unfold MFA.verifyTOTP.
  destruct (get u (MFA.otpSecrets this)); [| reflexivity].
  destruct (MFA.MAX_ATTEMPTS this <=? MFA.attemptsOf this u)%Z;
    [reflexivity |].
  destruct (negb _); reflexivity.
Qed.

Lemma MFA_step_attempts_other hmac this o userId :
  (forall env u code, o = MFA.Verify env u code -> u <> userId) ->
  MFA.attemptsOf (MFA.step hmac this o) userId = MFA.attemptsOf this userId.
Proof.
  intros N.
  destruct o as [env randomHex u | env u code]; simpl; [reflexivity |].
  specialize (N env u code eq_refl).
  unfold MFA.verifyTOTP.
  destruct (get u (MFA.otpSecrets this)); [| reflexivity].
  destruct (MFA.MAX_ATTEMPTS this <=? MFA.attemptsOf this u)%Z;
    [reflexivity |].
  destruct (negb _); unfold MFA.attemptsOf; simpl.
  - rewrite get_set_other by congruence. reflexivity.
  - rewrite get_delete_other by congruence. reflexivity.
Qed.

Lemma MFA_step_locked hmac this o userId :
  MFA.locked this userId -> MFA.locked (MFA.step hmac this o) userId.
Proof.
  unfold MFA.locked. intros L. rewrite MFA_step_MAX.
  destruct o as [env randomHex u | env u code]; [exact L |].
  destruct (string_dec u userId) as [-> | N].
  - simpl. unfold MFA.verifyTOTP.
    destruct (get userId (MFA.otpSecrets this)); [| exact L].
    destruct (MFA.MAX_ATTEMPTS this <=? MFA.attemptsOf this userId)%Z eqn:E;
      [exact L |].
    apply Z.leb_gt in E. lia.
  - rewrite MFA_step_attempts_other; [exact L |].
    intros ? ? ? [= _ <- _]. exact N.
Qed.

Lemma MFA_run_locked hmac ops : forall this userId,
  MFA.locked this userId -> MFA.locked (MFA.run hmac this ops) userId.
Proof.
  unfold MFA.run.
  induction ops as [|o ops IH]; intros this userId L; simpl; [exact L |].
  apply IH, MFA_step_locked, L.
Qed.

(** X25: lockout is permanent.  Once a user's failed attempts have
    reached [MAX_ATTEMPTS], no sequence of [generateTOTPSecret] and
    [verifyTOTP] calls (by this or any other user) unlocks them:
    [verifyTOTP] rejects every code, the expected one included, and a
    newly generated secret does not reset the counter. *)
Theorem verifyTOTP_lockout hmac this userId ops env code :
  MFA.locked this userId ->
  MFA.locked (MFA.run hmac this ops) userId /\
  fst (MFA.verifyTOTP hmac (MFA.run hmac this ops) env userId code) = false.
Proof.
  intros L. pose proof (MFA_run_locked hmac ops this userId L) as L'.
  split; [exact L' |].
  unfold MFA.verifyTOTP.
  destruct (get userId (MFA.otpSecrets _)); [| reflexivity].
  unfold MFA.locked in L'. apply Z.leb_le in L'. rewrite L'. reflexivity.
Qed.

Lemma verifyTOTP_lockout_witness :
  let hmac := fun (_ : string) (_ : Z) => @nil Z in
  let env := {| Math_random := fun _ => 0; Date_now := 1700000000000%Z |} in
  let wrong := MFA.Verify env "alice" "bad" in
  let this :=
    MFA.run hmac MFA.constructor
      [MFA.Generate env "00ff" "alice"; wrong; wrong; wrong] in
  let ops := [MFA.Generate env "11aa" "alice"; MFA.Verify env "bob" "1"] in
  MFA.locked this "alice" /\
  MFA.locked (MFA.run hmac this ops) "alice" /\
  fst (MFA.verifyTOTP hmac (MFA.run hmac this ops) env "alice" "000000")
    = false.
Proof.
  intros hmac env wrong this ops.
  assert (L : MFA.locked this "alice") by (vm_compute; discriminate).
  split; [exact L |].
  exact (verifyTOTP_lockout hmac this "alice" ops env "000000" L).
Defined.

(** States reached from the constructor. *)
Lemma MFA_step_NoDup hmac this o :
  NoDup (keys (MFA.verificationAttempts this)) ->
  NoDup (keys (MFA.verificationAttempts (MFA.step hmac this o))).
Proof.
  intros H.
  destruct o as [env randomHex u | env u code]; simpl; [exact H |].
  unfold MFA.verifyTOTP.
  destruct (get u (MFA.otpSecrets this)); [| exact H].
  destruct (MFA.MAX_ATTEMPTS this <=? MFA.attemptsOf this u)%Z; [exact H |].
  destruct (negb _); simpl.
  - apply NoDup_keys_set, H.
  - apply NoDup_keys_delete, H.
Qed.

Lemma MFA_run_NoDup hmac ops : forall this,
  NoDup (keys (MFA.verificationAttempts this)) ->
  NoDup (keys (MFA.verificationAttempts (MFA.run hmac this ops))).
Proof.
  unfold MFA.run.
  induction ops as [|o ops IH]; intros this H; simpl; [exact H |].
  apply IH, MFA_step_NoDup, H.
Qed.

(** X26: the attempt counter.  In a state reached from the constructor,
    for a user who has a secret and is not locked out: a code other
    than the expected one is rejected and adds one to the user's failed
    attempts; the expected code is accepted and clears them.  Either
    way the counters of the other users and the stored secrets are
    unchanged. *)
Theorem verifyTOTP_counts hmac ops env userId code secretData :
  let this := MFA.run hmac MFA.constructor ops in
  let expectedCode := MFA.generateTOTP hmac env (MFA.secret secretData) in
  let after := snd (MFA.verifyTOTP hmac this env userId code) in
  get userId (MFA.otpSecrets this) = Some secretData ->
  ~ MFA.locked this userId ->
  (fst (MFA.verifyTOTP hmac this env userId code) = true <->
   code = expectedCode) /\
  (code = expectedCode -> MFA.attemptsOf after userId = 0%Z) /\
  (code <> expectedCode ->
   MFA.attemptsOf after userId = (MFA.attemptsOf this userId + 1)%Z) /\
  (forall other, other <> userId ->
   MFA.attemptsOf after other = MFA.attemptsOf this other) /\
  MFA.otpSecrets after = MFA.otpSecrets this.
Proof.
  intros this expectedCode after G L.
  assert (D : NoDup (keys (MFA.verificationAttempts this))).
  { apply MFA_run_NoDup. constructor. }
  unfold MFA.locked in L. apply Z.nle_gt, Z.leb_gt in L.
  subst after. unfold MFA.verifyTOTP. rewrite G, L.
  fold expectedCode.
  destruct (String.eqb code expectedCode) eqn:E; simpl.
  - apply String.eqb_eq in E.
    split; [tauto |]. split.
    { intros _. unfold MFA.attemptsOf. simpl.
      now rewrite get_delete_same. }
    split; [intros N; contradiction |].
    split; [| reflexivity].
    intros other N. unfold MFA.attemptsOf. simpl.
    now rewrite get_delete_other.
  - apply String.eqb_neq in E.
    split; [split; [discriminate | intros F; contradiction] |].
    split; [intros F; contradiction |].
    split.
    { intros _. unfold MFA.attemptsOf at 1. simpl.
      now rewrite get_set_same. }
    split; [| reflexivity].
    intros other N. unfold MFA.attemptsOf. simpl.
    now rewrite get_set_other.
Qed.

Lemma verifyTOTP_counts_witness :
  let hmac := fun (_ : string) (_ : Z) => @nil Z in
  let env := {| Math_random := fun _ => 0; Date_now := 1700000000000%Z |} in
  let ops := [MFA.Generate env "00ff" "alice"; MFA.Verify env "alice" "bad"] in
  let this := MFA.run hmac MFA.constructor ops in
  let after := snd (MFA.verifyTOTP hmac this env "alice" "000000") in
  fst (MFA.verifyTOTP hmac this env "alice" "000000") = true /\
  MFA.attemptsOf this "alice" = 1%Z /\
  MFA.attemptsOf after "alice" = 0%Z.
Proof.
  intros hmac env ops this after.
  assert (G : get "alice" (MFA.otpSecrets this)
              = Some {| MFA.secret := "00ff";
                        MFA.createdAt := 1700000000000%Z |})
    by reflexivity.
  assert (L : ~ MFA.locked this "alice") by (vm_compute; intros F; apply F; reflexivity).
  destruct (verifyTOTP_counts hmac ops env "alice" "000000" _ G L)
    as (A & B & _).
  split; [apply A; reflexivity |].
  split; [reflexivity | apply B; reflexivity].
Defined.

(** *** The one-time code *)

Ltac pow2 :=
  repeat match goal with
  | |- context [(2 ^ Zpos ?k)%Z] =>
      let v := eval vm_compute in (2 ^ Zpos k)%Z in
      change (2 ^ Zpos k)%Z with v
  | H : context [(2 ^ Zpos ?k)%Z] |- _ =>
      let v := eval vm_compute in (2 ^ Zpos k)%Z in
      change (2 ^ Zpos k)%Z with v in H
  end.

Lemma toInt32_small z :
  (- 2 ^ 31 <= z < 2 ^ 31)%Z -> MFA.toInt32 z = z.
Proof.
  intros H. unfold MFA.toInt32.
  rewrite Z.mod_small by lia. lia.
Qed.

Lemma and32_mask b k :
  (0 <= b < 256)%Z -> (0 <= k <= 8)%Z ->
  MFA.and32 b (2 ^ k - 1) = (b mod 2 ^ k)%Z.
Proof.
  intros B K. unfold MFA.and32.
  assert (2 ^ k <= 2 ^ 8)%Z by (apply Z.pow_le_mono_r; lia).
  assert (0 < 2 ^ k)%Z by (apply Z.pow_pos_nonneg; lia).
  rewrite !toInt32_small by lia.
  replace (2 ^ k - 1)%Z with (Z.ones k) by (rewrite Z.ones_equiv; lia).
  apply Z.land_ones. lia.
Qed.

Lemma shl32_small x k :
  (0 <= k < 32)%Z -> (0 <= x)%Z -> (x * 2 ^ k < 2 ^ 31)%Z ->
  MFA.shl32 x k = (x * 2 ^ k)%Z.
Proof.
  intros K X B. unfold MFA.shl32.
  assert (0 < 2 ^ k)%Z by (apply Z.pow_pos_nonneg; lia).
  rewrite (toInt32_small x) by nia.
  rewrite Z.mod_small by lia.
  rewrite Z.shiftl_mul_pow2 by lia.
  apply toInt32_small. nia.
Qed.

Lemma lor_shifted a b k :
  (0 <= k)%Z -> (0 <= b < 2 ^ k)%Z ->
  Z.lor (a * 2 ^ k) b = (a * 2 ^ k + b)%Z.
Proof.
  intros K B.
  assert (L : Z.land (a * 2 ^ k) b = 0%Z).
  { apply Z.bits_inj'. intros n N.
    rewrite Z.land_spec, Z.bits_0.
    destruct (Z.lt_ge_cases n k) as [Lt | Ge].
    - rewrite Z.mul_pow2_bits_low by lia. reflexivity.
    - rewrite <- (Z.mod_small b (2 ^ k)) by lia.
      rewrite Z.mod_pow2_bits_high by lia.
      apply andb_false_r. }
  pose proof (Z.add_lor_land (a * 2 ^ k) b) as A. lia.
Qed.

Lemma or32_shifted a k x y :
  x = (a * 2 ^ k)%Z -> (0 <= k)%Z -> (0 <= a)%Z -> (0 <= y < 2 ^ k)%Z ->
  (x + y < 2 ^ 31)%Z ->
  MFA.or32 x y = (x + y)%Z.
Proof.
  intros -> K A B L. unfold MFA.or32.
  assert (0 < 2 ^ k)%Z by (apply Z.pow_pos_nonneg; lia).
  rewrite !toInt32_small by nia.
  now apply lor_shifted.
Qed.

Lemma byteAt_byte hash i :
  MFA.bytes hash -> (0 <= MFA.byteAt hash i < 256)%Z.
Proof.
  intros H. unfold MFA.byteAt.
  destruct (i <? 0)%Z; [lia |].
  destruct (nth_in_or_default (Z.to_nat i) hash 0%Z) as [I | ->]; [| lia].
  unfold MFA.bytes in H. rewrite Forall_forall in H. exact (H _ I).
Qed.

Lemma byteAt_nth hash i :
  (0 <= i)%Z -> MFA.byteAt hash i = nth (Z.to_nat i) hash 0%Z.
Proof.
  intros H. unfold MFA.byteAt.
  destruct (i <? 0)%Z eqn:E; [apply Z.ltb_lt in E; lia | reflexivity].
Qed.

Lemma offsetOf_nth hash :
  MFA.bytes hash ->
  MFA.offsetOf hash
  = (nth (Z.to_nat (Z.of_nat (List.length hash) - 1)) hash 0 mod 16)%Z.
Proof.
  intros H. unfold MFA.offsetOf.
  change 15%Z with (2 ^ 4 - 1)%Z.
  rewrite (and32_mask _ 4) by (auto using byteAt_byte; lia).
  unfold MFA.byteAt.
  destruct (Z.of_nat (List.length hash) - 1 <? 0)%Z eqn:E; [| reflexivity].
  apply Z.ltb_lt in E.
  destruct hash; [reflexivity | simpl List.length in E; lia].
Qed.

Lemma binaryOf_truncated hash :
  MFA.bytes hash ->
  MFA.binaryOf hash = MFA.truncated hash /\
  (0 <= MFA.binaryOf hash < 2 ^ 31)%Z.
Proof.
  intros H.
  pose proof (offsetOf_nth hash H) as O.
  unfold MFA.binaryOf, MFA.truncated. cbv zeta.
  rewrite <- O.
  set (offset := MFA.offsetOf hash) in *.
  assert (P : (0 <= offset < 16)%Z).
  { rewrite O. apply Z.mod_pos_bound. lia. }
  rewrite <- !byteAt_nth by lia.
  pose proof (byteAt_byte hash offset H) as B0.
  pose proof (byteAt_byte hash (offset + 1) H) as B1.
  pose proof (byteAt_byte hash (offset + 2) H) as B2.
  pose proof (byteAt_byte hash (offset + 3) H) as B3.
  set (b0 := MFA.byteAt hash offset) in *.
  set (b1 := MFA.byteAt hash (offset + 1)) in *.
  set (b2 := MFA.byteAt hash (offset + 2)) in *.
  set (b3 := MFA.byteAt hash (offset + 3)) in *.
  change 127%Z with (2 ^ 7 - 1)%Z. change 255%Z with (2 ^ 8 - 1)%Z.
  rewrite (and32_mask b0 7), !(and32_mask _ 8) by lia.
  rewrite !(Z.mod_small _ (2 ^ 8)) by lia.
  pose proof (Z.mod_pos_bound b0 (2 ^ 7) ltac:(lia)) as M.
  set (h := (b0 mod 2 ^ 7)%Z) in *.
  rewrite !shl32_small by (pow2; lia).
  rewrite (or32_shifted h 24 (h * 2 ^ 24) (b1 * 2 ^ 16)) by (pow2; lia).
  rewrite (or32_shifted (h * 2 ^ 8 + b1) 16 _ (b2 * 2 ^ 8)) by (pow2; lia).
  rewrite (or32_shifted (h * 2 ^ 16 + b1 * 2 ^ 8 + b2) 8 _ b3)
    by (pow2; lia).
  subst h. pow2. split; [reflexivity | lia].
Qed.

Lemma of_uint_acc_lower (d : Decimal.uint) : forall acc : positive,
  (Z.pos acc * 10 ^ Z.of_nat (Decimal.nb_digits d)
   <= Z.pos (Pos.of_uint_acc d acc))%Z.
Proof.
  induction d; intros acc;
    try (cbn [Pos.of_uint_acc Decimal.nb_digits];
         rewrite Nat2Z.inj_succ, Z.pow_succ_r by lia;
         match goal with
         | |- (_ <= Z.pos (Pos.of_uint_acc _ ?a))%Z =>
             eapply Z.le_trans; [| apply (IHd a)]
         end;
         assert (0 < 10 ^ Z.of_nat (Decimal.nb_digits d))%Z
           by (apply Z.pow_pos_nonneg; lia);
         nia).
  simpl. lia.
Qed.

Lemma to_uint_head (p : positive) :
  exists (acc : positive) (t : Decimal.uint),
    Z.pos p = Z.pos (Pos.of_uint_acc t acc) /\
    Decimal.nb_digits (Pos.to_uint p) = S (Decimal.nb_digits t) /\
    String.length (NilEmpty.string_of_uint (Pos.to_uint p))
    = S (Decimal.nb_digits t) /\
    MFA.digits (NilEmpty.string_of_uint (Pos.to_uint p)) = true.
Proof.
  pose proof (DecimalPos.Unsigned.of_to p) as O.
  pose proof (DecimalPos.Unsigned.to_of (Pos.to_uint p)) as N.
  rewrite O in N. cbn [N.to_uint] in N.
  pose proof (DecimalPos.Unsigned.to_uint_nonzero p) as Z0.
  pose proof (DecimalPos.Unsigned.to_uint_nonnil p) as Z1.
  assert (L : forall d, String.length (NilEmpty.string_of_uint d)
                        = Decimal.nb_digits d).
  { induction d; simpl; congruence. }
  assert (D : forall d, MFA.digits (NilEmpty.string_of_uint d) = true).
  { induction d; simpl; try reflexivity; assumption. }
  set (u := Pos.to_uint p) in *.
  destruct u as [| t | t | t | t | t | t | t | t | t | t];
    try congruence;
    try (cbn [Pos.of_uint] in O; injection O as O;
         eexists _, t; split; [rewrite <- O; reflexivity |];
         split; [reflexivity |]; split; [| apply D];
         simpl; now rewrite L).
  exfalso. unfold Decimal.unorm in N. cbn [Decimal.nzhead] in N.
  pose proof (DecimalFacts.nb_digits_nzhead t) as B.
  destruct (Decimal.nzhead t); try congruence;
    apply (f_equal Decimal.nb_digits) in N; simpl in N, B; lia.
Qed.

Lemma toString_digits (n : Z) (k : nat) :
  (0 <= n < 10 ^ Z.of_nat k)%Z -> (0 < k)%nat ->
  (String.length (MFA.toString n) <= k)%nat /\
  MFA.digits (MFA.toString n) = true.
Proof.
  intros B K. unfold MFA.toString.
  destruct n as [| p | p]; [simpl; split; [lia | reflexivity] | | lia].
  cbn [Z.to_int NilZero.string_of_int].
  destruct (to_uint_head p) as (acc & t & E & N & L & D).
  unfold NilZero.string_of_uint.
  destruct (Pos.to_uint p) eqn:U; try discriminate;
    (split; [| exact D]);
    rewrite L;
    pose proof (of_uint_acc_lower t acc) as Lo;
    destruct (Nat.le_gt_cases (S (Decimal.nb_digits t)) k) as [|G];
    try assumption; exfalso;
    assert (10 ^ Z.of_nat k <= 10 ^ Z.of_nat (Decimal.nb_digits t))%Z
      by (apply Z.pow_le_mono_r; lia);
    nia.
Qed.

Lemma pad_digits (k : nat) :
  String.length (String.concat "" (repeat "0"%string k)) = k /\
  MFA.digits (String.concat "" (repeat "0"%string k)) = true.
Proof.
  induction k as [|k [L D]]; [split; reflexivity |].
  destruct k as [|k]; [split; reflexivity |].
  change (repeat "0"%string (S (S k)))
    with ("0"%string :: "0"%string :: repeat "0"%string k).
  change (String.concat "" ("0"%string :: "0"%string :: repeat "0"%string k))
    with (String "0" (String.concat "" (repeat "0"%string (S k)))).
  split.
  - cbn [String.length]. now rewrite L.
  - cbn [MFA.digits]. now rewrite D.
Qed.

Lemma append_digits (s t : string) :
  String.length (s ++ t) = (String.length s + String.length t)%nat /\
  MFA.digits (s ++ t) = (MFA.digits s && MFA.digits t)%bool.
Proof.
  induction s as [|c s [L D]]; [split; reflexivity |].
  split; simpl.
  - now rewrite L.
  - now rewrite D, andb_assoc.
Qed.

(** X27: the one-time code.  For an HMAC digest of bytes, the 32-bit
    operators of [generateTOTP] never overflow: the value they build is
    the dynamic truncation of RFC 4226 (a non-negative 31-bit number),
    so the remainder is a true modulo and the code is always exactly
    six decimal digits, the remainder written in decimal and padded
    with zeros. *)
Theorem generateTOTP_six_digits hmac env secret :
  let hash := hmac secret (Date_now env / 30000)%Z in
  let otp := MFA.generateTOTP hmac env secret in
  MFA.bytes hash ->
  otp = MFA.padStart 6 (MFA.toString (MFA.truncated hash mod 1000000)) /\
  String.length otp = 6%nat /\
  MFA.digits otp = true.
Proof.
  intros hash otp H.
  destruct (binaryOf_truncated hash H) as [E B].
  assert (O : otp
    = MFA.padStart 6 (MFA.toString (MFA.truncated hash mod 1000000))).
  { subst otp. unfold MFA.generateTOTP. cbv zeta. fold hash.
    rewrite Z.rem_mod_nonneg by lia. now rewrite E. }
  split; [exact O |]. rewrite O.
  pose proof (Z.mod_pos_bound (MFA.truncated hash) 1000000 ltac:(lia)) as M.
  destruct (toString_digits (MFA.truncated hash mod 1000000) 6) as [L D];
    [simpl; lia | lia |].
  unfold MFA.padStart.
  set (s := MFA.toString _) in *.
  destruct (append_digits
              (String.concat "" (repeat "0"%string (6 - String.length s))) s)
    as [AL AD].
  destruct (pad_digits (6 - String.length s)) as [PL PD].
  rewrite AL, AD, PL, PD, D. split; [lia | reflexivity].
Qed.

Lemma generateTOTP_six_digits_witness :
  let hmac := fun (_ : string) (_ : Z) =>
    [31; 134; 152; 105; 14; 2; 202; 22; 97; 133;
     80; 239; 127; 25; 218; 142; 148; 91; 85; 90]%Z in
  let env := {| Math_random := fun _ => 0; Date_now := 59000%Z |} in
  MFA.generateTOTP hmac env "00ff" = "872921"%string /\
  String.length (MFA.generateTOTP hmac env "00ff") = 6%nat.
Proof.
  intros hmac env.
  assert (H : MFA.bytes (hmac "00ff"%string
                           (Date_now env / 30000)%Z)).
  { unfold MFA.bytes, hmac.
    repeat (apply Forall_cons; [lia |]). apply Forall_nil. }
  destruct (generateTOTP_six_digits hmac env "00ff" H)
    as (E & L & _).
  split; [rewrite E; reflexivity | exact L].
Defined.

(** X28: when additional verification is required.  For a request
    whose code [verifyTOTP] accepts and that carries behaviour data,
    [authenticate] succeeds, and it asks for additional verification
    exactly when the location is unusual together with an unusual time
    or a suspicious pattern: the score reaches 0.7 in no other way
    (unusual time with a suspicious pattern gives 0.6, an unusual
    location alone 0.4).  The location is unusual only when the data
    has a location and the draw of [isKnownLocation] is at most 0.2, so
    a request without a location is never asked for more. *)
Theorem authenticate_additional_verification
    hmac this env hour authRequest userBehavior n :
  let verified :=
    MFA.verifyTOTP hmac this env (MFA.userId authRequest)
      (MFA.totpCode authRequest) in
  MFA.behaviorData authRequest = Some userBehavior ->
  fst verified = true ->
  exists risk : MFA.RiskFactors,
    fst (MFA.authenticate hmac this env hour authRequest n)
    = (Returns {| MFA.success := true; MFA.error := None;
                  MFA.riskAssessment := Some risk;
                  MFA.requiresAdditionalVerification :=
                    MFA.unusualLocation risk
                    && (MFA.unusualTime risk || MFA.suspiciousPattern risk) |},
       snd verified) /\
    MFA.unusualTime risk = ((hour <? 6) || (22 <? hour))%Z%bool /\
    MFA.unusualLocation risk
    = match MFA.location userBehavior with
      | Some _ => Qle_bool (Math_random env n) 0.2
      | None => false
      end /\
    MFA.suspiciousPattern risk
    = match MFA.recentAttempts userBehavior with
      | Some k => negb (Qle_bool k 5)
      | None => false
      end.
Proof.
  intros verified B V. unfold MFA.authenticate. fold verified.
  destruct verified as [isValid this']. simpl in V. subst isValid.
  cbn [negb fst snd]. rewrite B.
  unfold MFA.analyzeBehaviorRisk, MFA.isKnownLocation, bind, ret, random.
  destruct ((hour <? 6)%Z || (22 <? hour)%Z)%bool;
    destruct (MFA.location userBehavior);
    [destruct (Qle_bool (Math_random env n) 0.2) | |
     destruct (Qle_bool (Math_random env n) 0.2) | ];
    (destruct (MFA.recentAttempts userBehavior) as [k |];
     [destruct (Qle_bool k 5) |]);
    cbn;
    match goal with
    | |- context [Some (MFA.mkRiskFactors ?t ?l ?p ?s)] =>
        exists (MFA.mkRiskFactors t l p s)
    end;
    repeat split; reflexivity.
Qed.

Lemma authenticate_additional_verification_witness :
  let hmac := fun (_ : string) (_ : Z) => @nil Z in
  let env := {| Math_random := fun _ => 1 # 10;
                Date_now := 1700000000000%Z |} in
  let this := MFA.run hmac MFA.constructor [MFA.Generate env "00ff" "alice"] in
  let behavior := {| MFA.location := Some "somewhere";
                     MFA.recentAttempts := Some 7 |} in
  let request := {| MFA.userId := "alice"; MFA.totpCode := "000000";
                    MFA.behaviorData := Some behavior |} in
  exists risk : MFA.RiskFactors,
    fst (MFA.authenticate hmac this env 12%Z request 0%nat)
    = (Returns {| MFA.success := true; MFA.error := None;
                  MFA.riskAssessment := Some risk;
                  MFA.requiresAdditionalVerification := true |}, this).
Proof.
  intros hmac env this behavior request.
  destruct (authenticate_additional_verification
              hmac this env 12%Z request behavior 0%nat eq_refl eq_refl)
    as (risk & E & T & L & P).
  exists risk. rewrite E.
  cbn in L, P, T. rewrite T, L, P. reflexivity.
Defined.

(** ** Metrics utility *)






